(** * librelay-node: the outgoing and incoming message pipelines

    A shallow embedding of [OutgoingMessage] (outgoing_message.js) and of
    [MessageReceiver] (message_receiver.js), and the properties of the
    padding scheme, of drift reconciliation, of prekey fetch and of
    session-fault recovery that the specification states about them;
    then the requests of the transport and the drain mode of the
    receiver, and further properties of both pipelines.

    Conventions of the embedding:
    - a [Buffer] is a [list byte]; lengths and device ids are [Z], as JS
      numbers in the integer range;
    - [async] functions are computations in a state-and-exception monad
      over an explicit world; an [await] is a sequencing point;
    - the message service, the session primitives of libsignal and the
      event listeners are external: their answers are oracles that read the
      world (and so the whole history of calls) at the moment of the call;
    - every external call and every emitted event is appended to a log, so
      that "is called", "is dispatched" and "how often" are statements
      about the log;
    - jobs handed to [Promise.all] run one after the other in list order;
    - left out: console output, the wall-clock stamps of journal entries,
      the content of the Exchange view attached to [message] and [sent]
      events (building it is an external step that may throw), and
      failures of the storage backend. *)

From stdpp Require Import gmap strings list fin_maps pretty sorting.
From Stdlib Require Import ZArith Lia.
From Stdlib.Strings Require Import Byte.

Open Scope Z_scope.

#[global] Instance byte_eq_decision : EqDecision byte.
Proof.
  intros x y. destruct (Byte.eqb x y) eqn:E.
  - left. by apply byte_dec_bl.
  - right. by apply eqb_false.
Defined.

(** Settles a decidable closed proposition by evaluating its decision. *)
Ltac by_compute := apply (bool_decide_unpack _); vm_compute; exact I.

(** ** Completions: a value is returned or an exception is thrown *)

Inductive completion (E A : Type) : Type :=
| Return (a : A)
| Throw (e : E).
Arguments Return {E A} a.
Arguments Throw {E A} e.

(** ** Buffers *)

Module Buffer.

Abbreviation t := (list byte).

Definition byteLength (buf : t) : Z := Z.of_nat (length buf).

(** [new Buffer(size)]: [size] bytes, zero-filled (Node 8 and later, the
    versions the README requires). *)
Definition alloc (size : Z) : t := replicate (Z.to_nat size) x00.

(** [dst.set(src)]: copies [src] to offset 0; a source longer than the
    target is a RangeError. *)
Definition set (dst src : t) : option t :=
  if (length src <=? length dst)%nat
  then Some (src ++ drop (length src) dst)
  else None.

(** [buf[i] = v]: an index outside the buffer is ignored, which is what
    list insertion does. *)
Definition store (buf : t) (i : Z) (v : byte) : t :=
  if 0 <=? i then <[Z.to_nat i := v]> buf else buf.

(** [buf.slice(0, i)] *)
Definition slice0 (buf : t) (i : nat) : t := take i buf.

End Buffer.

(** ** Padding (outgoing_message.js) *)

Inductive PadError : Type :=
| RangeError.

(** [getPaddedMessageLength(messageLength)] *)
Definition getPaddedMessageLength (messageLength : Z) : Z :=
  let messageLengthWithTerminator := messageLength + 1 in
  let messagePartCount := messageLengthWithTerminator / 160 in
  let messagePartCount :=
    if negb (messageLengthWithTerminator mod 160 =? 0)
    then messagePartCount + 1
    else messagePartCount in
  messagePartCount * 160.

(** The first lines of [doSendMessage]: the buffer handed to every
    per-device encryption. *)
Definition minLen (mBuf : Buffer.t) : Z :=
  getPaddedMessageLength (Buffer.byteLength mBuf + 1) - 1.

Definition paddedBuf (mBuf : Buffer.t) : completion PadError Buffer.t :=
  let paddedBuf := Buffer.alloc (minLen mBuf) in
  match Buffer.set paddedBuf mBuf with
  | None => Throw RangeError
  | Some paddedBuf =>
      Return (Buffer.store paddedBuf (Buffer.byteLength mBuf) x80)
  end.

(** The length the specification gives for the padded buffer,
    [ceil((len+1)/160) * 160], written from the specification's words. *)
Definition spec_paddedLen (len : Z) : Z := ((len + 1 + 159) / 160) * 160.

(** ** Unpadding (message_receiver.js) *)

Inductive UnpadError : Type :=
| InvalidPadding   (* new Error('Invalid padding') *)
| InvalidBuffer.   (* new Error("Invalid buffer") *)

(** The loop of [unpad], with [n = i + 1] so that the index stays a
    natural number: [for (let i = buf.byteLength - 1; i >= 0; i--)]. *)
Fixpoint unpad_loop (buf : Buffer.t) (n : nat) : completion UnpadError Buffer.t :=
  match n with
  | O => Throw InvalidBuffer
  | S i =>
      match buf !! i with
      | Some b =>
          if (b =? x80)%byte then Return (Buffer.slice0 buf i)
          else if negb (b =? x00)%byte then Throw InvalidPadding
          else unpad_loop buf i
      | None => Throw InvalidPadding   (* undefined !== 0x00 *)
      end
  end.

Definition unpad (buf : Buffer.t) : completion UnpadError Buffer.t :=
  unpad_loop buf (length buf).

(** Every byte of the buffer is zero (so also: the buffer is empty). *)
Definition all_zero (buf : Buffer.t) : bool :=
  forallb (fun b => (b =? x00)%byte) buf.

(** * The outgoing pipeline (outgoing_message.js) *)

Module OutgoingMessage.

(** ** Data *)

(** A device entry of a prekey bundle. *)
Record Device : Type := {
  deviceId : Z;
  registrationId : Z;
  signedPreKey : list byte;
  preKey : option (list byte)
}.

(** The answer of [server.getKeysForAddr]. *)
Record KeysResponse : Type := {
  identityKey : list byte;
  devices : list Device
}.

(** The body of a 409 or 410 answer ([e.response]); a list the answer
    does not carry is empty. *)
Record DriftResponse : Type := {
  extraDevices : list Z;
  missingDevices : list Z;
  staleDevices : list Z
}.

(** What [sessionCipher.encrypt] returns. *)
Record Encrypted : Type := {
  enc_type : Z;
  enc_registrationId : Z;
  enc_body : list byte
}.

(** The per-device ciphertext of [toJSON]. *)
Record Message : Type := {
  type : Z;
  destinationDeviceId : Z;
  destinationRegistrationId : Z;
  content : string
}.

(** The exceptions of the pipeline. The classes of errors.js are
    siblings: only a [ProtocolError] answers [instanceof ProtocolError].
    [Error] stands for every other error object (network failures,
    libsignal errors, TypeError), with its [message]. *)
Inductive exn : Type :=
| Error (message : string)
| ProtocolError (code : Z) (response : DriftResponse)
| UnregisteredUserError (addr : string) (cause : exn)
| SendMessageError (addr : string) (jsonData : list Message)
    (cause : exn) (timestamp : Z)
| OutgoingIdentityKeyError (addr : string) (identityKey : list byte)
| OutgoingMessageError (addr : string) (cause : exn).

(** [e.message], for the one test the code makes on it. *)
Definition message (e : exn) : string :=
  match e with
  | Error m => m
  | _ => ""
  end.

(** [e instanceof errors.ProtocolError && e.code === c] *)
Definition isProtocolError (c : Z) (e : exn) : bool :=
  match e with
  | ProtocolError code _ => code =? c
  | _ => false
  end.

(** An entry of the [sent] journal: [{timestamp: Date.now(), addr}];
    the wall-clock stamp is left out. *)
Record SentEntry : Type := { sent_addr : string }.

(** An entry of the [errors] journal: [{timestamp: Date.now(), error}]
    with [error.addr] and [error.reason] as [emitError] sets them. *)
Record ErrorEntry : Type := {
  error_addr : string;
  error_reason : string;
  error : exn
}.

(** A [SessionCipher] is bound to the address it was built for. *)
Record SessionCipher : Type := {
  cipher_addr : string;
  cipher_deviceId : Z
}.

(** External calls and emitted events, in the order they happen. *)
Inductive Action : Type :=
| GetKeysForAddr (addr : string) (device : option Z)
| ProcessPreKey (addr : string) (device : Z)
| RemoveSession (encodedAddr : string)
| CloseOpenSessionForDevice (addr : string) (device : Z)
| Encrypt (addr : string) (device : Z) (buf : list byte)
| SendMessages (addr : string) (jsonData : list Message) (timestamp : Z)
    (failure : option exn)
| EmitSent (entry : SentEntry)
| EmitError (entry : ErrorEntry)
| EmitKeychange (addr : string) (identityKey : list byte).

(** The session store (per address and device: is there an open session
    in the stored record), the own address of the process state, the two
    journals of the message and the log. *)
Record World : Type := {
  sessions : gmap (string * Z) bool;
  ourAddr : string;
  sent : list SentEntry;
  errors : list ErrorEntry;
  log : list Action
}.

Definition with_sessions (f : gmap (string * Z) bool -> gmap (string * Z) bool)
    (w : World) : World :=
  {| sessions := f (sessions w); ourAddr := ourAddr w; sent := sent w;
     errors := errors w; log := log w |}.

Definition with_log (a : Action) (w : World) : World :=
  {| sessions := sessions w; ourAddr := ourAddr w; sent := sent w;
     errors := errors w; log := log w ++ [a] |}.

Definition push_sent (x : SentEntry) (w : World) : World :=
  {| sessions := sessions w; ourAddr := ourAddr w; sent := sent w ++ [x];
     errors := errors w; log := log w |}.

Definition push_error (x : ErrorEntry) (w : World) : World :=
  {| sessions := sessions w; ourAddr := ourAddr w; sent := sent w;
     errors := errors w ++ [x]; log := log w |}.

(** The external parties. Each answer may depend on the whole world at
    the moment of the call, so on everything that happened before. *)
Record Env : Type := {
  (** [server.getKeysForAddr(addr, deviceId?)] *)
  server_getKeysForAddr :
    World -> string -> option Z -> completion exn KeysResponse;
  (** [server.sendMessages(addr, jsonData, timestamp)]; [None] is 200 *)
  server_sendMessages :
    World -> string -> list Message -> Z -> option exn;
  (** [builder.processPreKey(device)]; [Some m] throws an error with
      message [m] *)
  builder_processPreKey :
    World -> string -> list byte -> Device -> option string;
  (** [sessionCipher.encrypt(buf)] *)
  cipher_encrypt :
    World -> string -> Z -> list byte -> completion string Encrypted;
  (** [body.toString('base64')] *)
  toBase64 : list byte -> string
}.

(** ** The monad of [async] functions *)

Inductive outcome (A : Type) : Type :=
| Ok (a : A)
| Exn (e : exn)
| OutOfFuel.
Arguments Ok {A} a.
Arguments Exn {A} e.
Arguments OutOfFuel {A}.

Definition M (A : Type) : Type := World -> outcome A * World.

#[global] Instance M_ret : MRet M := fun A a w => (Ok a, w).

#[global] Instance M_bind : MBind M := fun A B f m w =>
  match m w with
  | (Ok a, w') => f a w'
  | (Exn e, w') => (Exn e, w')
  | (OutOfFuel, w') => (OutOfFuel, w')
  end.

Definition throw {A} (e : exn) : M A := fun w => (Exn e, w).

Definition outOfFuel {A} : M A := fun w => (OutOfFuel, w).

(** [try { m } catch (e) { ... }]: the exception becomes a value. *)
Definition try_ {A} (m : M A) : M (completion exn A) := fun w =>
  match m w with
  | (Ok a, w') => (Ok (Return a), w')
  | (Exn e, w') => (Ok (Throw e), w')
  | (OutOfFuel, w') => (OutOfFuel, w')
  end.

Definition gets {A} (f : World -> A) : M A := fun w => (Ok (f w), w).

Definition modify (f : World -> World) : M unit := fun w => (Ok tt, f w).

Definition logAction (a : Action) : M unit := modify (with_log a).

(** [for (const x of l) { await body(x) }] *)
Fixpoint forEach {A} (l : list A) (body : A -> M unit) : M unit :=
  match l with
  | [] => mret tt
  | x :: l' => body x ;; forEach l' body
  end.

(** [await Promise.all(jobs)] for jobs that were all started: every job
    runs to its end, one after the other in list order, and the first
    rejection in that order is the one thrown. *)
Fixpoint promiseAll {A} (jobs : list (M A)) : M (list A) :=
  match jobs with
  | [] => mret []
  | job :: jobs' => fun w =>
      match job w with
      | (Ok a, w1) => (l ← promiseAll jobs'; mret (a :: l)) w1
      | (Exn e, w1) =>
          match promiseAll jobs' w1 with
          | (OutOfFuel, w2) => (OutOfFuel, w2)
          | (_, w2) => (Exn e, w2)
          end
      | (OutOfFuel, w1) => (OutOfFuel, w1)
      end
  end.

(** ** The session store *)

(** [storage.getDeviceIds(addr)]: the device ids with a stored session,
    sorted. *)
Definition deviceIdsOf (addr : string) (m : gmap (string * Z) bool) : list Z :=
  merge_sort Z.le
    (snd <$> elements (filter (fun k : string * Z => k.1 = addr) (dom m))).

Definition getDeviceIds (addr : string) : M (list Z) :=
  gets (fun w => deviceIdsOf addr (sessions w)).

(** [storage.getState('addr')] *)
Definition getState_addr : M string := gets ourAddr.

(** [addr + "." + id] *)
Definition encodeAddr (addr : string) (id : Z) : string :=
  addr +:+ "." +:+ pretty id.

(** [storage.removeSession(encodedAddr)] for
    [encodedAddr = addr + "." + id]: the record is deleted. *)
Definition removeSession (addr : string) (id : Z) : M unit :=
  logAction (RemoveSession (encodeAddr addr id)) ;;
  modify (with_sessions (delete (addr, id))).

(** [sessionCipher.hasOpenSession()] *)
Definition hasOpenSession (addr : string) (id : Z) : M bool :=
  gets (fun w => default false (sessions w !! (addr, id))).

(** [sessionCipher.closeOpenSessionForDevice()]: the open session of the
    record is closed, the record stays. *)
Definition closeOpenSessionForDevice (c : SessionCipher) : M unit :=
  logAction (CloseOpenSessionForDevice (cipher_addr c) (cipher_deviceId c)) ;;
  modify (with_sessions
            (alter (fun _ => false) (cipher_addr c, cipher_deviceId c))).

(** The world after [closeOpenSessionForDevice] was called for each device
    of [stale], in order. *)
Definition closeAll (addr : string) (stale : list Z) (w : World) : World :=
  foldl (fun w x =>
           with_sessions (alter (fun _ => false) (addr, x))
             (with_log (CloseOpenSessionForDevice addr x) w))
        w stale.

Section Pipeline.

Variable env : Env.
(** [this.timestamp] and [this.messageBuffer] *)
Variable timestamp : Z.
Variable messageBuffer : list byte.

(** [builder.processPreKey(device)]: on success the record of the
    device holds a fresh open session. *)
Definition processPreKey (addr : string) (key : list byte) (device : Device)
  : M unit := fun w =>
  let w1 := with_log (ProcessPreKey addr (deviceId device)) w in
  match builder_processPreKey env w addr key device with
  | None =>
      (Ok tt, with_sessions (<[(addr, deviceId device) := true]>) w1)
  | Some m => (Exn (Error m), w1)
  end.

Definition server_getKeys (addr : string) (device : option Z)
  : M KeysResponse := fun w =>
  let w1 := with_log (GetKeysForAddr addr device) w in
  match server_getKeysForAddr env w addr device with
  | Return r => (Ok r, w1)
  | Throw e => (Exn e, w1)
  end.

Definition server_send (addr : string) (jsonData : list Message) (ts : Z)
  : M unit := fun w =>
  let r := server_sendMessages env w addr jsonData ts in
  let w1 := with_log (SendMessages addr jsonData ts r) w in
  match r with
  | None => (Ok tt, w1)
  | Some e => (Exn e, w1)
  end.

Definition encrypt (c : SessionCipher) (buf : list byte) : M Encrypted :=
  fun w =>
  let w1 := with_log (Encrypt (cipher_addr c) (cipher_deviceId c) buf) w in
  match cipher_encrypt env w (cipher_addr c) (cipher_deviceId c) buf with
  | Return r => (Ok r, w1)
  | Throw m => (Exn (Error m), w1)
  end.

(** ** The methods of [OutgoingMessage] *)

(** [emit(event, ...)]: the listeners are external and their errors
    are swallowed; the emission is logged. *)
Definition emitError (addr reason : string) (e : exn) : M unit :=
  let e :=
    match e with
    | ProtocolError code _ =>
        if negb (code =? 404) then OutgoingMessageError addr e else e
    | _ => e
    end in
  let entry := {| error_addr := addr; error_reason := reason; error := e |} in
  modify (push_error entry) ;;
  logAction (EmitError entry).

Definition emitSent (addr : string) : M unit :=
  let entry := {| sent_addr := addr |} in
  modify (push_sent entry) ;;
  logAction (EmitSent entry).

Definition removeDeviceIdsForAddr (addr : string) (deviceIdsToRemove : list Z)
  : M unit :=
  forEach deviceIdsToRemove (fun id => removeSession addr id).

(** One job of [handleResult], for the device [device] of the
    response; [again] is the re-entrant call
    [getKeysForAddr(addr, updateDevices, true)]. *)
Definition handleDevice (again : M unit) (addr : string)
    (updateDevices : option (list Z)) (reentrant : bool)
    (response : KeysResponse) (device : Device) : M unit :=
  if match updateDevices with
     | None => true
     | Some l => bool_decide (deviceId device ∈ l)
     end
  then
    r ← try_ (processPreKey addr (identityKey response) device);
    match r with
    | Return _ => mret tt
    | Throw e =>
        if String.eqb (message e) "Identity key changed" then
          if negb reentrant then
            logAction (EmitKeychange addr (identityKey response)) ;;
            again
          else
            throw (OutgoingIdentityKeyError addr (identityKey response))
        else throw e
    end
  else mret tt.

Definition handleResult (again : M unit) (addr : string)
    (updateDevices : option (list Z)) (reentrant : bool)
    (response : KeysResponse) : M unit :=
  promiseAll
    (handleDevice again addr updateDevices reentrant response
       <$> devices response) ;;
  mret tt.

(** One round of the loop of [getKeysForAddr] over an explicit device
    list: the request for [device], and its [catch]. *)
Definition getKeysForDevice (handle : KeysResponse -> M unit)
    (addr : string) (device : Z) : M unit :=
  r ← try_ (response ← server_getKeys addr (Some device);
            handle response);
  match r with
  | Return _ => mret tt
  | Throw e =>
      if isProtocolError 404 e && negb (device =? 1)
      then removeDeviceIdsForAddr addr [device]
      else throw e
  end.

(** [for (const device of updateDevices) { ... }], one request per
    device. *)
Definition getKeysForAddr_loop (handle : KeysResponse -> M unit)
    (addr : string) (updateDevices : list Z) : M unit :=
  forEach updateDevices (getKeysForDevice handle addr).

Definition getKeysForAddr_body (handle : KeysResponse -> M unit)
    (addr : string) (updateDevices : option (list Z)) : M unit :=
  match updateDevices with
  | None =>
      response ← server_getKeys addr None;
      handle response
  | Some l => getKeysForAddr_loop handle addr l
  end.

(** The [handleResult] closure of a call
    [getKeysForAddr(addr, updateDevices, reentrant)]: the recursion is
    one level deep, since the inner call is re-entrant and a
    re-entrant call never calls again. *)
Definition handlerOf (addr : string) (updateDevices : option (list Z))
    (reentrant : bool) : KeysResponse -> M unit :=
  let inner :=
    getKeysForAddr_body
      (handleResult (mret tt) addr updateDevices true)
      addr updateDevices in
  if reentrant then handleResult (mret tt) addr updateDevices true
  else handleResult inner addr updateDevices false.

(** [getKeysForAddr(addr, updateDevices, reentrant)] *)
Definition getKeysForAddr (addr : string) (updateDevices : option (list Z))
    (reentrant : bool) : M unit :=
  getKeysForAddr_body (handlerOf addr updateDevices reentrant)
    addr updateDevices.

Definition transmitMessage (addr : string) (jsonData : list Message)
    (ts : Z) : M unit :=
  r ← try_ (server_send addr jsonData ts);
  match r with
  | Return _ => mret tt
  | Throw e =>
      match e with
      | ProtocolError code _ =>
          if negb (code =? 409) && negb (code =? 410) then
            if code =? 404 then throw (UnregisteredUserError addr e)
            else throw (SendMessageError addr jsonData e ts)
          else throw e
      | _ => throw e
      end
  end.

Definition toJSON (c : SessionCipher) (encryptedMsg : Encrypted) : Message :=
  {| type := enc_type encryptedMsg;
     destinationDeviceId := cipher_deviceId c;
     destinationRegistrationId := enc_registrationId encryptedMsg;
     content := toBase64 env (enc_body encryptedMsg) |}.

Definition encryptToDevice (c : SessionCipher) (mBuf : list byte)
  : M Message :=
  encrypted ← encrypt c mBuf;
  mret (toJSON c encrypted).

(** [ciphers[x].closeOpenSessionForDevice()] for each stale device, the
    calls made in order by [map]; a device without a cipher makes the
    property access throw a TypeError and ends the [map]. *)
Definition closeStale (ciphers : gmap Z SessionCipher) (stale : list Z)
  : M unit :=
  forEach stale (fun x =>
    match ciphers !! x with
    | Some c => closeOpenSessionForDevice c
    | None => throw (Error "Cannot read property of undefined")
    end).

(** The [ciphers] object that [doSendMessage] fills while it maps over
    [deviceIds]: [ciphers[address.getDeviceId()] = sessionCipher]. *)
Definition ciphersFor (addr : string) (deviceIds : list Z)
  : gmap Z SessionCipher :=
  foldl (fun ciphers id =>
           <[id := {| cipher_addr := addr; cipher_deviceId := id |}]> ciphers)
        ∅ deviceIds.

(** [Promise.all(deviceIds.map(id => ... encryptToDevice(...)))] *)
Definition encryptAll (addr : string) (deviceIds : list Z)
    (paddedBuf : list byte) : M (list Message) :=
  promiseAll
    ((fun id =>
        encryptToDevice {| cipher_addr := addr; cipher_deviceId := id |}
          paddedBuf) <$> deviceIds).

(** [reloadDevicesAndSend], over the [doSendMessage] it calls. *)
Definition reloadDevicesAndSend_with
    (doSend : string -> list Z -> bool -> M unit)
    (addr : string) (recurse : bool) : M unit :=
  deviceIds ← getDeviceIds addr;
  proceed ←
    (if bool_decide (deviceIds = []) then
       ourAddr ← getState_addr;
       if String.eqb addr ourAddr then
         emitSent addr ;; mret true
       else
         mret false   (* console.warn("Unregistered address:"); return *)
     else mret true);
  if proceed : bool then doSend addr deviceIds recurse else mret tt.

(** The 409/410 branch of [doSendMessage] once [recurse] allowed it,
    over the [reloadDevicesAndSend] it calls; [recurseAgain] is the
    flag handed to it, [(e.code === 409)] in the source. *)
Definition reconcile (reload : string -> bool -> M unit)
    (ciphers : gmap Z SessionCipher) (addr : string)
    (code : Z) (response : DriftResponse) (recurseAgain : bool) : M unit :=
  (if code =? 409 then
     removeDeviceIdsForAddr addr (extraDevices response)
   else
     closeStale ciphers (staleDevices response)) ;;
  let resetDevices :=
    if code =? 410 then staleDevices response
    else missingDevices response in
  getKeysForAddr addr (Some resetDevices) false ;;
  r ← try_ (reload addr recurseAgain);
  match r with
  | Throw e => emitError addr "Failed to reload device keys" e
  | Return _ => emitSent addr
  end.

(** The body of [doSendMessage(addr, deviceIds, recurse)], over the
    [reloadDevicesAndSend] it calls. *)
Definition doSendMessage_with (reload : string -> bool -> M unit)
    (addr : string) (deviceIds : list Z) (recurse : bool) : M unit :=
  let ciphers := ciphersFor addr deviceIds in
  match paddedBuf messageBuffer with
  | Throw _ => throw (Error "RangeError")
  | Return paddedBuf =>
      r ← try_ (encryptAll addr deviceIds paddedBuf);
      match r with
      | Throw e => emitError addr "Failed to create message" e
      | Return messages =>
          r ← try_ (transmitMessage addr messages timestamp);
          match r with
          | Return _ => emitSent addr
          | Throw e =>
              match e with
              | ProtocolError code response =>
                  if (code =? 410) || (code =? 409) then
                    if negb recurse then
                      emitError addr
                        "Hit retry limit attempting to reload device list" e
                    else
                      reconcile reload ciphers addr code response
                        (code =? 409)
                  else emitError addr "Failed to send message" e
              | _ => emitError addr "Failed to send message" e
              end
          end
      end
  end.

(** [doSendMessage] and [reloadDevicesAndSend] call each other; the
    fuel bounds the depth of that recursion. *)
Fixpoint doSendMessage (fuel : nat) (addr : string) (deviceIds : list Z)
    (recurse : bool) : M unit :=
  match fuel with
  | O => outOfFuel
  | S fuel' =>
      doSendMessage_with
        (reloadDevicesAndSend_with (doSendMessage fuel'))
        addr deviceIds recurse
  end.

Definition reloadDevicesAndSend (fuel : nat) (addr : string)
    (recurse : bool) : M unit :=
  reloadDevicesAndSend_with (doSendMessage fuel) addr recurse.

(** The 410 row of drift reconciliation in the specification's words:
    close the open sessions of the stale devices, refresh their keys,
    re-run the send. The flag of the re-run is a parameter: the
    specification says [true] ("allowed once more"). *)
Definition staleRecovery (fuel : nat) (addr : string)
    (deviceIds stale : list Z) (recurseAgain : bool) : M unit :=
  closeStale (ciphersFor addr deviceIds) stale ;;
  getKeysForAddr addr (Some stale) false ;;
  r ← try_ (reloadDevicesAndSend fuel addr recurseAgain);
  match r with
  | Throw e => emitError addr "Failed to reload device keys" e
  | Return _ => emitSent addr
  end.

(** The loop of [getStaleDeviceIdsForAddr]: the ids without an open
    session are pushed to [updateDevices]. *)
Fixpoint collectStale (addr : string) (deviceIds updateDevices : list Z)
  : M (list Z) :=
  match deviceIds with
  | [] => mret updateDevices
  | id :: deviceIds' =>
      isOpen ← hasOpenSession addr id;
      if negb isOpen
      then collectStale addr deviceIds' (updateDevices ++ [id])
      else collectStale addr deviceIds' updateDevices
  end.

Definition getStaleDeviceIdsForAddr (addr : string) : M (list Z) :=
  deviceIds ← getDeviceIds addr;
  deviceIds ←
    (if bool_decide (deviceIds = []) then
       ourAddr ← getState_addr;
       if negb (String.eqb addr ourAddr)
       then mret (deviceIds ++ [1])   (* XXX Mabye just return []; *)
       else mret deviceIds
     else mret deviceIds);
  collectStale addr deviceIds [].

Definition sendToAddr (fuel : nat) (addr : string) : M unit :=
  r ← try_ (getStaleDeviceIdsForAddr addr);
  updateDevices ←
    match r with
    | Return l => mret (Some l)
    | Throw e =>
        emitError addr ("Failed to get device ids for address " +:+ addr) e ;;
        mret None
    end;
  r ← try_ (getKeysForAddr addr updateDevices false);
  match r with
  | Return _ => mret tt
  | Throw e =>
      emitError addr
        ("Failed to retrieve new device keys for address " +:+ addr) e
  end ;;
  r ← try_ (reloadDevicesAndSend fuel addr true);
  match r with
  | Return _ => mret tt
  | Throw e =>
      emitError addr ("Failed to send to address " +:+ addr) e
  end.

End Pipeline.

(** ** Reading the log *)

(** A transmit attempt: a call of [server.sendMessages]. *)
Definition isSend (a : Action) : bool :=
  match a with
  | SendMessages _ _ _ _ => true
  | _ => false
  end.

(** A transmit attempt that the server answered with 409. *)
Definition isSend409 (a : Action) : bool :=
  match a with
  | SendMessages _ _ _ (Some e) => isProtocolError 409 e
  | _ => false
  end.

Definition count (p : Action -> bool) (l : list Action) : nat :=
  length (List.filter p l).

Definition sends (w : World) : nat := count isSend (log w).

Definition sends409 (w : World) : nat := count isSend409 (log w).

(** The prekey requests of a log, as (address, device) pairs. *)
Definition keyFetches (l : list Action) : list (string * option Z) :=
  omap (fun a => match a with
                 | GetKeysForAddr addr d => Some (addr, d)
                 | _ => None
                 end) l.

(** The arguments of the [storage.removeSession] calls of a log. *)
Definition removals (l : list Action) : list string :=
  omap (fun a => match a with
                 | RemoveSession encodedAddr => Some encodedAddr
                 | _ => None
                 end) l.

(** The devices whose session [closeOpenSessionForDevice] was called on. *)
Definition closings (l : list Action) : list (string * Z) :=
  omap (fun a => match a with
                 | CloseOpenSessionForDevice addr d => Some (addr, d)
                 | _ => None
                 end) l.

(** The journal entries of a world that mention [addr]. *)
Definition entriesFor (addr : string) (w : World) : nat :=
  length (List.filter (fun x => String.eqb (sent_addr x) addr) (sent w))
  + length (List.filter (fun x => String.eqb (error_addr x) addr) (errors w)).

(** ** Predicates on computations *)

(** [m] only appends to the log, and only actions that satisfy [P]. *)
Definition logs (P : Action -> Prop) {A} (m : M A) : Prop :=
  forall w, exists l, log (m w).2 = log w ++ l /\ Forall P l.

(** A prekey request. *)
Definition isKeyFetch (a : Action) : bool :=
  match a with
  | GetKeysForAddr _ _ => true
  | _ => false
  end.

(** [P] allows the prekey requests that
    [getKeysForAddr(addr, updateDevices)] may make. *)
Definition fetchesAllowed (P : Action -> Prop) (addr : string)
    (updateDevices : option (list Z)) : Prop :=
  match updateDevices with
  | Some l => forall d, d ∈ l -> P (GetKeysForAddr addr (Some d))
  | None => P (GetKeysForAddr addr None)
  end.

(** The prekey requests a fetch for the devices [stale] of [addr] may
    make. *)
Definition fetchOf (addr : string) (stale : list Z) (a : Action) : Prop :=
  match a with
  | GetKeysForAddr addr' d => addr' = addr /\ exists x, x ∈ stale /\ d = Some x
  | _ => True
  end.

(** A computation that makes no transmit attempt. *)
Definition quiet {A} (m : M A) : Prop :=
  forall w, sends (m w).2 = sends w /\ sends409 (m w).2 = sends409 w.

(** The bound on the transmit attempts of a send made with the flag
    [recurse]: every attempt beyond the first is paid for by a 409
    answer, but for one (the retry after a 410); without [recurse]
    there is one attempt at most. *)
Definition attempt_bound (recurse : bool) (m : M unit) : Prop :=
  forall w,
    (sends409 w <= sends409 (m w).2)%nat /\
    (sends (m w).2 + sends409 w
     <= sends w + sends409 (m w).2 + (if recurse then 2 else 1))%nat /\
    (recurse = false -> sends (m w).2 <= sends w + 1)%nat.

(** A computation out of which no exception is thrown. *)
Definition noThrow {A} (m : M A) : Prop :=
  forall w e, (m w).1 <> Exn e.

End OutgoingMessage.

(** * Scenarios of the outgoing pipeline *)

Module Scenario.
Import OutgoingMessage.

Definition device (id : Z) : Device :=
  {| deviceId := id; registrationId := 100 + id;
     signedPreKey := []; preKey := None |}.

(** A service that has a prekey bundle for every device asked for (and
    for device 1 when none is named) and answers the n-th transmit by
    [answers n]; a session builder that accepts every bundle; a cipher
    that encrypts where the store has an open session. *)
Definition scripted (answers : nat -> option exn) : Env :=
  {| server_getKeysForAddr := fun _ _ d =>
       Return {| identityKey := [x05];
                 devices := [device (default 1 d)] |};
     server_sendMessages := fun w _ _ _ => answers (sends w);
     builder_processPreKey := fun _ _ _ _ => None;
     cipher_encrypt := fun w addr id _ =>
       if default false (sessions w !! (addr, id))
       then Return {| enc_type := 1; enc_registrationId := 100 + id;
                      enc_body := [] |}
       else Throw "No open session";
     toBase64 := fun _ => "" |}.

Definition world (our : string) (m : gmap (string * Z) bool) : World :=
  {| sessions := m; ourAddr := our; sent := []; errors := []; log := [] |}.

(** A 410 answer naming the stale devices. *)
Definition stale410 (stale : list Z) : exn :=
  ProtocolError 410
    {| extraDevices := []; missingDevices := []; staleDevices := stale |}.

(** A 409 answer naming the extra and the missing devices. *)
Definition mismatch409 (extra missing : list Z) : exn :=
  ProtocolError 409
    {| extraDevices := extra; missingDevices := missing; staleDevices := [] |}.

(** The message "hi" of the specification's first scenario. *)
Definition hi : list byte := [x68; x69].

(** alice has one device, with an open session. *)
Definition alice1 : World := world "me" {[ ("alice", 1) := true ]}.

(** 410 for device 1 on the first transmit, 200 afterwards. *)
Definition staleOnce : Env :=
  scripted (fun n => match n with
                     | O => Some (stale410 [1])
                     | _ => None
                     end).

(** 410 for device 1 on every transmit. *)
Definition staleAlways : Env := scripted (fun _ => Some (stale410 [1])).

(** The one message that goes to device 1 of alice. *)
Definition toAlice1 : Message :=
  {| type := 1; destinationDeviceId := 1; destinationRegistrationId := 101;
     content := "" |}.

(** [alice1] after the encryption for device 1 and a first transmit that
    was answered 410 for device 1. *)
Definition alice1_stale : World :=
  with_log (SendMessages "alice" [toAlice1] 1000 (Some (stale410 [1])))
    (with_log (Encrypt "alice" 1
                 (hi ++ x80 :: replicate 156 x00)) alice1).

(** Devices 2 and 3 appear one after the other: 409 twice, then 200. *)
Definition growing : Env :=
  scripted (fun n => match n with
                     | 0%nat => Some (mismatch409 [] [2])
                     | 1%nat => Some (mismatch409 [] [3])
                     | _ => None
                     end).

(** Every transmit is answered by 200. *)
Definition accepting : Env := scripted (fun _ => None).

(** The service knows no device 2 of bob: 404 for its prekeys. *)
Definition bobLostDevice2 : Env :=
  {| server_getKeysForAddr := fun _ _ d =>
       match d with
       | Some 2 => Throw (ProtocolError 404
                            {| extraDevices := []; missingDevices := [];
                               staleDevices := [] |})
       | _ => Return {| identityKey := [x05];
                        devices := [device (default 1 d)] |}
       end;
     server_sendMessages := fun _ _ _ _ => None;
     builder_processPreKey := fun _ _ _ _ => None;
     cipher_encrypt := fun _ _ id _ =>
       Return {| enc_type := 1; enc_registrationId := 100 + id;
                 enc_body := [] |};
     toBase64 := fun _ => "" |}.

End Scenario.

(** * The incoming pipeline (message_receiver.js) *)

Module MessageReceiver.

(** ** Data *)

(** [ENV_TYPES]: the envelope types the receiver tells apart; every other
    value of the enumeration is [OTHER]. *)
Inductive EnvType : Type :=
| CIPHERTEXT
| PREKEY_BUNDLE
| RECEIPT
| OTHER.

#[global] Instance EnvType_eq_dec : EqDecision EnvType.
Proof. solve_decision. Defined.

(** An envelope; [None] is an absent (falsy) field, and [keyChange] is
    [false] until [handleEnvelope] sets it. *)
Record Envelope : Type := {
  type : EnvType;
  source : string;
  sourceDevice : Z;
  timestamp : Z;
  content : option (list byte);
  legacyMessage : option (list byte);
  keyChange : bool
}.

(** [envelope.keyChange = true] *)
Definition setKeyChange (envelope : Envelope) : Envelope :=
  {| type := type envelope; source := source envelope;
     sourceDevice := sourceDevice envelope; timestamp := timestamp envelope;
     content := content envelope; legacyMessage := legacyMessage envelope;
     keyChange := true |}.

(** The decoded payloads, as far as the receiver looks into them. *)
Record DataMessage : Type := {
  flags : Z;
  body : list byte
}.

Record SentMessage : Type := {
  sent_destination : string;
  sent_timestamp : Z;
  sent_message : DataMessage;
  expirationStartTimestamp : option Z
}.

Record ReadEntry : Type := {
  read_timestamp : Z;
  read_sender : string
}.

Record SyncMessage : Type := {
  sent : option SentMessage;
  read : list ReadEntry;
  contacts : bool;
  groups : bool;
  blocked : bool;
  request : bool
}.

Record Content : Type := {
  syncMessage : option SyncMessage;
  dataMessage : option DataMessage
}.

(** [DATA_FLAGS.END_SESSION] *)
Definition END_SESSION : Z := 1.

(** The exceptions of the receiver: plain JS errors and the error classes
    of libsignal. *)
Inductive exn : Type :=
| Error (message : string)
| TypeError (message : string)
| ReferenceError (message : string)
| MessageCounterError (message : string)
| UntrustedIdentityKeyError (addr : string) (identityKey : list byte)
| SessionError (message : string)
| PreKeyError (message : string).

(** [e instanceof libsignal.MessageCounterError] *)
Definition isMessageCounterError (e : exn) : bool :=
  match e with MessageCounterError _ => true | _ => false end.

(** [e instanceof libsignal.UntrustedIdentityKeyError] *)
Definition isUntrustedIdentityKeyError (e : exn) : bool :=
  match e with UntrustedIdentityKeyError _ _ => true | _ => false end.

(** [e instanceof libsignal.SessionError]: in libsignal the counter and
    the prekey error classes extend [SessionError]. *)
Definition isSessionError (e : exn) : bool :=
  match e with
  | SessionError _ | PreKeyError _ | MessageCounterError _ => true
  | _ => false
  end.

(** [e instanceof libsignal.PreKeyError] *)
Definition isPreKeyError (e : exn) : bool :=
  match e with PreKeyError _ => true | _ => false end.

(** The [data] of a [message] event. *)
Record MessageData : Type := {
  msg_timestamp : Z;
  msg_source : string;
  msg_sourceDevice : Z;
  msg_message : DataMessage;
  msg_keyChange : bool
}.

(** The [data] of a [sent] event. *)
Record SentData : Type := {
  snt_source : string;
  snt_sourceDevice : Z;
  snt_timestamp : Z;
  snt_destination : string;
  snt_message : DataMessage;
  snt_expirationStartTimestamp : option Z
}.

(** The events the receiver dispatches. The Exchange view that the
    [message] and [sent] events also carry is built by code outside this
    file: the events leave it out, the step that builds it is
    [exchangeDecode] below. *)
Inductive Event : Type :=
| ReceiptEvent (proto : Envelope)
| MessageEvent (data : MessageData)
| SentEvent (data : SentData)
| ReadEvent (timestamp : Z) (read_timestamp : Z) (sender : string)
    (source : string) (sourceDevice : Z)
| KeyChangeEvent (keyError : exn) (envelope : Envelope)
| ErrorEvent (error : exn) (proto : Envelope).

Inductive Cipher : Type :=
| WhisperMessage
| PreKeyWhisperMessage.

(** Dispatched events and external calls, in the order they happen. *)
Inductive Action : Type :=
| Dispatch (ev : Event)
| Decrypt (kind : Cipher) (addr : string) (device : Z) (ciphertext : list byte)
| Accept (keyError : exn)
| GenerateKeys
| RegisterKeys (keys : list byte)
| SenderCloseSession (fqAddr : string) (retransmit : Z)
| CloseOpenSession (addr : string) (device : Z).

(** The blocked set and the stored device ids of the session store, and
    the log. *)
Record World : Type := {
  blockedSet : gset string;
  deviceIds : gmap string (list Z);
  log : list Action
}.

Definition with_log (a : Action) (w : World) : World :=
  {| blockedSet := blockedSet w; deviceIds := deviceIds w;
     log := log w ++ [a] |}.

(** The external parties; each answer may depend on the world at the
    moment of the call. *)
Record Env : Type := {
  (** [sessionCipher.decryptWhisperMessage(ciphertext)] *)
  decryptWhisperMessage :
    World -> string -> Z -> list byte -> completion exn (list byte);
  (** [sessionCipher.decryptPreKeyWhisperMessage(ciphertext)] *)
  decryptPreKeyWhisperMessage :
    World -> string -> Z -> list byte -> completion exn (list byte);
  (** [protobufs.Content.decode(data)] *)
  decodeContent : list byte -> completion exn Content;
  (** [protobufs.DataMessage.decode(data)] *)
  decodeDataMessage : list byte -> completion exn DataMessage;
  (** [exchange.decode(message, {...})] and the setters called on its
      result; [None] is success *)
  exchangeDecode : DataMessage -> option exn;
  (** Does a listener of [keychange] call [accept()] on the event. *)
  listenerAccepts : World -> exn -> Envelope -> bool;
  (** [signal.generateKeys()] *)
  generateKeys : World -> completion exn (list byte);
  (** [signal.registerKeys(keys)]; [None] is success *)
  registerKeys : World -> list byte -> option exn;
  (** [_sender.closeSession(fqAddr, {retransmit})]; [None] is success *)
  closeSession : World -> string -> Z -> option exn
}.

(** ** The monad of [async] methods *)

Definition R (A : Type) : Type := World -> completion exn A * World.

#[global] Instance R_ret : MRet R := fun A a w => (Return a, w).

#[global] Instance R_bind : MBind R := fun A B f m w =>
  match m w with
  | (Return a, w') => f a w'
  | (Throw e, w') => (Throw e, w')
  end.

Definition throw {A} (e : exn) : R A := fun w => (Throw e, w).

(** [try { m } catch (e) { ... }] *)
Definition try_ {A} (m : R A) : R (completion exn A) := fun w =>
  match m w with
  | (Return a, w') => (Return (Return a), w')
  | (Throw e, w') => (Return (Throw e), w')
  end.

Definition gets {A} (f : World -> A) : R A := fun w => (Return (f w), w).

Definition logAction (a : Action) : R unit := fun w => (Return tt, with_log a w).

(** An external call: it is logged, then it answers. *)
Definition call {A} (a : Action) (answer : World -> completion exn A) : R A :=
  fun w => (answer w, with_log a w).

Fixpoint forEach {A} (l : list A) (body : A -> R unit) : R unit :=
  match l with
  | [] => mret tt
  | x :: l' => body x ;; forEach l' body
  end.

Definition ofOption (r : option exn) : completion exn unit :=
  match r with
  | None => Return tt
  | Some e => Throw e
  end.

Section Receiver.

Variable env : Env.
(** [this.addr] and [this.deviceId] *)
Variable addr : string.
Variable deviceId : Z.

(** [this.dispatchEvent(ev)]: the listeners are external and their errors
    are swallowed; the dispatch is logged. *)
Definition dispatchEvent (ev : Event) : R unit := logAction (Dispatch ev).

(** [storage.isBlocked(addr)] *)
Definition isBlocked (a : string) : R bool :=
  gets (fun w => bool_decide (a ∈ blockedSet w)).

Definition handleDeliveryReceipt (envelope : Envelope) : R unit :=
  dispatchEvent (ReceiptEvent envelope).

(** [unpad] as a method: its two errors as [Error] objects. *)
Definition unpadR (buf : list byte) : R (list byte) :=
  match unpad buf with
  | Return data => mret data
  | Throw InvalidPadding => throw (Error "Invalid padding")
  | Throw InvalidBuffer => throw (Error "Invalid buffer")
  end.

Definition decrypt (envelope : Envelope) (ciphertext : list byte)
  : R (list byte) :=
  plainBuf ←
    match type envelope with
    | CIPHERTEXT =>
        call (Decrypt WhisperMessage (source envelope) (sourceDevice envelope)
                ciphertext)
             (fun w => decryptWhisperMessage env w (source envelope)
                         (sourceDevice envelope) ciphertext)
    | PREKEY_BUNDLE =>
        call (Decrypt PreKeyWhisperMessage (source envelope)
                (sourceDevice envelope) ciphertext)
             (fun w => decryptPreKeyWhisperMessage env w (source envelope)
                         (sourceDevice envelope) ciphertext)
    | _ => throw (TypeError "Unknown message type")
    end;
  unpadR plainBuf.

(** [handleEndSession(addr)]: no caller passes a device id, so the
    sessions of all stored devices are closed. *)
Definition handleEndSession (a : string) : R unit :=
  ids ← gets (fun w => default [] (deviceIds w !! a));
  forEach ids (fun id => logAction (CloseOpenSession a id)).

(** [const ex = exchange.decode(message, {...}); ex.setSource(...); ...]:
    the view is built before the event is; building it may throw. *)
Definition exchangeOf (message : DataMessage) : R unit :=
  fun w => (ofOption (exchangeDecode env message), w).

Definition handleDataMessage (message : DataMessage) (envelope : Envelope)
  : R unit :=
  (if negb (Z.land (flags message) END_SESSION =? 0)
   then handleEndSession (source envelope)
   else mret tt) ;;
  exchangeOf message ;;
  dispatchEvent
    (MessageEvent {| msg_timestamp := timestamp envelope;
                     msg_source := source envelope;
                     msg_sourceDevice := sourceDevice envelope;
                     msg_message := message;
                     msg_keyChange := keyChange envelope |}).

Definition handleSentMessage (sent : SentMessage) (envelope : Envelope)
  : R unit :=
  if negb (Z.land (flags (sent_message sent)) END_SESSION =? 0)
  then mret tt   (* console.error("Unsupported syncMessage end-session") *)
  else
    exchangeOf (sent_message sent) ;;
    dispatchEvent
      (SentEvent {| snt_source := source envelope;
                    snt_sourceDevice := sourceDevice envelope;
                    snt_timestamp := sent_timestamp sent;
                    snt_destination := sent_destination sent;
                    snt_message := sent_message sent;
                    snt_expirationStartTimestamp :=
                      expirationStartTimestamp sent |}).

Definition handleRead (read : list ReadEntry) (envelope : Envelope) : R unit :=
  forEach read (fun x =>
    dispatchEvent
      (ReadEvent (timestamp envelope) (read_timestamp x) (read_sender x)
         (source envelope) (sourceDevice envelope))).

Definition handleBlocked : R unit := throw (Error "UNSUPPORTRED").

Definition handleSyncMessage (message : SyncMessage) (envelope : Envelope)
  : R unit :=
  if negb (String.eqb (source envelope) addr) then
    throw (ReferenceError "Received sync message from another addr")
  else if sourceDevice envelope =? deviceId then
    throw (ReferenceError "Received sync message from our own device")
  else
    match sent message with
    | Some s => handleSentMessage s envelope
    | None =>
        if negb (bool_decide (read message = [])) then
          handleRead (read message) envelope
        else if contacts message then
          throw (TypeError "Deprecated contact sync message")
        else if groups message then
          throw (TypeError "Deprecated group sync message")
        else if blocked message then handleBlocked
        else if request message then
          throw (TypeError "Deprecated group request sync message")
        else mret tt   (* console.error("Empty sync message:") *)
    end.

Definition decodeR {A} (r : completion exn A) : R A := fun w => (r, w).

Definition handleLegacyMessage (envelope : Envelope) : R unit :=
  data ← decrypt envelope (default [] (legacyMessage envelope));
  message ← decodeR (decodeDataMessage env data);
  handleDataMessage message envelope.

Definition handleContentMessage (envelope : Envelope) : R unit :=
  data ← decrypt envelope (default [] (content envelope));
  content ← decodeR (decodeContent env data);
  match syncMessage content with
  | Some m => handleSyncMessage m envelope
  | None =>
      match dataMessage content with
      | Some m => handleDataMessage m envelope
      | None =>
          throw (TypeError
                   "Got content message with no dataMessage or syncMessage")
      end
  end.

(** The choice of the handler at the head of [handleEnvelope]. *)
Definition selectHandler (envelope : Envelope) : R (Envelope -> R unit) :=
  if bool_decide (type envelope = RECEIPT) then mret handleDeliveryReceipt
  else if bool_decide (is_Some (content envelope)) then
    mret handleContentMessage
  else if bool_decide (is_Some (legacyMessage envelope)) then
    mret handleLegacyMessage
  else
    throw (Error "Received message with no content and no legacyMessage").

(** [keyChangeEvent.accept()]: the new identity is saved and
    [e.accepted] is set. *)
Definition accept (e : exn) : R unit := logAction (Accept e).

(** The key-change step of [handleEnvelope]; it answers [e.accepted]. *)
Definition keyChangeDecision (forceAcceptKeyChange : bool) (e : exn)
    (envelope : Envelope) : R bool :=
  if forceAcceptKeyChange then
    accept e ;; mret true
  else
    accepted ← gets (fun w => listenerAccepts env w e envelope);
    dispatchEvent (KeyChangeEvent e envelope) ;;
    if accepted : bool then accept e ;; mret true else mret false.

(** [`${envelope.source}.${envelope.sourceDevice}`] *)
Definition fqAddr (envelope : Envelope) : string :=
  source envelope +:+ "." +:+ pretty (sourceDevice envelope).

(** The [SessionError] branch of [handleEnvelope]. *)
Definition sessionRecovery (e : exn) (envelope : Envelope) : R unit :=
  (if isPreKeyError e then
     keys ← call GenerateKeys (generateKeys env);
     call (RegisterKeys keys) (fun w => ofOption (registerKeys env w keys))
   else mret tt) ;;
  call (SenderCloseSession (fqAddr envelope) (timestamp envelope))
       (fun w => ofOption (closeSession env w (fqAddr envelope)
                             (timestamp envelope))).

(** The [catch] block of [handleEnvelope], over the re-entrant call it
    makes. *)
Definition handleFault (again : Envelope -> R unit)
    (envelope : Envelope) (reentrant forceAcceptKeyChange : bool) (e : exn)
  : R unit :=
  if isMessageCounterError e then
    mret tt   (* console.warn("Ignoring duplicate message:") *)
  else if isUntrustedIdentityKeyError e && negb reentrant then
    accepted ← keyChangeDecision forceAcceptKeyChange e envelope;
    if accepted : bool then again (setKeyChange envelope)
    else mret tt
  else
    (if isSessionError e then sessionRecovery e envelope
     else mret tt) ;;
    dispatchEvent (ErrorEvent e envelope).

(** The body of [handleEnvelope], over the re-entrant call it makes. *)
Definition handleEnvelope_with (again : Envelope -> R unit)
    (envelope : Envelope) (reentrant forceAcceptKeyChange : bool) : R unit :=
  isB ← isBlocked (source envelope);
  if isB : bool then mret tt   (* console.warn("Dropping message") *)
  else
    handler ← selectHandler envelope;
    r ← try_ (handler envelope);
    match r with
    | Return _ => mret tt
    | Throw e => handleFault again envelope reentrant forceAcceptKeyChange e
    end.

(** [handleEnvelope(envelope, reentrant, forceAcceptKeyChange)]: the
    recursion is one level deep, since the inner call is re-entrant and a
    re-entrant call never calls again. *)
Definition handleEnvelope (envelope : Envelope)
    (reentrant forceAcceptKeyChange : bool) : R unit :=
  handleEnvelope_with
    (fun envelope' =>
       handleEnvelope_with (fun _ => mret tt) envelope' true false)
    envelope reentrant forceAcceptKeyChange.

End Receiver.

(** ** Reading the log *)

Definition isKeyChange (a : Action) : bool :=
  match a with Dispatch (KeyChangeEvent _ _) => true | _ => false end.

Definition isDecrypt (a : Action) : bool :=
  match a with Decrypt _ _ _ _ => true | _ => false end.

Definition count (p : Action -> bool) (l : list Action) : nat :=
  length (List.filter p l).

(** The [keyChange] fields of the [message] events of a log. *)
Definition messageKeyChanges (l : list Action) : list bool :=
  omap (fun a => match a with
                 | Dispatch (MessageEvent d) => Some (msg_keyChange d)
                 | _ => None
                 end) l.

(** The [error] events of a log. *)
Definition errorEvents (l : list Action) : list (exn * Envelope) :=
  omap (fun a => match a with
                 | Dispatch (ErrorEvent e p) => Some (e, p)
                 | _ => None
                 end) l.

(** The ciphertext that [handleEnvelope] decrypts for an envelope that is
    no receipt: [content] if present, else [legacyMessage]. *)
Definition ciphertextOf (envelope : Envelope) : option (list byte) :=
  match content envelope with
  | Some c => Some c
  | None => legacyMessage envelope
  end.

(** ** Predicates on methods *)

(** [m] only appends to the log, and only actions that satisfy [P]. *)
Definition logsR (P : Action -> Prop) {A} (m : R A) : Prop :=
  forall w, exists l, log (m w).2 = log w ++ l /\ Forall P l.

End MessageReceiver.

(** * Scenarios of the incoming pipeline *)

Module IncomingScenario.
Import MessageReceiver.

(** A ciphertext envelope from bob's device 2. *)
Definition fromBob : Envelope :=
  {| type := CIPHERTEXT; source := "bob"; sourceDevice := 2;
     timestamp := 1234; content := Some [x01; x02]; legacyMessage := None;
     keyChange := false |}.

Definition emptyWorld : World :=
  {| blockedSet := ∅; deviceIds := ∅; log := [] |}.

(** Every decryption throws [fault]; the recovery calls succeed and the
    listeners accept a key change iff [accepts]. *)
Definition failing (fault : exn) (accepts : bool) : Env :=
  {| decryptWhisperMessage := fun _ _ _ _ => Throw fault;
     decryptPreKeyWhisperMessage := fun _ _ _ _ => Throw fault;
     decodeContent := fun _ =>
       Return {| syncMessage := None;
                 dataMessage := Some {| flags := 0; body := [] |} |};
     decodeDataMessage := fun _ => Return {| flags := 0; body := [] |};
     exchangeDecode := fun _ => None;
     listenerAccepts := fun _ _ _ => accepts;
     generateKeys := fun _ => Return [x07];
     registerKeys := fun _ _ => None;
     closeSession := fun _ _ _ => None |}.

(** As [failing], but the sender cannot be reached: [closeSession] is
    rejected. *)
Definition unreachable (fault : exn) : Env :=
  {| decryptWhisperMessage := decryptWhisperMessage (failing fault false);
     decryptPreKeyWhisperMessage :=
       decryptPreKeyWhisperMessage (failing fault false);
     decodeContent := decodeContent (failing fault false);
     decodeDataMessage := decodeDataMessage (failing fault false);
     exchangeDecode := fun _ => None;
     listenerAccepts := fun _ _ _ => false;
     generateKeys := fun _ => Return [x07];
     registerKeys := fun _ _ => None;
     closeSession := fun _ _ _ => Some (Error "offline") |}.

Definition untrusted : exn := UntrustedIdentityKeyError "bob" [x09].

(** The first decryption throws the untrusted-identity error; once the
    new identity was accepted, decryption gives a padded data message. *)
Definition trustAfterAccept (accepts : bool) : Env :=
  {| decryptWhisperMessage := fun w _ _ _ =>
       if bool_decide (count (fun a => match a with
                                       | Accept _ => true
                                       | _ => false
                                       end) (log w) = 0%nat)
       then Throw untrusted
       else Return [x68; x69; x80; x00];
     decryptPreKeyWhisperMessage := fun _ _ _ _ => Throw untrusted;
     decodeContent := fun data =>
       Return {| syncMessage := None;
                 dataMessage := Some {| flags := 0; body := data |} |};
     decodeDataMessage := fun data => Return {| flags := 0; body := data |};
     exchangeDecode := fun _ => None;
     listenerAccepts := fun _ _ _ => accepts;
     generateKeys := fun _ => Return [x07];
     registerKeys := fun _ _ => None;
     closeSession := fun _ _ _ => None |}.

End IncomingScenario.

(** * The footprint of the outgoing pipeline *)

Module Footprint.
Import OutgoingMessage.

(** The action names the address [addr]. *)
Definition aboutAddr (addr : string) (a : Action) : Prop :=
  match a with
  | GetKeysForAddr addr' _ => addr' = addr
  | ProcessPreKey addr' _ => addr' = addr
  | RemoveSession encodedAddr => exists id, encodedAddr = encodeAddr addr id
  | CloseOpenSessionForDevice addr' _ => addr' = addr
  | Encrypt addr' _ _ => addr' = addr
  | SendMessages addr' _ _ _ => addr' = addr
  | EmitSent entry => sent_addr entry = addr
  | EmitError entry => error_addr entry = addr
  | EmitKeychange addr' _ => addr' = addr
  end.

(** One elementary change of the world on behalf of [addr]: an action
    about [addr] is logged, an entry for [addr] is journaled, or the
    session of a device of [addr] is stored, deleted or closed. *)
Inductive step (addr : string) : World -> World -> Prop :=
| step_log a w :
    aboutAddr addr a -> step addr w (with_log a w)
| step_sent w :
    step addr w (push_sent {| sent_addr := addr |} w)
| step_error reason e w :
    step addr w
      (push_error {| error_addr := addr; error_reason := reason;
                     error := e |} w)
| step_store d w :
    step addr w (with_sessions (<[(addr, d) := true]>) w)
| step_delete d w :
    step addr w (with_sessions (delete (addr, d)) w)
| step_close d w :
    step addr w (with_sessions (alter (fun _ => false) (addr, d)) w).

(** [m] changes the world by such steps only. *)
Definition within (addr : string) {A} (m : M A) : Prop :=
  forall w, rtc (step addr) w (m w).2.

End Footprint.

(** * More scenarios of the outgoing pipeline *)

Module Scenario2.
Import OutgoingMessage Scenario.

(** The 404 answer of the service. *)
Definition notFound : exn :=
  ProtocolError 404
    {| extraDevices := []; missingDevices := []; staleDevices := [] |}.

(** The service does not know bob at all: 404 for every prekey request. *)
Definition bobLostDevice1 : Env :=
  {| server_getKeysForAddr := fun _ _ _ => Throw notFound;
     server_sendMessages := fun _ _ _ _ => None;
     builder_processPreKey := fun _ _ _ _ => None;
     cipher_encrypt := fun _ _ id _ =>
       Return {| enc_type := 1; enc_registrationId := 100 + id;
                 enc_body := [] |};
     toBase64 := fun _ => "" |}.

End Scenario2.

(** * More scenarios of the incoming pipeline *)

Module IncomingScenario2.
Import MessageReceiver IncomingScenario.

(** The buffer that [doSendMessage] builds for the message "hi". *)
Definition paddedHi : list byte := [x68; x69] ++ x80 :: replicate 156 x00.

(** A sync message that reports two reads. *)
Definition twoReads : SyncMessage :=
  {| sent := None;
     read := [ {| read_timestamp := 11; read_sender := "carol" |};
               {| read_timestamp := 12; read_sender := "dave" |} ];
     contacts := false; groups := false; blocked := false;
     request := false |}.

(** The cipher answers the padded "hi", every payload decodes to
    [content], and the recovery calls succeed. *)
Definition delivering (content : Content) : Env :=
  {| decryptWhisperMessage := fun _ _ _ _ => Return paddedHi;
     decryptPreKeyWhisperMessage := fun _ _ _ _ => Return paddedHi;
     decodeContent := fun _ => Return content;
     decodeDataMessage := fun data => Return {| flags := 0; body := data |};
     exchangeDecode := fun _ => None;
     listenerAccepts := fun _ _ _ => false;
     generateKeys := fun _ => Return [x07];
     registerKeys := fun _ _ => None;
     closeSession := fun _ _ _ => None |}.

End IncomingScenario2.

(** * Requests of the transport and the drain mode (message_receiver.js) *)

Module Transport.
Import MessageReceiver.

(** A request of the server over the stream, as far as [handleRequest]
    reads it. *)
Record Request : Type := {
  path : string;
  verb : string;
  body : list byte
}.

(** An entry of the messages API: the payloads are base64 strings, and an
    absent or empty string is falsy. *)
Record RawEnvelope : Type := {
  raw_type : EnvType;
  raw_source : string;
  raw_sourceDevice : Z;
  raw_timestamp : Z;
  raw_content : option string;
  raw_message : option string
}.

(** The answer of [signal.request({call: 'messages'})]. *)
Record Batch : Type := {
  messages : list RawEnvelope;
  more : bool
}.

(** What happens on the wire: [request.respond(code, reason)], the
    dispatch of an [error] event that carries no envelope, and the calls
    of [drain] to the messages API. *)
Inductive WireAction : Type :=
| Respond (code : Z) (reason : string)
| DispatchError (error : exn)
| FetchMessages
| DeleteMessage (urlParameters : string).

(** The world of the receiver and the log of the wire. *)
Record State : Type := {
  world : World;
  wire : list WireAction
}.

Definition with_wire (a : WireAction) (s : State) : State :=
  {| world := world s; wire := wire s ++ [a] |}.

Record Env : Type := {
  receiverEnv : MessageReceiver.Env;
  (** [crypto.decryptWebsocketMessage], [protobufs.Envelope.decode] and
      [timestamp.toNumber()], in one *)
  decodeBody : list byte -> completion exn Envelope;
  (** [signal.request({call: 'messages'})] *)
  fetchMessages : State -> completion exn Batch;
  (** [signal.request({call: 'messages', httpType: 'DELETE', ...})]: how
      the request, which is started in the state given, will end; [None]
      is success *)
  deleteMessage : State -> string -> option exn;
  (** [Buffer.from(s, 'base64')] *)
  fromBase64 : string -> list byte
}.

Definition T (A : Type) : Type := State -> completion exn A * State.

#[global] Instance T_ret : MRet T := fun A a s => (Return a, s).

#[global] Instance T_bind : MBind T := fun A B f m s =>
  match m s with
  | (Return a, s') => f a s'
  | (Throw e, s') => (Throw e, s')
  end.

Definition throwT {A} (e : exn) : T A := fun s => (Throw e, s).

(** How a run of [drain] ends. The DELETE requests run while the loop
    handles the next envelopes, and nothing takes their promises before
    [Promise.all] after the loop. The promise of the last DELETE of a
    batch is taken in the turn that made it, so its rejection is what
    [drain] throws. What the rejection of an earlier DELETE leads to
    depends on when it arrives: an unhandled rejection while later
    envelopes are handled (on current Node that ends the process), or a
    rejection of [Promise.all]. Such a run is followed up to the rejected
    request and no further: [DeleteRejected]. *)
Inductive Drained : Type :=
| Finished (r : completion exn unit)
| DeleteRejected (e : exn)
| OutOfFuel.

Definition tryT {A} (m : T A) : T (completion exn A) := fun s =>
  match m s with
  | (Return a, s') => (Return (Return a), s')
  | (Throw e, s') => (Return (Throw e), s')
  end.

Definition wireAction (a : WireAction) : T unit :=
  fun s => (Return tt, with_wire a s).

(** A method of the receiver, run on the world of the state. *)
Definition liftR {A} (m : R A) : T A := fun s =>
  (fst (m (world s)), {| world := snd (m (world s)); wire := wire s |}).

Section Methods.

Variable env : Env.
Variable addr : string.
Variable deviceId : Z.
(** Was the receiver built with the websocket ([this.wsr]). *)
Variable hasWebSocket : bool.

Definition respond (code : Z) (reason : string) : T unit :=
  wireAction (Respond code reason).

(** [handleRequest(request)] *)
Definition handleRequest (request : Request) : T unit :=
  if String.eqb (path request) "/api/v1/queue/empty" then
    respond 200 "OK"
  else if negb (String.eqb (path request) "/api/v1/message")
          || negb (String.eqb (verb request) "PUT") then
    respond 400 "Invalid Resource" ;;
    throwT (Error "Invalid WebSocket resource received")
  else
    match decodeBody env (body request) with
    | Throw e =>
        respond 500 "Bad encrypted websocket message" ;;
        wireAction (DispatchError e) ;;
        throwT e
    | Return envelope =>
        (* try { await this.handleEnvelope(envelope) } finally { respond } *)
        r ← tryT (liftR (handleEnvelope (receiverEnv env) addr deviceId
                           envelope false false));
        respond 200 "OK" ;;
        match r with
        | Return _ => mret tt
        | Throw e => throwT e
        end
    end.

(** The payload of an entry: [Buffer.from(s, 'base64')] where the string
    is truthy. *)
Definition payload (s : option string) : option (list byte) :=
  match s with
  | Some s => if String.eqb s "" then None else Some (fromBase64 env s)
  | None => None
  end.

(** The envelope that [drain] hands to [handleEnvelope] for an entry. *)
Definition ofRaw (raw : RawEnvelope) : Envelope :=
  {| type := raw_type raw; source := raw_source raw;
     sourceDevice := raw_sourceDevice raw; timestamp := raw_timestamp raw;
     content := payload (raw_content raw);
     legacyMessage := payload (raw_message raw);
     keyChange := false |}.

(** [`/${envelope.source}/${envelope.timestamp}`] *)
Definition urlParametersOf (raw : RawEnvelope) : string :=
  "/" +:+ raw_source raw +:+ "/" +:+ pretty (raw_timestamp raw).

(** The [for] loop of [drain] over one batch, and the
    [await Promise.all(deleting)] after it. A DELETE is started as soon
    as its envelope is handled. *)
Fixpoint drainBatch (envelopes : list RawEnvelope) (s : State)
  : Drained * State :=
  match envelopes with
  | [] => (Finished (Return tt), s)
  | raw :: envelopes' =>
      let handled :=
        handleEnvelope (receiverEnv env) addr deviceId (ofRaw raw)
          false false (world s) in
      let s1 := {| world := handled.2; wire := wire s |} in
      match handled.1 with
      | Throw e => (Finished (Throw e), s1)
      | Return _ =>
          let s2 := with_wire (DeleteMessage (urlParametersOf raw)) s1 in
          match deleteMessage env s1 (urlParametersOf raw) with
          | None => drainBatch envelopes' s2
          | Some e =>
              match envelopes' with
              | [] => (Finished (Throw e), s2)
              | _ :: _ => (DeleteRejected e, s2)
              end
          end
      end
  end.

(** The [do ... while (more)] loop of [drain]. *)
Fixpoint drainLoop (fuel : nat) (s : State) : Drained * State :=
  match fuel with
  | O => (OutOfFuel, s)
  | S fuel' =>
      let s1 := with_wire FetchMessages s in
      match fetchMessages env s with
      | Throw e => (Finished (Throw e), s1)
      | Return data =>
          match drainBatch (messages data) s1 with
          | (Finished (Return _), s2) =>
              if more data then drainLoop fuel' s2
              else (Finished (Return tt), s2)
          | out => out
          end
      end
  end.

(** [drain()] *)
Definition drain (fuel : nat) (s : State) : Drained * State :=
  if hasWebSocket
  then (Finished (Throw (TypeError "Fetch is invalid when websocket is in use")),
        s)
  else drainLoop fuel s.

(** The number of leading envelopes of a batch on which [handleEnvelope]
    returns, when they are handled one after the other from the world
    [w]. *)
Fixpoint handledPrefix (envelopes : list RawEnvelope) (w : World) : nat :=
  match envelopes with
  | [] => 0%nat
  | raw :: envelopes' =>
      match handleEnvelope (receiverEnv env) addr deviceId (ofRaw raw)
              false false w with
      | (Return _, w') => S (handledPrefix envelopes' w')
      | (Throw _, _) => 0%nat
      end
  end.

End Methods.

(** The responses of a wire log. *)
Definition responsesOf (l : list WireAction) : list (Z * string) :=
  omap (fun a => match a with
                 | Respond code reason => Some (code, reason)
                 | _ => None
                 end) l.

(** The DELETEs of a wire log. *)
Definition deletesOf (l : list WireAction) : list string :=
  omap (fun a => match a with
                 | DeleteMessage url => Some url
                 | _ => None
                 end) l.

End Transport.

(** * Scenarios of the transport *)

Module TransportScenario.
Import MessageReceiver IncomingScenario IncomingScenario2 Transport.

(** A body decodes to bob's envelope unless it is empty; the cipher
    answers the padded "hi" as a data message. *)
Definition wired : Transport.Env :=
  {| receiverEnv :=
       delivering {| syncMessage := None;
                     dataMessage := Some {| flags := 0;
                                            MessageReceiver.body := [x68; x69] |} |};
     decodeBody := fun b =>
       match b with
       | [] => Throw (Error "Invalid MAC")
       | _ => Return fromBob
       end;
     fetchMessages := fun _ => Return {| messages := []; more := false |};
     deleteMessage := fun _ _ => None;
     fromBase64 := fun _ => [x01] |}.

Definition idle : State := {| world := emptyWorld; wire := [] |}.

End TransportScenario.

(** The action is not a [keychange] event. *)
Definition notKeychange (a : OutgoingMessage.Action) : Prop :=
  match a with
  | OutgoingMessage.EmitKeychange _ _ => False
  | _ => True
  end.

(* ================================================================== *)
(** * Properties *)

(** ** Padding *)

Section PaddingFacts.

Lemma getPaddedMessageLength_ceil (n : Z) :
  0 <= n -> getPaddedMessageLength n = ((n + 1 + 159) / 160) * 160.
Proof.
  intros Hn. unfold getPaddedMessageLength. cbv zeta.
  destruct (Z.eqb_spec ((n + 1) mod 160) 0) as [E|E]; cbn [negb].
  - f_equal.
    assert (H := Z.div_mod (n + 1) 160 ltac:(lia)).
    rewrite E in H.
    replace (n + 1 + 159) with (159 + (n + 1) / 160 * 160) by lia.
    rewrite Z.div_add by lia. reflexivity.
  - f_equal.
    assert (H := Z.div_mod (n + 1) 160 ltac:(lia)).
    assert (B := Z.mod_pos_bound (n + 1) 160 ltac:(lia)).
    replace (n + 1 + 159)
      with (((n + 1) mod 160 + 159) + (n + 1) / 160 * 160) by lia.
    rewrite Z.div_add by lia.
    assert (((n + 1) mod 160 + 159) / 160 = 1); [|lia].
    symmetry. apply (Z.div_unique _ 160 1 ((n + 1) mod 160 - 1)); lia.
Qed.

Lemma getPaddedMessageLength_bounds (n : Z) :
  0 <= n ->
  n + 1 <= getPaddedMessageLength n < n + 1 + 160 /\
  getPaddedMessageLength n mod 160 = 0.
Proof.
  intros Hn. unfold getPaddedMessageLength. cbv zeta.
  assert (H := Z.div_mod (n + 1) 160 ltac:(lia)).
  assert (B := Z.mod_pos_bound (n + 1) 160 ltac:(lia)).
  split; [|apply Z.mod_mul; lia].
  destruct (Z.eqb_spec ((n + 1) mod 160) 0) as [E|E]; cbn [negb]; lia.
Qed.

Lemma minLen_gt (mBuf : Buffer.t) : Buffer.byteLength mBuf < minLen mBuf.
Proof.
  unfold minLen.
  assert (0 <= Buffer.byteLength mBuf) by (unfold Buffer.byteLength; lia).
  pose proof (getPaddedMessageLength_bounds (Buffer.byteLength mBuf + 1)).
  lia.
Qed.

Lemma paddedBuf_eq (mBuf : Buffer.t) :
  paddedBuf mBuf =
  Return (mBuf ++ x80 ::
          replicate (Z.to_nat (minLen mBuf) - S (length mBuf)) x00).
Proof.
  pose proof (minLen_gt mBuf) as Hgt.
  unfold paddedBuf.
  unfold Buffer.byteLength in *.
  unfold Buffer.set, Buffer.alloc. rewrite length_replicate.
  destruct (Nat.leb_spec (length mBuf) (Z.to_nat (minLen mBuf))); [|lia].
  f_equal. unfold Buffer.store.
  destruct (Z.leb_spec 0 (Z.of_nat (length mBuf))); [|lia].
  rewrite Nat2Z.id, drop_replicate.
  replace (Z.to_nat (minLen mBuf) - length mBuf)%nat
    with (S (Z.to_nat (minLen mBuf) - S (length mBuf)))%nat by lia.
  cbn [replicate].
  rewrite <- (Nat.add_0_r (length mBuf)) at 1.
  by rewrite insert_app_r.
Qed.

(** C3, as the specification states it, fails already on the two-byte
    message of its first scenario: the padded buffer has 159 bytes, not
    160, and 159 is no multiple of 160. *)
Lemma paddedBuf_length_counterexample :
  exists buf,
    paddedBuf [x68; x69] = Return buf /\
    Buffer.byteLength buf = 159 /\
    Buffer.byteLength buf <> spec_paddedLen (Buffer.byteLength [x68; x69]) /\
    Buffer.byteLength buf mod 160 <> 0.
Proof.
  eexists. split; [vm_compute; reflexivity|]. by vm_compute.
Qed.

(** C3 (amended): the buffer handed to per-device encryption has length
    [ceil((len+2)/160)*160 - 1], one less than a multiple of 160 and
    strictly greater than [len]; it holds the message at offsets
    [0..len-1], the terminator 0x80 at offset [len] and zero at every
    later offset. *)
Theorem paddedBuf_layout (mBuf : Buffer.t) :
  exists buf,
    paddedBuf mBuf = Return buf /\
    Buffer.byteLength buf
      = (Buffer.byteLength mBuf + 2 + 159) / 160 * 160 - 1 /\
    Buffer.byteLength buf mod 160 = 159 /\
    Buffer.byteLength mBuf < Buffer.byteLength buf /\
    take (length mBuf) buf = mBuf /\
    buf !! length mBuf = Some x80 /\
    forall i, (length mBuf < i < length buf)%nat -> buf !! i = Some x00.
Proof.
  pose proof (minLen_gt mBuf) as Hgt.
  assert (Hlen : 0 <= Buffer.byteLength mBuf)
    by (unfold Buffer.byteLength; lia).
  eexists. split; [apply paddedBuf_eq|].
  set (k := (Z.to_nat (minLen mBuf) - S (length mBuf))%nat).
  assert (HL : Buffer.byteLength (mBuf ++ x80 :: replicate k x00)
               = minLen mBuf).
  { unfold Buffer.byteLength in *.
    rewrite length_app. cbn [length]. rewrite length_replicate.
    subst k. lia. }
  rewrite HL.
  repeat split.
  - unfold minLen. rewrite getPaddedMessageLength_ceil by lia.
    f_equal. f_equal. f_equal. lia.
  - unfold minLen.
    destruct (getPaddedMessageLength_bounds (Buffer.byteLength mBuf + 1))
      as [_ Hm]; [lia|].
    apply Z.mod_divide in Hm; [|lia]. destruct Hm as [q Hq].
    rewrite Hq. replace (q * 160 - 1) with (159 + (q - 1) * 160) by lia.
    by rewrite Z.mod_add.
  - exact Hgt.
  - by rewrite take_app_length.
  - by rewrite list_lookup_middle.
  - intros i [Hi1 Hi2].
    rewrite length_app in Hi2. cbn [length] in Hi2.
    rewrite length_replicate in Hi2.
    rewrite lookup_app_r by lia.
    destruct (i - length mBuf)%nat as [|j] eqn:Ej; [lia|].
    cbn. apply lookup_replicate_2. lia.
Qed.

End PaddingFacts.

(** ** Unpadding *)

Section UnpadFacts.

Lemma unpad_loop_skip_zeros (pre : Buffer.t) (n k : nat) :
  (k <= n)%nat ->
  unpad_loop (pre ++ replicate n x00) (length pre + k)
  = unpad_loop (pre ++ replicate n x00) (length pre).
Proof.
  induction k as [|k IH]; intros Hk.
  - by rewrite Nat.add_0_r.
  - rewrite Nat.add_succ_r. cbn [unpad_loop].
    rewrite lookup_app_r by lia.
    replace (length pre + k - length pre)%nat with k by lia.
    rewrite lookup_replicate_2 by lia. cbn.
    apply IH. lia.
Qed.

(** What the backward scan answers, by the last non-zero byte. *)
Lemma unpad_last_nonzero (pre : Buffer.t) (b : byte) (n : nat) :
  b <> x00 ->
  unpad (pre ++ b :: replicate n x00)
  = if (b =? x80)%byte then Return pre else Throw InvalidPadding.
Proof.
  intros Hb. unfold unpad.
  replace (pre ++ b :: replicate n x00)
    with ((pre ++ [b]) ++ replicate n x00) by by rewrite <- app_assoc.
  rewrite length_app, length_replicate.
  rewrite unpad_loop_skip_zeros by lia.
  rewrite length_app. cbn [length]. rewrite Nat.add_1_r.
  cbn [unpad_loop].
  rewrite <- app_assoc. cbn [app].
  rewrite list_lookup_middle by done.
  destruct (b =? x80)%byte eqn:E80.
  - unfold Buffer.slice0. by rewrite take_app_length.
  - destruct (b =? x00)%byte eqn:E00; [|done].
    apply byte_dec_bl in E00. contradiction.
Qed.

Lemma unpad_zeros (n : nat) : unpad (replicate n x00) = Throw InvalidBuffer.
Proof.
  unfold unpad. rewrite length_replicate.
  apply (unpad_loop_skip_zeros [] n n). lia.
Qed.

Lemma unpad_loop_no_terminator (buf : Buffer.t) (n : nat) :
  x80 ∉ buf -> (n <= length buf)%nat ->
  unpad_loop buf n
  = Throw (if all_zero (take n buf) then InvalidBuffer else InvalidPadding).
Proof.
  intros Hno. induction n as [|i IH]; intros Hn.
  - by rewrite take_0.
  - cbn [unpad_loop].
    destruct (lookup_lt_is_Some_2 buf i ltac:(lia)) as [b Hb].
    rewrite Hb. rewrite (take_S_r _ _ _ Hb).
    unfold all_zero. rewrite forallb_app. cbn [forallb].
    destruct (b =? x80)%byte eqn:E80.
    { apply byte_dec_bl in E80. subst b.
      exfalso. apply Hno. by apply list_elem_of_lookup_2 in Hb. }
    destruct (b =? x00)%byte eqn:E00; cbn [negb].
    + rewrite IH by lia. unfold all_zero.
      by rewrite !andb_true_r.
    + by rewrite andb_false_r.
Qed.

(** C4: unpadding inverts the padding of [doSendMessage]. *)
Theorem unpad_paddedBuf (msg : Buffer.t) :
  exists buf, paddedBuf msg = Return buf /\ unpad buf = Return msg.
Proof.
  eexists. split; [apply paddedBuf_eq|].
  by rewrite unpad_last_nonzero.
Qed.

(** C9: a buffer without any 0x80 byte makes [unpad] throw and never
    return: "Invalid buffer" when every byte is zero (so also for the
    empty buffer), and the distinct "Invalid padding" as soon as the scan
    back meets a byte that is neither zero nor 0x80. *)
Theorem unpad_no_terminator (buf : Buffer.t) (Hno : x80 ∉ buf) :
  unpad buf
  = Throw (if all_zero buf then InvalidBuffer else InvalidPadding) /\
  (forall v, unpad buf <> Return v) /\
  InvalidPadding <> InvalidBuffer /\
  (forall (pre : Buffer.t) (b : byte) (n : nat),
      b <> x00 -> b <> x80 ->
      unpad (pre ++ b :: replicate n x00) = Throw InvalidPadding).
Proof.
  assert (E : unpad buf
    = Throw (if all_zero buf then InvalidBuffer else InvalidPadding)).
  { unfold unpad. rewrite unpad_loop_no_terminator by done.
    by rewrite firstn_all. }
  split; [exact E|]. split; [by rewrite E|]. split; [done|].
  intros pre b n H0 H80. rewrite unpad_last_nonzero by done.
  destruct (b =? x80)%byte eqn:Eb; [|done].
  apply byte_dec_bl in Eb. contradiction.
Qed.

Lemma unpad_no_terminator_witness :
  (x80 ∉ [x00; x07; x00]) /\
  unpad [x00; x07; x00] = Throw InvalidPadding /\
  unpad [] = Throw InvalidBuffer /\
  unpad [x00; x00] = Throw InvalidBuffer.
Proof.
  split; [by_compute|].
  split; [exact (proj1 (unpad_no_terminator [x00; x07; x00] ltac:(by_compute)))|].
  split.
  - exact (proj1 (unpad_no_terminator [] ltac:(by_compute))).
  - exact (proj1 (unpad_no_terminator [x00; x00] ltac:(by_compute))).
Defined.

End UnpadFacts.

(** ** The outgoing pipeline *)

Module OutgoingFacts.
Import OutgoingMessage.

Lemma bind_unfold {A B} (m : M A) (f : A -> M B) (w : World) :
  (m ≫= f) w =
  match m w with
  | (Ok a, w') => f a w'
  | (Exn e, w') => (Exn e, w')
  | (OutOfFuel, w') => (OutOfFuel, w')
  end.
Proof. reflexivity. Qed.

Lemma count_app (p : Action -> bool) (l1 l2 : list Action) :
  count p (l1 ++ l2) = (count p l1 + count p l2)%nat.
Proof. unfold count. by rewrite List.filter_app, length_app. Qed.

Lemma count_snoc (p : Action -> bool) (l : list Action) (a : Action) :
  count p (l ++ [a]) = (count p l + if p a then 1 else 0)%nat.
Proof. rewrite count_app. unfold count at 2. cbn. by destruct (p a). Qed.

(** *** What a computation appends to the log *)

Section Logs.

Variable P : Action -> Prop.

Lemma logs_nil {A} (m : M A) :
  (forall w, log (m w).2 = log w) -> logs P m.
Proof. intros H w. exists []. by rewrite H, app_nil_r. Qed.

Lemma logs_ret {A} (a : A) : logs P (mret a).
Proof. by apply logs_nil. Qed.

Lemma logs_throw {A} (e : exn) : logs P (@throw A e).
Proof. by apply logs_nil. Qed.

Lemma logs_gets {A} (f : World -> A) : logs P (gets f).
Proof. by apply logs_nil. Qed.

Lemma logs_modify (f : World -> World) :
  (forall w, log (f w) = log w) -> logs P (modify f).
Proof. intros Hf. apply logs_nil. intros w. apply Hf. Qed.

Lemma logs_logAction (a : Action) : P a -> logs P (logAction a).
Proof. intros Ha w. exists [a]. split; [done | by constructor]. Qed.

Lemma logs_bind {A B} (m : M A) (f : A -> M B) :
  logs P m -> (forall a, logs P (f a)) -> logs P (m ≫= f).
Proof.
  intros Hm Hf w. rewrite bind_unfold.
  destruct (Hm w) as (l1 & E1 & F1).
  destruct (m w) as [[a|e|] w1]; cbn [snd] in *; eauto.
  destruct (Hf a w1) as (l2 & E2 & F2).
  exists (l1 ++ l2). rewrite E2, E1, app_assoc.
  split; [done | by apply Forall_app].
Qed.

Lemma logs_try {A} (m : M A) : logs P m -> logs P (try_ m).
Proof.
  intros Hm w. unfold try_. specialize (Hm w).
  by destruct (m w) as [[a|e|] w1].
Qed.

Lemma logs_forEach {A} (l : list A) (body : A -> M unit) :
  (forall x, x ∈ l -> logs P (body x)) -> logs P (forEach l body).
Proof.
  induction l as [|x l IH]; intros Hb; cbn [forEach].
  - apply logs_ret.
  - apply logs_bind; [apply Hb; left|].
    intros _. apply IH. intros y Hy. apply Hb. by right.
Qed.

Lemma logs_promiseAll {A} (jobs : list (M A)) :
  Forall (logs P) jobs -> logs P (promiseAll jobs).
Proof.
  induction 1 as [|job jobs Hj _ IH]; cbn [promiseAll].
  - apply logs_ret.
  - intros w. destruct (Hj w) as (l1 & E1 & F1).
    destruct (job w) as [[a|e|] w1]; cbn [snd] in *; eauto.
    + destruct (logs_bind _ (fun l => mret (a :: l)) IH
                  (fun l => logs_ret _) w1) as (l2 & E2 & F2).
      exists (l1 ++ l2). rewrite E2, E1, app_assoc.
      split; [done | by apply Forall_app].
    + destruct (IH w1) as (l2 & E2 & F2).
      exists (l1 ++ l2). split; [|by apply Forall_app].
      rewrite app_assoc, <- E1, <- E2.
      by destruct (promiseAll jobs w1) as [[l|e'|] w2].
Qed.

End Logs.

Lemma logs_impl (P Q : Action -> Prop) {A} (m : M A) :
  (forall a, P a -> Q a) -> logs P m -> logs Q m.
Proof.
  intros HPQ Hm w. destruct (Hm w) as (l & E & F).
  exists l. split; [done|]. by apply (Forall_impl _ _ _ F).
Qed.

(** *** What the methods of the pipeline log *)

Section LogsPipeline.

Variable P : Action -> Prop.
(** [P] holds of every action that is neither a transmit nor a prekey
    request. *)
Hypothesis P_plain :
  forall a, isSend a = false -> isKeyFetch a = false -> P a.
Variable env : Env.
Variable timestamp : Z.
Variable messageBuffer : list byte.

Lemma P_with_log (a : Action) (w : World) :
  P a -> exists l, log (with_log a w) = log w ++ l /\ Forall P l.
Proof. intros Ha. exists [a]. split; [done | by constructor]. Qed.

Ltac logs_tac :=
  repeat first
    [ apply logs_ret | apply logs_throw | apply logs_gets
    | apply logs_try
    | apply logs_bind
    | apply logs_logAction; apply P_plain; reflexivity
    | apply logs_modify; reflexivity
    | intro ].

Lemma logs_removeSession addr id : logs P (removeSession addr id).
Proof. unfold removeSession. logs_tac. Qed.

Lemma logs_removeDeviceIdsForAddr addr l :
  logs P (removeDeviceIdsForAddr addr l).
Proof.
  unfold removeDeviceIdsForAddr. apply logs_forEach.
  intros id _. apply logs_removeSession.
Qed.

Lemma logs_closeOpenSessionForDevice c :
  logs P (closeOpenSessionForDevice c).
Proof. unfold closeOpenSessionForDevice. logs_tac. Qed.

Lemma logs_closeStale ciphers stale : logs P (closeStale ciphers stale).
Proof.
  unfold closeStale. apply logs_forEach. intros x _.
  destruct (ciphers !! x);
    [apply logs_closeOpenSessionForDevice | apply logs_throw].
Qed.

Lemma logs_emitError addr reason e : logs P (emitError addr reason e).
Proof. unfold emitError. logs_tac. Qed.

Lemma logs_emitSent addr : logs P (emitSent addr).
Proof. unfold emitSent. logs_tac. Qed.

Lemma logs_processPreKey addr key device :
  logs P (processPreKey env addr key device).
Proof.
  intros w. unfold processPreKey.
  destruct (builder_processPreKey env w addr key device);
    cbn [snd]; [|change (log (with_sessions ?f ?x)) with (log x)];
    by apply P_with_log, P_plain.
Qed.

Lemma logs_server_getKeys addr device :
  P (GetKeysForAddr addr device) ->
  logs P (server_getKeys env addr device).
Proof.
  intros HP w. unfold server_getKeys.
  destruct (server_getKeysForAddr env w addr device);
    cbn [snd]; by apply P_with_log.
Qed.

Lemma logs_encrypt c buf : logs P (encrypt env c buf).
Proof.
  intros w. unfold encrypt.
  destruct (cipher_encrypt env w _ _ buf);
    cbn [snd]; by apply P_with_log, P_plain.
Qed.

Lemma logs_encryptAll addr deviceIds buf :
  logs P (encryptAll env addr deviceIds buf).
Proof.
  unfold encryptAll. apply logs_promiseAll.
  apply Forall_fmap, Forall_forall. intros id _. cbn.
  unfold encryptToDevice. apply logs_bind; [apply logs_encrypt|].
  intros ?. apply logs_ret.
Qed.

Lemma logs_handleDevice again addr updateDevices reentrant response device :
  logs P again ->
  logs P (handleDevice env again addr updateDevices reentrant response device).
Proof.
  intros Hagain. unfold handleDevice.
  destruct (match updateDevices with
            | None => true | Some l => bool_decide (deviceId device ∈ l)
            end); [|apply logs_ret].
  apply logs_bind; [apply logs_try, logs_processPreKey|].
  intros [?|e]; [apply logs_ret|].
  destruct (String.eqb _ _); [|apply logs_throw].
  destruct reentrant; cbn [negb]; [apply logs_throw|].
  apply logs_bind; [|by intros _].
  by apply logs_logAction, P_plain.
Qed.

Lemma logs_handleResult again addr updateDevices reentrant response :
  logs P again ->
  logs P (handleResult env again addr updateDevices reentrant response).
Proof.
  intros Hagain. unfold handleResult.
  apply logs_bind; [|intros ?; apply logs_ret].
  apply logs_promiseAll, Forall_fmap, Forall_forall.
  intros d _. by apply logs_handleDevice.
Qed.

Lemma logs_getKeysForAddr_loop handle addr l :
  (forall r, logs P (handle r)) ->
  (forall d, d ∈ l -> P (GetKeysForAddr addr (Some d))) ->
  logs P (getKeysForAddr_loop env handle addr l).
Proof.
  intros Hh HP. unfold getKeysForAddr_loop. apply logs_forEach.
  intros device Hd. unfold getKeysForDevice. apply logs_bind.
  - apply logs_try, logs_bind; [|apply Hh].
    by apply logs_server_getKeys, HP.
  - intros [?|e]; [apply logs_ret|].
    destruct (_ && _);
      [apply logs_removeDeviceIdsForAddr | apply logs_throw].
Qed.

Lemma logs_getKeysForAddr_body handle addr updateDevices :
  (forall r, logs P (handle r)) ->
  fetchesAllowed P addr updateDevices ->
  logs P (getKeysForAddr_body env handle addr updateDevices).
Proof.
  intros Hh HP. destruct updateDevices as [l|]; cbn [getKeysForAddr_body].
  - by apply logs_getKeysForAddr_loop.
  - apply logs_bind; [by apply logs_server_getKeys | apply Hh].
Qed.

Lemma logs_handlerOf addr updateDevices reentrant r :
  fetchesAllowed P addr updateDevices ->
  logs P (handlerOf env addr updateDevices reentrant r).
Proof.
  intros HP. unfold handlerOf. destruct reentrant.
  - apply logs_handleResult, logs_ret.
  - apply logs_handleResult, logs_getKeysForAddr_body; [|done].
    intros r'. apply logs_handleResult, logs_ret.
Qed.

Lemma logs_getKeysForAddr addr updateDevices reentrant :
  fetchesAllowed P addr updateDevices ->
  logs P (getKeysForAddr env addr updateDevices reentrant).
Proof.
  intros HP. unfold getKeysForAddr.
  apply logs_getKeysForAddr_body; [|done].
  intros r. by apply logs_handlerOf.
Qed.

Lemma logs_collectStale addr ids acc : logs P (collectStale addr ids acc).
Proof.
  revert acc. induction ids as [|id ids IH]; intros acc;
    cbn [collectStale]; [apply logs_ret|].
  apply logs_bind; [apply logs_gets|].
  intros o. destruct (negb o); apply IH.
Qed.

Lemma logs_getStaleDeviceIdsForAddr addr :
  logs P (getStaleDeviceIdsForAddr addr).
Proof.
  unfold getStaleDeviceIdsForAddr.
  apply logs_bind; [apply logs_gets|]. intros ids.
  apply logs_bind; [|intros ?; apply logs_collectStale].
  destruct (bool_decide _); [|apply logs_ret].
  apply logs_bind; [apply logs_gets|]. intros our.
  destruct (negb _); apply logs_ret.
Qed.

End LogsPipeline.

(** *** Transmit attempts *)

Lemma isSend409_isSend (a : Action) : isSend409 a = true -> isSend a = true.
Proof. by destruct a. Qed.

Lemma count_none (p : Action -> bool) (l : list Action) :
  Forall (fun a => p a = false) l -> count p l = 0%nat.
Proof.
  unfold count. induction 1 as [|a l Ha _ IH]; [done|].
  cbn. by rewrite Ha.
Qed.

Lemma quiet_of_logs {A} (m : M A) :
  logs (fun a => isSend a = false) m -> quiet m.
Proof.
  intros H w. destruct (H w) as (l & E & F).
  unfold sends, sends409. rewrite E, !count_app.
  rewrite (count_none isSend l F), (count_none isSend409 l); [lia|].
  apply (Forall_impl _ _ _ F). intros a Ha.
  destruct (isSend409 a) eqn:E9; [|done].
  apply isSend409_isSend in E9. congruence.
Qed.

Lemma bound_of_quiet (recurse : bool) (m : M unit) :
  quiet m -> attempt_bound recurse m.
Proof. intros H w. destruct (H w) as [-> ->]. destruct recurse; lia. Qed.

Lemma bound_quiet_bind {A} (recurse : bool) (m : M A) (f : A -> M unit) :
  quiet m -> (forall a, attempt_bound recurse (f a)) ->
  attempt_bound recurse (m ≫= f).
Proof.
  intros Hm Hf w. rewrite bind_unfold.
  destruct (Hm w) as [E1 E2].
  destruct (m w) as [[a|e|] w1]; cbn [snd] in *;
    [|destruct recurse; lia ..].
  destruct (Hf a w1) as (H1 & H2 & H3). rewrite <- E1, <- E2.
  repeat split; [lia ..|]. intros ->. by apply H3.
Qed.

Lemma bound_bind_quiet {A} (recurse : bool) (m : M A) (f : A -> M unit) :
  (forall w,
      (sends409 w <= sends409 (m w).2)%nat /\
      (sends (m w).2 + sends409 w
       <= sends w + sends409 (m w).2 + (if recurse then 2 else 1))%nat /\
      (recurse = false -> sends (m w).2 <= sends w + 1)%nat) ->
  (forall a, quiet (f a)) ->
  attempt_bound recurse (m ≫= f).
Proof.
  intros Hm Hf w. rewrite bind_unfold.
  specialize (Hm w).
  destruct (m w) as [[a|e|] w1]; cbn [snd] in *; try done.
  by destruct (Hf a w1) as [-> ->].
Qed.

Section Attempts.

Variable env : Env.
Variable timestamp : Z.
Variable messageBuffer : list byte.

Ltac quiet_by lem := apply quiet_of_logs, lem; by intros [].

Lemma quiet_emitError addr reason e : quiet (emitError addr reason e).
Proof. quiet_by logs_emitError. Qed.

Lemma quiet_emitSent addr : quiet (emitSent addr).
Proof. quiet_by logs_emitSent. Qed.

Lemma quiet_getKeysForAddr addr updateDevices reentrant :
  quiet (getKeysForAddr env addr updateDevices reentrant).
Proof.
  apply quiet_of_logs, logs_getKeysForAddr; [by intros []|].
  by destruct updateDevices.
Qed.

Lemma quiet_getStaleDeviceIdsForAddr addr :
  quiet (getStaleDeviceIdsForAddr addr).
Proof. quiet_by logs_getStaleDeviceIdsForAddr. Qed.

Lemma quiet_try {A} (m : M A) : quiet m -> quiet (try_ m).
Proof.
  intros H w. specialize (H w). unfold try_.
  by destruct (m w) as [[a|e|] w1].
Qed.

Lemma quiet_bind {A B} (m : M A) (f : A -> M B) :
  quiet m -> (forall a, quiet (f a)) -> quiet (m ≫= f).
Proof.
  intros Hm Hf w. rewrite bind_unfold. specialize (Hm w).
  destruct (m w) as [[a|e|] w1]; cbn [snd] in *; try done.
  destruct (Hf a w1) as [-> ->]. done.
Qed.

Lemma quiet_ret {A} (a : A) : quiet (mret a : M A).
Proof. by intros w. Qed.

(** One call of [transmitMessage] is one transmit attempt, and it
    counts as a 409 exactly when the 409 bubbles out of it. *)
Lemma transmitMessage_effect addr jsonData ts w :
  sends (transmitMessage env addr jsonData ts w).2 = S (sends w) /\
  sends409 (transmitMessage env addr jsonData ts w).2
  = (sends409 w +
     match (transmitMessage env addr jsonData ts w).1 with
     | Exn e => if isProtocolError 409 e then 1 else 0
     | _ => 0
     end)%nat.
Proof.
  unfold transmitMessage. rewrite bind_unfold.
  unfold try_, server_send. cbv zeta.
  set (res := server_sendMessages env w addr jsonData ts).
  assert (Hlog :
    let w' := with_log (SendMessages addr jsonData ts res) w in
    sends w' = S (sends w) /\
    sends409 w'
    = (sends409 w + match res with
                    | Some e => if isProtocolError 409 e then 1 else 0
                    | None => 0
                    end)%nat).
  { unfold sends, sends409. cbn [log with_log]. rewrite !count_snoc.
    cbn [isSend isSend409].
    destruct res as [e|]; [destruct (isProtocolError 409 e)|]; lia. }
  cbv zeta in Hlog. destruct Hlog as [H1 H2].
  destruct res as [e|]; [|done].
  destruct e as [m|code resp| | | |]; try done.
  cbn [isProtocolError] in H2.
  destruct (Z.eqb_spec code 409) as [->|H409]; [done|].
  destruct (Z.eqb_spec code 410) as [->|H410]; [done|].
  cbn [negb andb].
  destruct (code =? 404); cbn [fst snd isProtocolError];
    split; try done; rewrite H2; lia.
Qed.

Lemma reload_bound doSend addr recurse :
  (forall ids, attempt_bound recurse (doSend addr ids recurse)) ->
  attempt_bound recurse (reloadDevicesAndSend_with doSend addr recurse).
Proof.
  intros H. unfold reloadDevicesAndSend_with.
  apply bound_quiet_bind; [by intros w|]. intros ids.
  apply bound_quiet_bind.
  - destruct (bool_decide _); [|apply quiet_ret].
    apply quiet_bind; [by intros w|]. intros our.
    destruct (String.eqb _ _); [|apply quiet_ret].
    apply quiet_bind; [apply quiet_emitSent | intros; apply quiet_ret].
  - intros [|]; [apply H | apply bound_of_quiet, quiet_ret].
Qed.

Lemma reconcile_bound reload ciphers addr code response recurseAgain :
  attempt_bound recurseAgain (reload addr recurseAgain) ->
  attempt_bound recurseAgain
    (reconcile env reload ciphers addr code response recurseAgain).
Proof.
  intros H. unfold reconcile.
  apply bound_quiet_bind.
  { destruct (code =? 409).
    - quiet_by logs_removeDeviceIdsForAddr.
    - quiet_by logs_closeStale. }
  intros _. apply bound_quiet_bind; [apply quiet_getKeysForAddr|].
  intros _. apply bound_bind_quiet.
  - intros w. specialize (H w). unfold try_.
    by destruct (reload addr recurseAgain w) as [[a|e|] w1].
  - intros [?|e]; [apply quiet_emitSent | apply quiet_emitError].
Qed.

Lemma doSendMessage_with_bound reload addr deviceIds recurse :
  (forall r, attempt_bound r (reload addr r)) ->
  attempt_bound recurse
    (doSendMessage_with env timestamp messageBuffer reload
       addr deviceIds recurse).
Proof.
  intros Hreload. unfold doSendMessage_with. rewrite paddedBuf_eq.
  apply bound_quiet_bind.
  { apply quiet_try. quiet_by logs_encryptAll. }
  intros [messages|e]; [|apply bound_of_quiet, quiet_emitError].
  intros w. rewrite bind_unfold. unfold try_.
  destruct (transmitMessage_effect addr messages timestamp w) as [T1 T2].
  destruct (transmitMessage env addr messages timestamp w)
    as [[[]|e|] w1]; cbn [fst snd] in *.
  - destruct (quiet_emitSent addr w1) as [-> ->].
    destruct recurse; repeat split; lia.
  - assert (Hterm : forall reason,
               let w2 := (emitError addr reason e w1).2 in
               (sends409 w <= sends409 w2)%nat /\
               (sends w2 + sends409 w
                <= sends w + sends409 w2 + (if recurse then 2 else 1))%nat /\
               (recurse = false -> sends w2 <= sends w + 1)%nat).
    { intros reason w2. subst w2.
      destruct (quiet_emitError addr reason e w1) as [-> ->].
      destruct recurse; repeat split; lia. }
    destruct e as [m|code resp| | | |]; try (by apply Hterm).
    destruct ((code =? 410) || (code =? 409)) eqn:Edrift;
      [|by apply Hterm].
    destruct recurse; cbn [negb]; [|by apply Hterm].
    cbn [isProtocolError] in T2.
    destruct (reconcile_bound reload (ciphersFor addr deviceIds) addr
                code resp (code =? 409) (Hreload _) w1) as (R1 & R2 & R3).
    destruct (code =? 409) eqn:E409.
    + repeat split; [lia | lia | done].
    + specialize (R3 eq_refl). repeat split; [lia | lia | done].
  - destruct recurse; repeat split; lia.
Qed.

Lemma doSendMessage_bound fuel addr deviceIds recurse :
  attempt_bound recurse
    (doSendMessage env timestamp messageBuffer fuel addr deviceIds recurse).
Proof.
  revert deviceIds recurse.
  induction fuel as [|fuel IH]; intros deviceIds recurse; cbn [doSendMessage].
  - intros w. cbn. destruct recurse; repeat split; lia.
  - apply doSendMessage_with_bound. intros r.
    apply reload_bound. intros ids. apply IH.
Qed.

End Attempts.

End OutgoingFacts.

(** *** The claims on transmit attempts and journals *)

Section OutgoingClaims.
Import OutgoingMessage OutgoingFacts Scenario.

Lemma noThrow_ret {A} (a : A) : noThrow (mret a : M A).
Proof. by intros w e. Qed.

Lemma noThrow_try {A} (m : M A) : noThrow (try_ m).
Proof. intros w e. unfold try_. by destruct (m w) as [[a|e'|] w1]. Qed.

Lemma noThrow_bind {A B} (m : M A) (f : A -> M B) :
  noThrow m -> (forall a, noThrow (f a)) -> noThrow (m ≫= f).
Proof.
  intros Hm Hf w e. rewrite bind_unfold. specialize (Hm w).
  destruct (m w) as [[a|e'|] w1]; cbn [fst] in *; [apply Hf| |done].
  by destruct (Hm e').
Qed.

Lemma noThrow_emitError addr reason e : noThrow (emitError addr reason e).
Proof. by intros w e'. Qed.

(** No exception escapes [sendToAddr]: each of its three steps is
    wrapped, and journaling does not throw. *)
Lemma sendToAddr_never_throws env timestamp messageBuffer fuel addr w e :
  (sendToAddr env timestamp messageBuffer fuel addr w).1 <> Exn e.
Proof.
  revert w e. change (noThrow (sendToAddr env timestamp messageBuffer fuel addr)).
  unfold sendToAddr.
  repeat first
    [ apply noThrow_ret | apply noThrow_try | apply noThrow_emitError
    | apply noThrow_bind
    | match goal with
      | |- forall _, _ => intro
      | |- noThrow (match ?x with _ => _ end) => destruct x
      end ].
Qed.

(** C1 fails on the code at the specification's own 410 scenario: alice
    has device 1 with an open session, the first transmit is answered
    410 for device 1 and the second 200. [sendToAddr] returns and the
    [sent] journal holds two entries for alice: the retry journals its
    outcome and the outer [doSendMessage] journals [sent] after it. *)
Theorem sendToAddr_stale_retry_journals_twice :
  (sendToAddr staleOnce 1000 hi 3 "alice" alice1).1 = Ok tt /\
  sent (sendToAddr staleOnce 1000 hi 3 "alice" alice1).2
  = [ {| sent_addr := "alice" |}; {| sent_addr := "alice" |} ] /\
  errors (sendToAddr staleOnce 1000 hi 3 "alice" alice1).2 = [] /\
  entriesFor "alice" (sendToAddr staleOnce 1000 hi 3 "alice" alice1).2
  = 2%nat.
Proof. by vm_compute. Qed.

(** C2, as stated, fails: when devices 2 and 3 of alice appear one after
    the other, the retry after the first 409 is answered 409 again and
    leads to a third transmit, which succeeds. *)
Lemma sendToAddr_three_transmits :
  (sendToAddr growing 1000 hi 5 "alice" alice1).1 = Ok tt /\
  sends (sendToAddr growing 1000 hi 5 "alice" alice1).2 = 3%nat /\
  sends409 (sendToAddr growing 1000 hi 5 "alice" alice1).2 = 2%nat.
Proof. by vm_compute. Qed.

(** Without [recurse], a 409 or 410 answer is journaled as the retry-limit
    error and nothing more is done. *)
Lemma doSendMessage_retry_limit env timestamp messageBuffer fuel addr
    (deviceIds : list Z) padded messages code resp w w1 :
  paddedBuf messageBuffer = Return padded ->
  encryptAll env addr deviceIds padded w = (Ok messages, w1) ->
  server_sendMessages env w1 addr messages timestamp
  = Some (ProtocolError code resp) ->
  code = 409 \/ code = 410 ->
  doSendMessage env timestamp messageBuffer (S fuel) addr deviceIds false w
  = emitError addr "Hit retry limit attempting to reload device list"
      (ProtocolError code resp)
      (with_log (SendMessages addr messages timestamp
                   (Some (ProtocolError code resp))) w1).
Proof.
  intros Hpad Henc Hsend Hcode.
  cbn [doSendMessage]. unfold doSendMessage_with. rewrite Hpad.
  rewrite bind_unfold. unfold try_ at 1. rewrite Henc.
  rewrite bind_unfold. unfold try_ at 1, transmitMessage.
  rewrite bind_unfold. unfold try_ at 1, server_send. cbv zeta.
  rewrite Hsend.
  by destruct Hcode as [-> | ->].
Qed.

(** C2 (amended): a send made with [recurse=false], which is what the
    retry after a 410 is, performs at most one transmit, and a 409 or 410
    answer to it is journaled as the retry-limit error; the retry after a
    409 is made with [recurse=true], so for every call of [sendToAddr] the
    number of transmit attempts is at most the number of 409 answers plus
    two. *)
Theorem sendToAddr_transmit_bound env timestamp messageBuffer fuel addr w :
  (forall deviceIds w0,
      sends (doSendMessage env timestamp messageBuffer fuel addr
               deviceIds false w0).2 <= sends w0 + 1)%nat /\
  (forall deviceIds padded messages code resp w0 w1,
      paddedBuf messageBuffer = Return padded ->
      encryptAll env addr deviceIds padded w0 = (Ok messages, w1) ->
      server_sendMessages env w1 addr messages timestamp
      = Some (ProtocolError code resp) ->
      code = 409 \/ code = 410 ->
      doSendMessage env timestamp messageBuffer (S fuel) addr deviceIds
        false w0
      = emitError addr "Hit retry limit attempting to reload device list"
          (ProtocolError code resp)
          (with_log (SendMessages addr messages timestamp
                       (Some (ProtocolError code resp))) w1)) /\
  (sends409 w
   <= sends409 (sendToAddr env timestamp messageBuffer fuel addr w).2)%nat /\
  (sends (sendToAddr env timestamp messageBuffer fuel addr w).2
   <= sends w
      + (sends409 (sendToAddr env timestamp messageBuffer fuel addr w).2
         - sends409 w)
      + 2)%nat.
Proof.
  split.
  { intros deviceIds w0.
    by apply (doSendMessage_bound env timestamp messageBuffer fuel addr
                deviceIds false w0). }
  split; [intros *; apply doSendMessage_retry_limit|].
  assert (B : attempt_bound true
                (sendToAddr env timestamp messageBuffer fuel addr)).
  { unfold sendToAddr.
    apply bound_quiet_bind;
      [apply quiet_try, quiet_getStaleDeviceIdsForAddr|].
    intros r. apply bound_quiet_bind.
    { destruct r as [l|e]; [apply quiet_ret|].
      apply quiet_bind; [apply quiet_emitError | intros; apply quiet_ret]. }
    intros updateDevices.
    apply bound_quiet_bind; [apply quiet_try, quiet_getKeysForAddr|].
    intros r2. apply bound_quiet_bind.
    { destruct r2; [apply quiet_ret | apply quiet_emitError]. }
    intros _. apply bound_bind_quiet.
    - intros w0.
      pose proof (reload_bound (doSendMessage env timestamp messageBuffer fuel)
                    addr true
                    (fun ids => doSendMessage_bound env timestamp
                                  messageBuffer fuel addr ids true) w0) as H.
      unfold try_, reloadDevicesAndSend.
      by destruct (reloadDevicesAndSend_with _ _ _ w0) as [[a|e|] w1].
    - intros [?|e]; [apply quiet_ret | apply quiet_emitError]. }
  destruct (B w) as (H1 & H2 & _). lia.
Qed.

Lemma sendToAddr_transmit_bound_witness :
  error_reason
    <$> errors (doSendMessage staleAlways 1000 hi 1 "alice" [1] false alice1).2
  = ["Hit retry limit attempting to reload device list"] /\
  sends (doSendMessage staleAlways 1000 hi 1 "alice" [1] false alice1).2
  = 1%nat.
Proof.
  destruct (sendToAddr_transmit_bound staleAlways 1000 hi 0 "alice" alice1)
    as (_ & H & _).
  rewrite (H [1] (hi ++ x80 :: replicate 156 x00) [toAlice1] 410
             {| extraDevices := []; missingDevices := []; staleDevices := [1] |}
             alice1
             (with_log (Encrypt "alice" 1 (hi ++ x80 :: replicate 156 x00))
                alice1)
             ltac:(by vm_compute) ltac:(by vm_compute) ltac:(by vm_compute)
             ltac:(by right)).
  by vm_compute.
Defined.

(** C6 fails on the code for our own address: with no stored device the
    pipeline journals [sent] and then goes on to [doSendMessage] with the
    empty device list, which transmits an empty message list and journals
    [sent] a second time. *)
Theorem sendToAddr_self_transmits :
  (sendToAddr accepting 1000 hi 3 "me" (world "me" ∅)).1 = Ok tt /\
  log (sendToAddr accepting 1000 hi 3 "me" (world "me" ∅)).2
  = [ EmitSent {| sent_addr := "me" |};
      SendMessages "me" [] 1000 None;
      EmitSent {| sent_addr := "me" |} ] /\
  sent (sendToAddr accepting 1000 hi 3 "me" (world "me" ∅)).2
  = [ {| sent_addr := "me" |}; {| sent_addr := "me" |} ].
Proof. by vm_compute. Qed.

(** The half of C6 that the code keeps: with no stored device for an
    address that is not our own, the stale-device scan answers [1], so
    that the prekeys of the primary device are fetched. *)
Lemma deviceIdsOf_nil (addr : string) (m : gmap (string * Z) bool) :
  deviceIdsOf addr m = [] -> forall d, m !! (addr, d) = None.
Proof.
  unfold deviceIdsOf. intros H d.
  pose proof (merge_sort_Permutation Z.le
                (snd <$> elements (filter (fun k : string * Z => k.1 = addr)
                                     (dom m)))) as HP.
  rewrite H in HP. apply Permutation_nil_l in HP. symmetry in HP.
  apply fmap_nil_inv in HP. apply elements_empty_inv in HP.
  apply not_elem_of_dom. intros Hd.
  assert ((addr, d) ∈ filter (fun k : string * Z => k.1 = addr) (dom m))
    as Hin by by apply elem_of_filter.
  rewrite HP in Hin. by apply not_elem_of_empty in Hin.
Qed.

Lemma getStaleDeviceIdsForAddr_default (addr : string) (w : World) :
  deviceIdsOf addr (sessions w) = [] ->
  addr <> ourAddr w ->
  getStaleDeviceIdsForAddr addr w = (Ok [1], w).
Proof.
  intros Hnil Hother. unfold getStaleDeviceIdsForAddr.
  rewrite bind_unfold. unfold getDeviceIds, gets. rewrite Hnil.
  rewrite bool_decide_eq_true_2 by done.
  rewrite !bind_unfold. unfold getState_addr, gets.
  apply String.eqb_neq in Hother. rewrite Hother. cbn [negb app].
  unfold mret, M_ret. cbn [collectStale].
  rewrite bind_unfold. unfold hasOpenSession, gets.
  by rewrite (deviceIdsOf_nil addr _ Hnil 1).
Qed.

(** *** Prekey fetch *)

Lemma forEach_app {A} (l1 l2 : list A) (body : A -> M unit) (w : World) :
  forEach (l1 ++ l2) body w =
  match forEach l1 body w with
  | (Ok _, w') => forEach l2 body w'
  | r => r
  end.
Proof.
  revert w. induction l1 as [|x l1 IH]; intros w; cbn [forEach app].
  - reflexivity.
  - rewrite !bind_unfold.
    destruct (body x w) as [[[]|e|] w1]; [apply IH|done..].
Qed.

(** C8: in a fetch over an explicit device list, a 404 for a device
    other than 1 removes the session of that device through
    [storage.removeSession] and the loop goes on with the devices that
    remain; a 404 for device 1 is thrown out of the fetch. *)
Theorem getKeysForAddr_404 env addr (pre rest : list Z) (d : Z)
    reentrant resp w0 w :
  getKeysForAddr_loop env
    (handlerOf env addr (Some (pre ++ d :: rest)) reentrant) addr pre w0
  = (Ok tt, w) ->
  server_getKeysForAddr env w addr (Some d)
  = Throw (ProtocolError 404 resp) ->
  getKeysForAddr env addr (Some (pre ++ d :: rest)) reentrant w0
  = (if d =? 1
     then (Exn (ProtocolError 404 resp),
           with_log (GetKeysForAddr addr (Some d)) w)
     else
       getKeysForAddr_loop env
         (handlerOf env addr (Some (pre ++ d :: rest)) reentrant) addr rest
         (with_sessions (delete (addr, d))
            (with_log (RemoveSession (encodeAddr addr d))
               (with_log (GetKeysForAddr addr (Some d)) w)))) /\
  sessions (with_sessions (delete (addr, d))
              (with_log (RemoveSession (encodeAddr addr d))
                 (with_log (GetKeysForAddr addr (Some d)) w)))
    !! (addr, d) = None.
Proof.
  intros Hpre H404. split; [|apply lookup_delete_eq].
  unfold getKeysForAddr. cbn [getKeysForAddr_body].
  unfold getKeysForAddr_loop in *. rewrite forEach_app, Hpre.
  cbn [forEach]. rewrite bind_unfold.
  unfold getKeysForDevice at 1. rewrite bind_unfold.
  unfold try_ at 1. rewrite bind_unfold.
  unfold server_getKeys at 1. rewrite H404. cbn [isProtocolError].
  cbn [Z.eqb Pos.eqb andb].
  destruct (d =? 1); cbn [negb]; [reflexivity|].
  unfold removeDeviceIdsForAddr. cbn [forEach].
  by rewrite !bind_unfold.
Qed.

Lemma getKeysForAddr_404_witness :
  (getKeysForAddr bobLostDevice2 "bob" (Some [1; 2; 3]) false
     (world "me" {[ ("bob", 2) := false ]})).1 = Ok tt /\
  keyFetches
    (log (getKeysForAddr bobLostDevice2 "bob" (Some [1; 2; 3]) false
            (world "me" {[ ("bob", 2) := false ]})).2)
  = [("bob", Some 1); ("bob", Some 2); ("bob", Some 3)] /\
  removals
    (log (getKeysForAddr bobLostDevice2 "bob" (Some [1; 2; 3]) false
            (world "me" {[ ("bob", 2) := false ]})).2)
  = ["bob.2"].
Proof.
  eassert (Hpre : getKeysForAddr_loop bobLostDevice2
            (handlerOf bobLostDevice2 "bob" (Some ([1] ++ 2 :: [3])) false)
            "bob" [1] (world "me" {[ ("bob", 2) := false ]}) = (Ok tt, _))
    by (vm_compute; reflexivity).
  destruct (getKeysForAddr_404 bobLostDevice2 "bob" [1] [3] 2 false
              {| extraDevices := []; missingDevices := [];
                 staleDevices := [] |} _ _ Hpre ltac:(vm_compute; reflexivity))
    as [H _].
  cbn [app] in H. rewrite H. clear H Hpre.
  by vm_compute.
Defined.

(** *** Recovery from a 410 *)

Lemma ciphersFor_lookup addr (deviceIds : list Z) (x : Z) :
  x ∈ deviceIds ->
  ciphersFor addr deviceIds !! x
  = Some {| cipher_addr := addr; cipher_deviceId := x |}.
Proof.
  unfold ciphersFor. generalize (∅ : gmap Z SessionCipher).
  induction deviceIds as [|y l IH]; intros acc Hx; [by inversion Hx|].
  cbn [foldl]. destruct (decide (x ∈ l)) as [Hl|Hl]; [by apply IH|].
  assert (x = y) as -> by (inversion Hx; congruence).
  clear IH Hx. revert acc. induction l as [|z l IH]; intros acc.
  - cbn. apply lookup_insert_eq.
  - cbn [foldl]. apply not_elem_of_cons in Hl as [Hz Hl].
    rewrite insert_insert_ne by done. by apply IH.
Qed.

Lemma closeStale_ok addr (deviceIds stale : list Z) (w : World) :
  stale ⊆ deviceIds ->
  closeStale (ciphersFor addr deviceIds) stale w
  = (Ok tt, closeAll addr stale w).
Proof.
  unfold closeStale, closeAll. revert w.
  induction stale as [|x stale IH]; intros w Hsub; [done|].
  cbn [forEach foldl]. rewrite bind_unfold.
  rewrite ciphersFor_lookup by (apply Hsub; left).
  unfold closeOpenSessionForDevice. rewrite bind_unfold. cbn.
  apply IH. intros y Hy. apply Hsub. by right.
Qed.

Lemma closeAll_log addr (stale : list Z) (w : World) :
  log (closeAll addr stale w)
  = log w ++ (CloseOpenSessionForDevice addr <$> stale).
Proof.
  unfold closeAll. revert w.
  induction stale as [|x stale IH]; intros w; cbn [foldl fmap list_fmap].
  - by rewrite app_nil_r.
  - rewrite IH. cbn [log with_sessions with_log]. by rewrite <- app_assoc.
Qed.

Lemma closeAll_dom addr (stale : list Z) (w : World) :
  dom (sessions (closeAll addr stale w)) = dom (sessions w).
Proof.
  unfold closeAll. revert w.
  induction stale as [|x stale IH]; intros w; cbn [foldl]; [done|].
  rewrite IH. cbn [sessions with_sessions with_log]. apply dom_alter_L.
Qed.

Lemma closeAll_lookup_other addr (stale : list Z) (w : World) k :
  (forall x, x ∈ stale -> k <> (addr, x)) ->
  sessions (closeAll addr stale w) !! k = sessions w !! k.
Proof.
  unfold closeAll. revert w.
  induction stale as [|x stale IH]; intros w Hk; cbn [foldl]; [done|].
  rewrite IH by (intros y Hy; apply Hk; by right).
  cbn [sessions with_sessions with_log].
  apply lookup_alter_ne. intros E. by apply (Hk x); [left|].
Qed.

Lemma closeAll_lookup addr (stale : list Z) (w : World) (x : Z) :
  x ∈ stale ->
  sessions (closeAll addr stale w) !! (addr, x)
  = (fun _ => false) <$> sessions w !! (addr, x).
Proof.
  unfold closeAll. revert w.
  induction stale as [|y stale IH]; intros w Hx; [by inversion Hx|].
  cbn [foldl]. destruct (decide (x ∈ stale)) as [Hs|Hs].
  - rewrite IH by done. cbn [sessions with_sessions with_log].
    destruct (decide (y = x)) as [->|Hne].
    + rewrite lookup_alter_eq. by destruct (sessions w !! (addr, x)).
    + rewrite lookup_alter_ne by congruence. done.
  - assert (x = y) as -> by (inversion Hx; congruence).
    fold (closeAll addr stale
            (with_sessions (alter (fun _ => false) (addr, y))
               (with_log (CloseOpenSessionForDevice addr y) w))).
    rewrite closeAll_lookup_other.
    + cbn [sessions with_sessions with_log]. apply lookup_alter_eq.
    + intros z Hz E. injection E as ->. contradiction.
Qed.

Lemma keyFetches_app (l1 l2 : list Action) :
  keyFetches (l1 ++ l2) = keyFetches l1 ++ keyFetches l2.
Proof. apply omap_app. Qed.

Lemma closings_app (l1 l2 : list Action) :
  closings (l1 ++ l2) = closings l1 ++ closings l2.
Proof. apply omap_app. Qed.

Lemma removals_app (l1 l2 : list Action) :
  removals (l1 ++ l2) = removals l1 ++ removals l2.
Proof. apply omap_app. Qed.

(** Every device of the list is asked for when the loop ends normally. *)
Lemma getKeysForAddr_loop_fetches env handle addr (l : list Z) :
  (forall r, logs (fun _ => True) (handle r)) ->
  forall w, exists sfx,
    log (getKeysForAddr_loop env handle addr l w).2 = log w ++ sfx /\
    ((getKeysForAddr_loop env handle addr l w).1 = Ok tt ->
     forall x, x ∈ l -> (addr, Some x) ∈ keyFetches sfx).
Proof.
  intros Hh. unfold getKeysForAddr_loop.
  induction l as [|x l IH]; intros w; cbn [forEach].
  - exists []. split; [by rewrite app_nil_r|]. intros _ y Hy. by inversion Hy.
  - assert (Hbody : exists l1,
               log (getKeysForDevice env handle addr x w).2
               = log w ++ GetKeysForAddr addr (Some x) :: l1).
    { unfold getKeysForDevice. rewrite bind_unfold. unfold try_.
      rewrite bind_unfold. unfold server_getKeys.
      set (w1 := with_log (GetKeysForAddr addr (Some x)) w).
      assert (Hcont : forall e w2 l2,
                 log w2 = log w1 ++ l2 ->
                 exists l1,
                   log ((if isProtocolError 404 e && negb (x =? 1)
                         then removeDeviceIdsForAddr addr [x]
                         else throw e) w2).2
                   = log w ++ GetKeysForAddr addr (Some x) :: l1).
      { intros e w2 l2 E2.
        destruct (_ && _).
        - destruct (logs_removeDeviceIdsForAddr (fun _ => True)
                      (fun _ _ _ => I) addr [x] w2) as (l3 & E3 & _).
          exists (l2 ++ l3). etrans; [exact E3|]. etrans; [by rewrite E2|].
          subst w1. cbn [log with_log]. by rewrite <- !app_assoc.
        - exists l2. unfold throw. cbn [snd]. etrans; [exact E2|]. subst w1.
          cbn [log with_log]. by rewrite <- app_assoc. }
      destruct (server_getKeysForAddr env w addr (Some x)) as [r|e].
      - destruct (Hh r w1) as (l2 & E2 & _).
        destruct (handle r w1) as [[u|e|] w2]; cbn [snd] in *.
        + exists l2. etrans; [exact E2|]. subst w1. cbn [log with_log].
          by rewrite <- app_assoc.
        + by apply (Hcont e w2 l2).
        + exists l2. etrans; [exact E2|]. subst w1. cbn [log with_log].
          by rewrite <- app_assoc.
      - apply (Hcont e w1 []). by rewrite app_nil_r. }
    destruct Hbody as (l1 & E1). rewrite bind_unfold.
    destruct (getKeysForDevice env handle addr x w) as [[u|e|] w1];
      cbn [snd fst] in *;
      [|exists (GetKeysForAddr addr (Some x) :: l1); split; [exact E1|done]..].
    destruct (IH w1) as (sfx & E2 & Hall).
    exists ((GetKeysForAddr addr (Some x) :: l1) ++ sfx).
    split; [by rewrite E2, E1, <- app_assoc|].
    intros Hok y Hy. rewrite keyFetches_app. apply elem_of_app.
    inversion Hy; subst; [left; cbn; left | right; by apply Hall].
Qed.

Lemma keyFetches_fetchOf addr stale (l : list Action) :
  Forall (fetchOf addr stale) l ->
  forall q, q ∈ keyFetches l -> exists x, x ∈ stale /\ q = (addr, Some x).
Proof.
  induction 1 as [|a l Ha _ IH]; intros q Hq; [by inversion Hq|].
  destruct a; cbn in Hq; try by apply IH.
  apply elem_of_cons in Hq as [->|Hq]; [|by apply IH].
  destruct Ha as (-> & x & Hx & ->). eauto.
Qed.

(** A fetch over an explicit device list asks for those devices only, and
    for each of them when it ends normally. *)
Lemma getKeysForAddr_fetches env addr (stale : list Z) reentrant w :
  exists l,
    log (getKeysForAddr env addr (Some stale) reentrant w).2 = log w ++ l /\
    (forall q, q ∈ keyFetches l -> exists x, x ∈ stale /\ q = (addr, Some x)) /\
    ((getKeysForAddr env addr (Some stale) reentrant w).1 = Ok tt ->
     forall x, x ∈ stale -> (addr, Some x) ∈ keyFetches l).
Proof.
  destruct (logs_getKeysForAddr (fetchOf addr stale)
              ltac:(by intros []) env addr (Some stale) reentrant
              ltac:(intros d Hd; split; eauto) w) as (l & E & F).
  exists l. split; [done|]. split; [by apply keyFetches_fetchOf|].
  destruct (getKeysForAddr_loop_fetches env
              (handlerOf env addr (Some stale) reentrant) addr stale
              ltac:(intros r; by apply logs_handlerOf) w) as (l' & E' & H').
  unfold getKeysForAddr in *. cbn [getKeysForAddr_body] in *.
  rewrite E in E'. apply app_inv_head in E'. by subst l'.
Qed.




End OutgoingClaims.

(** ** The incoming pipeline *)

Section IncomingClaims.
Import MessageReceiver IncomingScenario.

Lemma rbind_unfold {A B} (m : R A) (f : A -> R B) (w : World) :
  (m ≫= f) w =
  match m w with
  | (Return a, w') => f a w'
  | (Throw e, w') => (Throw e, w')
  end.
Proof. reflexivity. Qed.

(** *** What a method appends to the log *)

Section LogsR.

Variable P : Action -> Prop.

Lemma logsR_nil {A} (m : R A) :
  (forall w, log (m w).2 = log w) -> logsR P m.
Proof. intros H w. exists []. by rewrite H, app_nil_r. Qed.

Lemma logsR_ret {A} (a : A) : logsR P (mret a).
Proof. by apply logsR_nil. Qed.

Lemma logsR_throw {A} (e : exn) : logsR P (@throw A e).
Proof. by apply logsR_nil. Qed.

Lemma logsR_gets {A} (f : World -> A) : logsR P (gets f).
Proof. by apply logsR_nil. Qed.

Lemma logsR_decodeR {A} (r : completion exn A) : logsR P (decodeR r).
Proof. by apply logsR_nil. Qed.

Lemma logsR_logAction (a : Action) : P a -> logsR P (logAction a).
Proof. intros Ha w. exists [a]. split; [done | by constructor]. Qed.

Lemma logsR_call {A} (a : Action) (answer : World -> completion exn A) :
  P a -> logsR P (call a answer).
Proof. intros Ha w. exists [a]. split; [done | by constructor]. Qed.

Lemma logsR_bind {A B} (m : R A) (f : A -> R B) :
  logsR P m -> (forall a, logsR P (f a)) -> logsR P (m ≫= f).
Proof.
  intros Hm Hf w. rewrite rbind_unfold.
  destruct (Hm w) as (l1 & E1 & F1).
  destruct (m w) as [[a|e] w1]; cbn [snd] in *; eauto.
  destruct (Hf a w1) as (l2 & E2 & F2).
  exists (l1 ++ l2). rewrite E2, E1, app_assoc.
  split; [done | by apply Forall_app].
Qed.

Lemma logsR_try {A} (m : R A) : logsR P m -> logsR P (try_ m).
Proof.
  intros Hm w. unfold try_. specialize (Hm w).
  by destruct (m w) as [[a|e] w1].
Qed.

Lemma logsR_forEach {A} (l : list A) (body : A -> R unit) :
  (forall x, logsR P (body x)) -> logsR P (forEach l body).
Proof.
  intros Hb. induction l as [|x l IH]; cbn [forEach].
  - apply logsR_ret.
  - apply logsR_bind; [apply Hb | intros _; apply IH].
Qed.

End LogsR.

(** *** A re-entrant call *)

Section Reentrant.

Variable P : Action -> Prop.
Variable env : Env.
Variable addr : string.
Variable deviceId : Z.
Variable envelope : Envelope.
(** [P] holds of every action but the dispatch of a [keychange] or of a
    [message] event, and of the [message] events for [envelope]. *)
Hypothesis P_other :
  forall a, isKeyChange a = false ->
            match a with Dispatch (MessageEvent _) => False | _ => True end ->
            P a.
Hypothesis P_message :
  forall m, P (Dispatch
                 (MessageEvent {| msg_timestamp := timestamp envelope;
                                  msg_source := source envelope;
                                  msg_sourceDevice := sourceDevice envelope;
                                  msg_message := m;
                                  msg_keyChange := keyChange envelope |})).

Ltac plain := apply P_other; [reflexivity | exact I].

Lemma logsR_decrypt c : logsR P (decrypt env envelope c).
Proof.
  unfold decrypt. apply logsR_bind.
  - destruct (type envelope);
      first [apply logsR_call; plain | apply logsR_throw].
  - intros buf. unfold unpadR.
    destruct (unpad buf) as [?|[|]]; first [apply logsR_ret | apply logsR_throw].
Qed.

Lemma logsR_exchangeOf m : logsR P (exchangeOf env m).
Proof. by apply logsR_nil. Qed.

Lemma logsR_handleDataMessage m : logsR P (handleDataMessage env m envelope).
Proof.
  unfold handleDataMessage. apply logsR_bind.
  - destruct (negb _); [|apply logsR_ret].
    unfold handleEndSession. apply logsR_bind; [apply logsR_gets|].
    intros ids. apply logsR_forEach. intros id. apply logsR_logAction. plain.
  - intros _. apply logsR_bind; [apply logsR_exchangeOf|].
    intros _. apply logsR_logAction, P_message.
Qed.

Lemma logsR_handleSyncMessage m :
  logsR P (handleSyncMessage env addr deviceId m envelope).
Proof.
  unfold handleSyncMessage.
  destruct (negb (String.eqb _ _)); [apply logsR_throw|].
  destruct (_ =? _); [apply logsR_throw|].
  destruct (sent m) as [s|].
  - unfold handleSentMessage. destruct (negb _); [apply logsR_ret|].
    apply logsR_bind; [apply logsR_exchangeOf|].
    intros _. apply logsR_logAction. plain.
  - destruct (negb (bool_decide _)).
    + unfold handleRead. apply logsR_forEach. intros x.
      apply logsR_logAction. plain.
    + repeat match goal with
             | |- logsR _ (if ?b then _ else _) => destruct b
             end;
        first [apply logsR_throw | apply logsR_ret].
Qed.

Lemma logsR_handler (handler : Envelope -> R unit) w0 w1 :
  selectHandler env addr deviceId envelope w0 = (Return handler, w1) ->
  logsR P (handler envelope).
Proof.
  unfold selectHandler.
  repeat match goal with
         | |- context [bool_decide ?Q] => destruct (bool_decide Q)
         end;
    intros [= <- _].
  - apply logsR_logAction. plain.
  - unfold handleContentMessage.
    apply logsR_bind; [apply logsR_decrypt|]. intros data.
    apply logsR_bind; [apply logsR_decodeR|]. intros c.
    destruct (syncMessage c); [apply logsR_handleSyncMessage|].
    destruct (dataMessage c);
      [apply logsR_handleDataMessage | apply logsR_throw].
  - unfold handleLegacyMessage.
    apply logsR_bind; [apply logsR_decrypt|]. intros data.
    apply logsR_bind; [apply logsR_decodeR|]. intros m.
    apply logsR_handleDataMessage.
Qed.

Lemma logsR_sessionRecovery e : logsR P (sessionRecovery env e envelope).
Proof.
  unfold sessionRecovery. apply logsR_bind.
  - destruct (isPreKeyError e); [|apply logsR_ret].
    apply logsR_bind; [apply logsR_call; plain|].
    intros keys. apply logsR_call. plain.
  - intros _. apply logsR_call. plain.
Qed.

Lemma logsR_handleFault_reentrant again force e :
  logsR P (handleFault env again envelope true force e).
Proof.
  unfold handleFault.
  destruct (isMessageCounterError e); [apply logsR_ret|].
  rewrite andb_false_r.
  apply logsR_bind.
  - destruct (isSessionError e);
      [apply logsR_sessionRecovery | apply logsR_ret].
  - intros _. apply logsR_logAction. plain.
Qed.

Lemma logsR_handleEnvelope_reentrant again force :
  logsR P (handleEnvelope_with env addr deviceId again envelope true force).
Proof.
  unfold handleEnvelope_with.
  apply logsR_bind; [apply logsR_gets|]. intros [|]; [apply logsR_ret|].
  intros w. rewrite rbind_unfold.
  destruct (selectHandler env addr deviceId envelope w) as [[handler|e] w1] eqn:E.
  - assert (w1 = w) as ->.
    { revert E. unfold selectHandler.
      repeat match goal with
             | |- context [bool_decide ?Q] => destruct (bool_decide Q)
             end; by intros [= _ <-]. }
    refine (logsR_bind P _ _ _ _ w).
    + eapply logsR_try, logsR_handler, E.
    + intros [?|e]; [apply logsR_ret | apply logsR_handleFault_reentrant].
  - exists []. rewrite app_nil_r. split; [|done].
    revert E. unfold selectHandler.
    repeat match goal with
           | |- context [bool_decide ?Q] => destruct (bool_decide Q)
           end; by intros [= _ <-].
Qed.

End Reentrant.

(** *** Faults of decryption *)

Lemma count_snocR (p : Action -> bool) (l : list Action) (a : Action) :
  count p (l ++ [a]) = (count p l + if p a then 1 else 0)%nat.
Proof.
  unfold count. rewrite List.filter_app, length_app. cbn.
  by destruct (p a).
Qed.

Lemma count_noneR (p : Action -> bool) (l : list Action) :
  Forall (fun a => p a = false) l -> count p l = 0%nat.
Proof.
  unfold count. induction 1 as [|a l Ha _ IH]; [done|].
  cbn. by rewrite Ha.
Qed.

(** [decrypt] makes one call to the cipher at most and dispatches
    nothing. *)
Lemma decrypt_keychanges env envelope c w :
  count isKeyChange (log (decrypt env envelope c w).2)
  = count isKeyChange (log w).
Proof.
  destruct (logsR_decrypt (fun a => isKeyChange a = false) env envelope
              ltac:(by intros [[]| | | | | |]) c w) as (l & -> & F).
  unfold count. rewrite List.filter_app, length_app.
  fold (count isKeyChange l). rewrite (count_noneR _ _ F). lia.
Qed.

(** What [decrypt] throws for an envelope that is not blocked and no
    receipt reaches the [catch] block of [handleEnvelope]. *)
Lemma handleEnvelope_with_fault env addr deviceId again envelope
    reentrant force ciphertext e w w1 :
  source envelope ∉ blockedSet w ->
  type envelope <> RECEIPT ->
  ciphertextOf envelope = Some ciphertext ->
  decrypt env envelope ciphertext w = (Throw e, w1) ->
  handleEnvelope_with env addr deviceId again envelope reentrant force w
  = handleFault env again envelope reentrant force e w1.
Proof.
  intros Hb Ht Hc Hd. unfold handleEnvelope_with.
  rewrite rbind_unfold. unfold isBlocked, gets.
  rewrite bool_decide_eq_false_2 by done.
  rewrite rbind_unfold. unfold selectHandler.
  rewrite bool_decide_eq_false_2 by done.
  unfold ciphertextOf in Hc.
  destruct (content envelope) as [c|] eqn:Ec.
  - injection Hc as ->.
    rewrite bool_decide_eq_true_2 by eauto.
    cbn [mret R_ret]. rewrite rbind_unfold. unfold try_.
    unfold handleContentMessage. rewrite rbind_unfold, Ec.
    change (default [] (Some ciphertext)) with ciphertext.
    by rewrite Hd.
  - rewrite bool_decide_eq_false_2 by (by intros [? ?]).
    rewrite Hc. rewrite bool_decide_eq_true_2 by eauto.
    cbn [mret R_ret]. rewrite rbind_unfold. unfold try_.
    unfold handleLegacyMessage. rewrite rbind_unfold, Hc.
    change (default [] (Some ciphertext)) with ciphertext.
    by rewrite Hd.
Qed.

(** A re-entrant call never calls again. *)
Lemma handleEnvelope_reentrant_final env addr deviceId again envelope force w :
  handleEnvelope_with env addr deviceId again envelope true force w
  = handleEnvelope env addr deviceId envelope true force w.
Proof.
  unfold handleEnvelope, handleEnvelope_with. rewrite !rbind_unfold.
  destruct (isBlocked _ w) as [[[|]|] w1]; try done.
  rewrite !rbind_unfold.
  destruct (selectHandler _ _ _ _ w1) as [[handler|] w2]; [|done].
  rewrite !rbind_unfold.
  destruct (try_ (handler envelope) w2) as [[[|e]|] w3]; try done.
  unfold handleFault. by rewrite andb_false_r.
Qed.

(** C7, as stated, fails when the caller forces acceptance: the first
    attempt raises the untrusted-identity error, no [keychange] event is
    dispatched, and the envelope is still handled again (its [message]
    event carries [keyChange:true]). *)
Lemma handleEnvelope_forced_no_keychange :
  (decrypt (trustAfterAccept false) fromBob [x01; x02] emptyWorld).1
  = Throw untrusted /\
  count isKeyChange
    (log (handleEnvelope (trustAfterAccept false) "me" 1 fromBob false true
            emptyWorld).2) = 0%nat /\
  messageKeyChanges
    (log (handleEnvelope (trustAfterAccept false) "me" 1 fromBob false true
            emptyWorld).2) = [true].
Proof. by vm_compute. Qed.

(** C7 (amended): when decryption raises the untrusted-identity error on
    a first attempt that does not force acceptance, exactly one
    [keychange] event is dispatched; if no listener accepts, handling
    stops there; if one accepts, the envelope is handled once more, with
    [keyChange] set and [reentrant=true]; that second handling dispatches
    no [keychange] event and never calls again, its [message] events carry
    [keyChange:true], and an untrusted-identity error on it ends in an
    [error] event. When acceptance is forced, no [keychange] event is
    dispatched and the envelope is handled once more all the same. *)
Theorem handleEnvelope_untrusted env addr deviceId envelope ciphertext e w w1 :
  source envelope ∉ blockedSet w ->
  type envelope <> RECEIPT ->
  ciphertextOf envelope = Some ciphertext ->
  decrypt env envelope ciphertext w = (Throw e, w1) ->
  isUntrustedIdentityKeyError e = true ->
  let envelope' := setKeyChange envelope in
  let again := fun w' => handleEnvelope env addr deviceId envelope' true false w' in
  let wk := with_log (Dispatch (KeyChangeEvent e envelope)) w1 in
  handleEnvelope env addr deviceId envelope false false w
  = (if listenerAccepts env w1 e envelope
     then again (with_log (Accept e) wk)
     else (Return tt, wk)) /\
  count isKeyChange (log wk) = S (count isKeyChange (log w)) /\
  (forall w', count isKeyChange (log (again w').2)
              = count isKeyChange (log w')) /\
  (forall retry w',
      handleEnvelope_with env addr deviceId retry envelope' true false w'
      = again w') /\
  (forall w', exists l,
      log (again w').2 = log w' ++ l /\
      Forall (eq true) (messageKeyChanges l)) /\
  (forall w' e' w3,
      source envelope ∉ blockedSet w' ->
      decrypt env envelope' ciphertext w' = (Throw e', w3) ->
      isUntrustedIdentityKeyError e' = true ->
      again w' = (Return tt, with_log (Dispatch (ErrorEvent e' envelope')) w3)) /\
  handleEnvelope env addr deviceId envelope false true w
  = again (with_log (Accept e) w1).
Proof.
  intros Hb Ht Hc Hd He envelope' again wk.
  assert (Hmc : isMessageCounterError e = false) by by destruct e.
  assert (Hse : isSessionError e = false) by by destruct e.
  split; [|split; [|split; [|split; [|split; [|split]]]]].
  - unfold handleEnvelope.
    rewrite (handleEnvelope_with_fault _ _ _ _ _ _ _ _ _ _ _ Hb Ht Hc Hd).
    unfold handleFault. rewrite Hmc, He. cbn [negb andb].
    rewrite rbind_unfold. unfold keyChangeDecision.
    rewrite rbind_unfold. unfold gets. rewrite rbind_unfold.
    unfold dispatchEvent, logAction. fold wk.
    destruct (listenerAccepts env w1 e envelope); [|done].
    rewrite rbind_unfold. unfold accept, logAction. cbn [mret R_ret].
    subst again envelope'. unfold handleEnvelope.
    apply handleEnvelope_reentrant_final.
  - subst wk. cbn [log with_log]. rewrite count_snocR. cbn [isKeyChange].
    pose proof (decrypt_keychanges env envelope ciphertext w) as Hk.
    rewrite Hd in Hk. cbn [snd] in Hk. lia.
  - intros w'. subst again. cbv beta. unfold handleEnvelope.
    destruct (logsR_handleEnvelope_reentrant (fun a => isKeyChange a = false)
                env addr deviceId envelope'
                ltac:(by intros) ltac:(by intros)
                (fun envelope'0 =>
                   handleEnvelope_with env addr deviceId (fun _ => mret tt)
                     envelope'0 true false) false w') as (l & -> & F).
    unfold count. rewrite List.filter_app, length_app.
    fold (count isKeyChange l). rewrite (count_noneR _ _ F). lia.
  - intros retry w'. apply handleEnvelope_reentrant_final.
  - intros w'. subst again. cbv beta. unfold handleEnvelope.
    destruct (logsR_handleEnvelope_reentrant
                (fun a => match a with
                          | Dispatch (MessageEvent d) => msg_keyChange d = true
                          | _ => True
                          end)
                env addr deviceId envelope'
                ltac:(by intros [[]| | | | | |]) ltac:(by intros)
                (fun envelope'0 =>
                   handleEnvelope_with env addr deviceId (fun _ => mret tt)
                     envelope'0 true false) false w') as (l & E & F).
    exists l. split; [done|].
    clear E. induction F as [|a l Ha _ IH]; [constructor|].
    destruct a as [[]| | | | | |]; cbn; try done.
    constructor; [by symmetry | done].
  - intros w' e' w3 Hb' Hd' He'. subst again. cbv beta. unfold handleEnvelope.
    rewrite (handleEnvelope_with_fault _ _ _ _ envelope' _ _ ciphertext e' w' w3);
      [|done|done|done|done].
    unfold handleFault.
    replace (isMessageCounterError e') with false by by destruct e'.
    rewrite andb_false_r.
    replace (isSessionError e') with false by by destruct e'.
    by rewrite rbind_unfold.
  - unfold handleEnvelope.
    rewrite (handleEnvelope_with_fault _ _ _ _ _ _ _ _ _ _ _ Hb Ht Hc Hd).
    unfold handleFault. rewrite Hmc, He. cbn [negb andb].
    rewrite rbind_unfold. unfold keyChangeDecision.
    rewrite rbind_unfold. unfold accept, logAction. cbn [mret R_ret].
    subst again envelope'. unfold handleEnvelope.
    apply handleEnvelope_reentrant_final.
Qed.

Lemma handleEnvelope_untrusted_witness :
  count isKeyChange
    (log (handleEnvelope (trustAfterAccept true) "me" 1 fromBob false false
            emptyWorld).2) = 1%nat /\
  messageKeyChanges
    (log (handleEnvelope (trustAfterAccept true) "me" 1 fromBob false false
            emptyWorld).2) = [true] /\
  errorEvents
    (log (handleEnvelope (failing untrusted true) "me" 1 fromBob false false
            emptyWorld).2) = [(untrusted, setKeyChange fromBob)].
Proof.
  assert (Hb : source fromBob ∉ blockedSet emptyWorld)
    by apply not_elem_of_empty.
  assert (Ht : type fromBob <> RECEIPT) by discriminate.
  eassert (Hd : decrypt (trustAfterAccept true) fromBob [x01; x02] emptyWorld
                = (Throw untrusted, _)) by (vm_compute; reflexivity).
  eassert (Hd' : decrypt (failing untrusted true) fromBob [x01; x02] emptyWorld
                 = (Throw untrusted, _)) by (vm_compute; reflexivity).
  destruct (handleEnvelope_untrusted (trustAfterAccept true) "me" 1 fromBob
              [x01; x02] untrusted emptyWorld _ Hb Ht eq_refl Hd eq_refl)
    as (H1 & _).
  destruct (handleEnvelope_untrusted (failing untrusted true) "me" 1 fromBob
              [x01; x02] untrusted emptyWorld _ Hb Ht eq_refl Hd' eq_refl)
    as (H2 & _).
  rewrite H1, H2. by vm_compute.
Defined.

(** [decrypt] dispatches nothing. *)
Lemma decrypt_errorEvents env envelope c w :
  errorEvents (log (decrypt env envelope c w).2) = errorEvents (log w).
Proof.
  unfold decrypt. rewrite rbind_unfold.
  assert (forall a answer,
             match a with Dispatch _ => False | _ => True end ->
             errorEvents
               (log (match @call (list byte) a answer w with
                     | (Return b, w') => unpadR b w'
                     | (Throw e, w') => (Throw e, w')
                     end).2) = errorEvents (log w)) as Hcall.
  { intros a answer Ha. unfold call.
    assert (errorEvents (log (with_log a w)) = errorEvents (log w)) as Hl.
    { cbn [log with_log]. unfold errorEvents. rewrite omap_app.
      destruct a; try done; cbn; by rewrite app_nil_r. }
    destruct (answer w) as [b|e]; [|done].
    unfold unpadR. by destruct (unpad b) as [?|[|]]. }
  destruct (type envelope); first [by apply Hcall | done].
Qed.




End IncomingClaims.

(** ** More on padding *)

Section PaddingMore.

(** [getPaddedMessageLength] answers the least multiple of 160 that is
    greater than the message length. *)
Theorem getPaddedMessageLength_least (n : Z) (Hn : 0 <= n) :
  getPaddedMessageLength n mod 160 = 0 /\
  n < getPaddedMessageLength n /\
  forall m, m mod 160 = 0 -> n < m -> getPaddedMessageLength n <= m.
Proof.
  destruct (getPaddedMessageLength_bounds n Hn) as [[H1 H2] H3].
  split; [done|]. split; [lia|].
  intros m Hm Hnm.
  apply Z.mod_divide in Hm; [|lia]. destruct Hm as [q ->].
  apply Z.mod_divide in H3; [|lia]. destruct H3 as [p Hp].
  rewrite Hp in *. nia.
Qed.

Lemma getPaddedMessageLength_least_witness :
  0 <= 159 /\
  getPaddedMessageLength 159 mod 160 = 0 /\
  159 < getPaddedMessageLength 159 /\
  forall m, m mod 160 = 0 -> 159 < m -> getPaddedMessageLength 159 <= m.
Proof.
  split; [lia|]. apply (getPaddedMessageLength_least 159). lia.
Defined.

Lemma all_zero_replicate (l : Buffer.t) :
  (forall i b, l !! i = Some b -> b = x00) -> l = replicate (length l) x00.
Proof.
  intros H. apply list_eq. intros i.
  destruct (l !! i) as [b|] eqn:E.
  - rewrite (H i b E). symmetry. apply lookup_replicate_2.
    by apply lookup_lt_Some in E.
  - symmetry. apply lookup_ge_None. rewrite length_replicate.
    by apply lookup_ge_None in E.
Qed.

Lemma unpad_loop_Return (buf v : Buffer.t) (n : nat) :
  (n <= length buf)%nat ->
  (forall i b, (n <= i)%nat -> buf !! i = Some b -> b = x00) ->
  unpad_loop buf n = Return v ->
  exists k, buf = v ++ x80 :: replicate k x00.
Proof.
  induction n as [|i IH]; intros Hn Hz; cbn [unpad_loop]; [done|].
  destruct (lookup_lt_is_Some_2 buf i ltac:(lia)) as [b Hb]. rewrite Hb.
  destruct (b =? x80)%byte eqn:E80.
  - apply byte_dec_bl in E80. subst b. intros [= <-].
    exists (length (drop (S i) buf)). unfold Buffer.slice0.
    rewrite <- (take_drop_middle buf i x80 Hb) at 1.
    f_equal. f_equal. apply all_zero_replicate.
    intros j c Hj. rewrite lookup_drop in Hj. apply (Hz (S i + j)%nat c); [lia|done].
  - destruct (b =? x00)%byte eqn:E00; cbn [negb]; [|done].
    apply byte_dec_bl in E00. subst b.
    apply IH; [lia|]. intros j c Hj Hc.
    destruct (decide (j = i)) as [->|Hne]; [congruence|].
    apply (Hz j c); [lia|done].
Qed.

(** [unpad] returns [v] exactly for the buffers that are [v], the
    terminator 0x80 and then zeros only: the last 0x80 of the buffer
    is the terminator, whatever [v] holds. *)
Theorem unpad_Return_iff (buf v : Buffer.t) :
  unpad buf = Return v <-> exists k, buf = v ++ x80 :: replicate k x00.
Proof.
  split.
  - apply unpad_loop_Return; [done|].
    intros i b Hi Hb. apply lookup_lt_Some in Hb. lia.
  - intros [k ->]. by rewrite unpad_last_nonzero.
Qed.

End PaddingMore.

(** ** The footprint of a send *)

Section FootprintFacts.
Import OutgoingMessage OutgoingFacts Footprint.

Variable env : Env.
Variable timestamp : Z.
Variable messageBuffer : list byte.
Variable addr : string.

Lemma within_ret {A} (a : A) : within addr (mret a : M A).
Proof. intros w. apply rtc_refl. Qed.

Lemma within_throw {A} (e : exn) : within addr (@throw A e).
Proof. intros w. apply rtc_refl. Qed.

Lemma within_gets {A} (f : World -> A) : within addr (gets f).
Proof. intros w. apply rtc_refl. Qed.

Lemma within_bind {A B} (m : M A) (f : A -> M B) :
  within addr m -> (forall a, within addr (f a)) -> within addr (m ≫= f).
Proof.
  intros Hm Hf w. rewrite bind_unfold. specialize (Hm w).
  destruct (m w) as [[a|e|] w1]; cbn [snd] in *; try done.
  etrans; [exact Hm | apply Hf].
Qed.

Lemma within_try {A} (m : M A) : within addr m -> within addr (try_ m).
Proof.
  intros Hm w. unfold try_. specialize (Hm w).
  by destruct (m w) as [[a|e|] w1].
Qed.

Lemma within_forEach {A} (l : list A) (body : A -> M unit) :
  (forall x, within addr (body x)) -> within addr (forEach l body).
Proof.
  intros Hb. induction l as [|x l IH]; cbn [forEach].
  - apply within_ret.
  - apply within_bind; [apply Hb | intros _; apply IH].
Qed.

Lemma within_promiseAll {A} (jobs : list (M A)) :
  Forall (within addr) jobs -> within addr (promiseAll jobs).
Proof.
  induction 1 as [|job jobs Hj _ IH]; cbn [promiseAll].
  - apply within_ret.
  - intros w. specialize (Hj w).
    destruct (job w) as [[a|e|] w1]; cbn [snd] in *; try done.
    + etrans; [exact Hj|].
      apply (within_bind _ (fun l => mret (a :: l)) IH
               (fun l => within_ret _)).
    + specialize (IH w1). etrans; [exact Hj|].
      by destruct (promiseAll jobs w1) as [[l|e'|] w2].
Qed.

Lemma within_logAction (a : Action) :
  aboutAddr addr a -> within addr (logAction a).
Proof. intros Ha w. apply rtc_once. by constructor. Qed.

Lemma within_removeDeviceIdsForAddr l :
  within addr (removeDeviceIdsForAddr addr l).
Proof.
  unfold removeDeviceIdsForAddr. apply within_forEach. intros id.
  unfold removeSession. apply within_bind.
  - apply within_logAction. by exists id.
  - intros _ w. apply rtc_once, step_delete.
Qed.

Lemma within_emitError reason e : within addr (emitError addr reason e).
Proof.
  unfold emitError. apply within_bind.
  - intros w. apply rtc_once, step_error.
  - intros _. by apply within_logAction.
Qed.

Lemma within_emitSent : within addr (emitSent addr).
Proof.
  unfold emitSent. apply within_bind.
  - intros w. apply rtc_once, step_sent.
  - intros _. by apply within_logAction.
Qed.

Lemma within_closeStale (ciphers : gmap Z SessionCipher) stale :
  (forall x c, ciphers !! x = Some c -> cipher_addr c = addr) ->
  within addr (closeStale ciphers stale).
Proof.
  intros Hc. unfold closeStale. apply within_forEach. intros x.
  destruct (ciphers !! x) as [c|] eqn:E; [|apply within_throw].
  specialize (Hc x c E). unfold closeOpenSessionForDevice. rewrite Hc.
  apply within_bind; [by apply within_logAction|].
  intros _ w. apply rtc_once, step_close.
Qed.

Lemma ciphersFor_addr (deviceIds : list Z) x c :
  ciphersFor addr deviceIds !! x = Some c -> cipher_addr c = addr.
Proof.
  unfold ciphersFor.
  assert (H0 : forall y c', (∅ : gmap Z SessionCipher) !! y = Some c' ->
                            cipher_addr c' = addr) by by intros.
  revert H0. generalize (∅ : gmap Z SessionCipher). revert x c.
  induction deviceIds as [|id l IH]; intros x c acc Hacc; cbn [foldl].
  - apply Hacc.
  - apply IH. intros y c'. rewrite lookup_insert.
    case_decide; [by intros [= <-] | apply Hacc].
Qed.

Lemma within_processPreKey key device :
  within addr (processPreKey env addr key device).
Proof.
  intros w. unfold processPreKey.
  destruct (builder_processPreKey env w addr key device); cbn [snd].
  - apply rtc_once. by constructor.
  - eapply rtc_l;
      [by apply (step_log addr (ProcessPreKey addr (deviceId device)))|].
    apply rtc_once, step_store.
Qed.

Lemma within_server_getKeys device :
  within addr (server_getKeys env addr device).
Proof.
  intros w. unfold server_getKeys.
  destruct (server_getKeysForAddr env w addr device); cbn [snd];
    apply rtc_once; by constructor.
Qed.

Lemma within_handleResult again updateDevices reentrant response :
  within addr again ->
  within addr (handleResult env again addr updateDevices reentrant response).
Proof.
  intros Hagain. unfold handleResult.
  apply within_bind; [|intros ?; apply within_ret].
  apply within_promiseAll, Forall_fmap, Forall_forall. intros d _. cbn.
  unfold handleDevice.
  destruct (match updateDevices with
            | None => true | Some l => bool_decide (deviceId d ∈ l)
            end); [|apply within_ret].
  apply within_bind; [apply within_try, within_processPreKey|].
  intros [?|e]; [apply within_ret|].
  destruct (String.eqb _ _); [|apply within_throw].
  destruct reentrant; cbn [negb]; [apply within_throw|].
  apply within_bind; [by apply within_logAction | by intros _].
Qed.

Lemma within_getKeysForAddr_body handle updateDevices :
  (forall r, within addr (handle r)) ->
  within addr (getKeysForAddr_body env handle addr updateDevices).
Proof.
  intros Hh. destruct updateDevices as [l|]; cbn [getKeysForAddr_body].
  - unfold getKeysForAddr_loop. apply within_forEach. intros d.
    unfold getKeysForDevice. apply within_bind.
    + apply within_try, within_bind; [apply within_server_getKeys | apply Hh].
    + intros [?|e]; [apply within_ret|].
      destruct (_ && _);
        [apply within_removeDeviceIdsForAddr | apply within_throw].
  - apply within_bind; [apply within_server_getKeys | apply Hh].
Qed.

Lemma within_getKeysForAddr updateDevices reentrant :
  within addr (getKeysForAddr env addr updateDevices reentrant).
Proof.
  unfold getKeysForAddr, handlerOf.
  apply within_getKeysForAddr_body. intros r. destruct reentrant.
  - apply within_handleResult, within_ret.
  - apply within_handleResult, within_getKeysForAddr_body.
    intros r'. apply within_handleResult, within_ret.
Qed.

Lemma within_encryptAll deviceIds buf :
  within addr (encryptAll env addr deviceIds buf).
Proof.
  unfold encryptAll. apply within_promiseAll, Forall_fmap, Forall_forall.
  intros id _. cbn. unfold encryptToDevice.
  apply within_bind; [|intros ?; apply within_ret].
  intros w. unfold encrypt. cbn [cipher_addr cipher_deviceId].
  destruct (cipher_encrypt env w addr id buf); cbn [snd];
    apply rtc_once; by constructor.
Qed.

Lemma within_transmitMessage jsonData ts :
  within addr (transmitMessage env addr jsonData ts).
Proof.
  unfold transmitMessage. apply within_bind.
  - apply within_try. intros w. unfold server_send. cbv zeta.
    destruct (server_sendMessages env w addr jsonData ts); cbn [snd];
      apply rtc_once; by constructor.
  - intros [?|e]; [apply within_ret|].
    destruct e; try apply within_throw.
    destruct (_ && _); [|apply within_throw].
    destruct (_ =? _); apply within_throw.
Qed.

Lemma within_reload doSend recurse :
  (forall ids r, within addr (doSend addr ids r)) ->
  within addr (reloadDevicesAndSend_with doSend addr recurse).
Proof.
  intros H. unfold reloadDevicesAndSend_with.
  apply within_bind; [apply within_gets|]. intros ids.
  apply within_bind.
  - destruct (bool_decide _); [|apply within_ret].
    apply within_bind; [apply within_gets|]. intros our.
    destruct (String.eqb _ _); [|apply within_ret].
    apply within_bind; [apply within_emitSent | intros; apply within_ret].
  - intros [|]; [apply H | apply within_ret].
Qed.

Lemma within_doSendMessage_with reload deviceIds recurse :
  (forall r, within addr (reload addr r)) ->
  within addr
    (doSendMessage_with env timestamp messageBuffer reload addr deviceIds
       recurse).
Proof.
  intros Hreload. unfold doSendMessage_with.
  destruct (paddedBuf messageBuffer) as [padded|]; [|apply within_throw].
  apply within_bind; [apply within_try, within_encryptAll|].
  intros [messages|e]; [|apply within_emitError].
  apply within_bind; [apply within_try, within_transmitMessage|].
  intros [?|e]; [apply within_emitSent|].
  destruct e as [m|code resp| | | |]; try apply within_emitError.
  destruct (_ || _); [|apply within_emitError].
  destruct recurse; cbn [negb]; [|apply within_emitError].
  unfold reconcile. apply within_bind.
  { destruct (code =? 409); [apply within_removeDeviceIdsForAddr|].
    apply within_closeStale, ciphersFor_addr. }
  intros _. apply within_bind; [apply within_getKeysForAddr|].
  intros _. apply within_bind; [apply within_try, Hreload|].
  intros [?|e]; [apply within_emitSent | apply within_emitError].
Qed.

Lemma within_doSendMessage fuel deviceIds recurse :
  within addr
    (doSendMessage env timestamp messageBuffer fuel addr deviceIds recurse).
Proof.
  revert deviceIds recurse.
  induction fuel as [|fuel IH]; intros deviceIds recurse; cbn [doSendMessage].
  - intros w. apply rtc_refl.
  - apply within_doSendMessage_with. intros r.
    apply within_reload. intros ids r'. apply IH.
Qed.

Lemma within_getStaleDeviceIdsForAddr :
  within addr (getStaleDeviceIdsForAddr addr).
Proof.
  intros w.
  destruct (logs_getStaleDeviceIdsForAddr (fun _ => False) addr w)
    as (l & E & F).
  assert ((getStaleDeviceIdsForAddr addr w).2 = w) as ->; [|apply rtc_refl].
  clear. unfold getStaleDeviceIdsForAddr. rewrite bind_unfold.
  unfold getDeviceIds, gets. rewrite bind_unfold.
  set (ids := deviceIdsOf addr (sessions w)).
  assert (Hc : forall l acc, (collectStale addr l acc w).2 = w).
  { induction l as [|id l IH]; intros acc; cbn [collectStale]; [done|].
    rewrite bind_unfold. unfold hasOpenSession, gets.
    destruct (negb _); apply IH. }
  destruct (bool_decide (ids = [])); [|apply Hc].
  rewrite bind_unfold. unfold getState_addr, gets.
  destruct (negb _); apply Hc.
Qed.

Lemma within_sendToAddr fuel :
  within addr (sendToAddr env timestamp messageBuffer fuel addr).
Proof.
  unfold sendToAddr.
  apply within_bind; [apply within_try, within_getStaleDeviceIdsForAddr|].
  intros r. apply within_bind.
  { destruct r; [apply within_ret|].
    apply within_bind; [apply within_emitError | intros; apply within_ret]. }
  intros updateDevices.
  apply within_bind; [apply within_try, within_getKeysForAddr|].
  intros r2. apply within_bind.
  { destruct r2; [apply within_ret | apply within_emitError]. }
  intros _. apply within_bind.
  - apply within_try. unfold reloadDevicesAndSend. apply within_reload.
    intros ids r'. apply within_doSendMessage.
  - intros [?|e]; [apply within_ret | apply within_emitError].
Qed.

Lemma steps_frame w w' :
  rtc (step addr) w w' ->
  ourAddr w' = ourAddr w /\
  forall a d, a <> addr -> sessions w' !! (a, d) = sessions w !! (a, d).
Proof.
  induction 1 as [w|w w1 w2 Hs _ [IH1 IH2]]; [done|].
  rewrite IH1. split.
  - by destruct Hs.
  - intros a d Ha. rewrite (IH2 a d Ha).
    destruct Hs; cbn [sessions with_sessions with_log push_sent push_error];
      try done.
    + apply lookup_insert_ne. congruence.
    + apply lookup_delete_ne. congruence.
    + apply lookup_alter_ne. congruence.
Qed.

Lemma steps_journals w w' :
  rtc (step addr) w w' ->
  exists s e,
    sent w' = sent w ++ s /\ errors w' = errors w ++ e /\
    Forall (fun x => sent_addr x = addr) s /\
    Forall (fun x => error_addr x = addr) e.
Proof.
  induction 1 as [w|w w1 w2 Hs _ (s & e & E1 & E2 & F1 & F2)].
  - exists [], []. by rewrite !app_nil_r.
  - destruct Hs; cbn [sent errors with_sessions with_log push_sent push_error]
      in E1, E2; try by (exists s, e).
    + exists ({| sent_addr := addr |} :: s), e.
      rewrite E1, <- app_assoc. repeat split; try done. by constructor.
    + eexists s, (_ :: e).
      rewrite E2, <- app_assoc. repeat split; try done. by constructor.
Qed.

Lemma steps_log w w' :
  rtc (step addr) w w' ->
  exists l, log w' = log w ++ l /\ Forall (aboutAddr addr) l.
Proof.
  induction 1 as [w|w w1 w2 Hs _ (l & E & F)].
  - exists []. by rewrite app_nil_r.
  - destruct Hs; cbn [log with_sessions with_log push_sent push_error] in E;
      try by (exists l).
    exists (a :: l). rewrite E, <- app_assoc. split; [done | by constructor].
Qed.

End FootprintFacts.

Section FootprintTheorems.
Import OutgoingMessage OutgoingFacts Footprint Scenario.

(** A send to [addr] leaves the own address of the process state and the
    sessions of every other address as they were. *)
Theorem sendToAddr_frame env timestamp messageBuffer fuel (addr a : string)
    (d : Z) w :
  a <> addr ->
  ourAddr (sendToAddr env timestamp messageBuffer fuel addr w).2
  = ourAddr w /\
  sessions (sendToAddr env timestamp messageBuffer fuel addr w).2
    !! (a, d)
  = sessions w !! (a, d).
Proof.
  intros Ha.
  destruct (steps_frame addr _ _
              (within_sendToAddr env timestamp messageBuffer addr fuel w))
    as [H1 H2].
  split; [done | by apply H2].
Qed.

Lemma sendToAddr_frame_witness :
  "bob" <> "alice" /\
  ourAddr (sendToAddr staleOnce 1000 hi 3
             "alice" alice1).2 = "me" /\
  sessions (sendToAddr staleOnce 1000 hi 3
              "alice" alice1).2 !! ("bob", 1)
  = sessions alice1 !! ("bob", 1).
Proof.
  split; [discriminate|].
  apply (sendToAddr_frame staleOnce 1000 hi 3 "alice" "bob"
           1 alice1).
  discriminate.
Defined.

(** The journals of a message only grow, and every entry that a send to
    [addr] appends mentions [addr]. *)
Theorem sendToAddr_journals env timestamp messageBuffer fuel addr w :
  exists s e,
    sent (sendToAddr env timestamp messageBuffer fuel addr w).2
    = sent w ++ s /\
    errors (sendToAddr env timestamp messageBuffer fuel addr w).2
    = errors w ++ e /\
    Forall (fun x => sent_addr x = addr) s /\
    Forall (fun x => error_addr x = addr) e.
Proof. apply steps_journals, within_sendToAddr. Qed.

(** Every call that a send to [addr] makes to the service, to the session
    primitives and to the store, and every event it emits, names [addr]. *)
Theorem sendToAddr_calls_about_addr env timestamp messageBuffer fuel addr w :
  exists l,
    log (sendToAddr env timestamp messageBuffer fuel addr w).2
    = log w ++ l /\
    Forall (aboutAddr addr) l.
Proof. apply steps_log, within_sendToAddr. Qed.

End FootprintTheorems.

(** ** One attempt of a send *)

Section AttemptFacts.
Import OutgoingMessage OutgoingFacts Scenario.

(** [transmitMessage] calls the service once. A 404 leaves it as an
    [UnregisteredUserError], every other protocol error but 409 and 410 as
    a [SendMessageError]: the only protocol errors that bubble out of it
    are 409 and 410. *)
Theorem transmitMessage_outcome env addr jsonData ts w :
  (transmitMessage env addr jsonData ts w).2
  = with_log (SendMessages addr jsonData ts
                (server_sendMessages env w addr jsonData ts)) w /\
  (server_sendMessages env w addr jsonData ts = None <->
   (transmitMessage env addr jsonData ts w).1 = Ok tt) /\
  (forall code resp,
      (transmitMessage env addr jsonData ts w).1
      = Exn (ProtocolError code resp) ->
      (code = 409 \/ code = 410) /\
      server_sendMessages env w addr jsonData ts
      = Some (ProtocolError code resp)) /\
  (forall resp,
      server_sendMessages env w addr jsonData ts
      = Some (ProtocolError 404 resp) ->
      (transmitMessage env addr jsonData ts w).1
      = Exn (UnregisteredUserError addr (ProtocolError 404 resp))).
Proof.
  unfold transmitMessage. rewrite bind_unfold. unfold try_, server_send.
  cbv zeta.
  destruct (server_sendMessages env w addr jsonData ts) as [e|]; [|done].
  destruct e as [m|code resp| | | |];
    try (split; [done|]; split; [done|]; split; [done|]; by intros resp' [=]).
  destruct (Z.eqb_spec code 409) as [->|H409].
  { split; [done|]. split; [done|]. split; [|done].
    intros ? ? [= <- <-]. auto. }
  destruct (Z.eqb_spec code 410) as [->|H410].
  { split; [done|]. split; [done|]. split; [|done].
    intros ? ? [= <- <-]. auto. }
  cbn [negb andb].
  destruct (Z.eqb_spec code 404) as [->|H404];
    (split; [done|]; split; [done|]; split; [done|]).
  - by intros resp' [= ->].
  - intros resp' [= ? ?]. congruence.
Qed.



(** A failed encryption is terminal: the error is journaled as "Failed to
    create message" and nothing is transmitted. *)
Theorem doSendMessage_encrypt_failure env timestamp messageBuffer fuel addr
    (deviceIds : list Z) recurse padded e w w1 :
  paddedBuf messageBuffer = Return padded ->
  encryptAll env addr deviceIds padded w = (Exn e, w1) ->
  doSendMessage env timestamp messageBuffer (S fuel) addr deviceIds recurse w
  = emitError addr "Failed to create message" e w1 /\
  sends (doSendMessage env timestamp messageBuffer (S fuel) addr deviceIds
           recurse w).2 = sends w.
Proof.
  intros Hpad Henc.
  assert (E : doSendMessage env timestamp messageBuffer (S fuel) addr
                deviceIds recurse w
              = emitError addr "Failed to create message" e w1).
  { cbn [doSendMessage]. unfold doSendMessage_with. rewrite Hpad.
    rewrite bind_unfold. unfold try_ at 1. by rewrite Henc. }
  split; [done|]. rewrite E.
  destruct (quiet_emitError addr "Failed to create message" e w1) as [-> _].
  destruct (quiet_of_logs _ (logs_encryptAll (fun a => isSend a = false)
                               ltac:(by intros []) env addr deviceIds padded)
              w) as [H _].
  by rewrite Henc in H.
Qed.

Lemma doSendMessage_encrypt_failure_witness :
  errors (doSendMessage accepting 1000 hi 1 "alice" [2] true alice1).2
  = [ {| error_addr := "alice"; error_reason := "Failed to create message";
         error := Error "No open session" |} ] /\
  sends (doSendMessage accepting 1000 hi 1 "alice" [2] true alice1).2 = 0%nat.
Proof.
  destruct (doSendMessage_encrypt_failure accepting 1000 hi 0 "alice" [2] true
              (hi ++ x80 :: replicate 156 x00) (Error "No open session")
              alice1
              (with_log (Encrypt "alice" 2 (hi ++ x80 :: replicate 156 x00))
                 alice1)
              ltac:(by vm_compute) ltac:(by vm_compute)) as [-> _].
  by vm_compute.
Defined.

(** The attempt that the service accepts at once. *)
Lemma doSendMessage_ok env timestamp messageBuffer fuel addr
    (deviceIds : list Z) recurse padded messages w w1 :
  paddedBuf messageBuffer = Return padded ->
  encryptAll env addr deviceIds padded w = (Ok messages, w1) ->
  server_sendMessages env w1 addr messages timestamp = None ->
  doSendMessage env timestamp messageBuffer (S fuel) addr deviceIds recurse w
  = (Ok tt,
     with_log (EmitSent {| sent_addr := addr |})
       (push_sent {| sent_addr := addr |}
          (with_log (SendMessages addr messages timestamp None) w1))).
Proof.
  intros Hpad Henc Hsend.
  cbn [doSendMessage]. unfold doSendMessage_with. rewrite Hpad.
  rewrite bind_unfold. unfold try_ at 1. rewrite Henc.
  rewrite bind_unfold. unfold try_ at 1, transmitMessage.
  rewrite bind_unfold. unfold try_ at 1, server_send. cbv zeta.
  by rewrite Hsend.
Qed.

(** The plain attempt: when every encryption succeeds and the service
    answers 200, the attempt is one transmit of the ciphertexts and one
    [sent] entry for the address; the [errors] journal is not touched. *)
Theorem doSendMessage_accepted env timestamp messageBuffer fuel addr
    (deviceIds : list Z) recurse padded messages w w1 :
  paddedBuf messageBuffer = Return padded ->
  encryptAll env addr deviceIds padded w = (Ok messages, w1) ->
  server_sendMessages env w1 addr messages timestamp = None ->
  doSendMessage env timestamp messageBuffer (S fuel) addr deviceIds recurse w
  = (Ok tt,
     with_log (EmitSent {| sent_addr := addr |})
       (push_sent {| sent_addr := addr |}
          (with_log (SendMessages addr messages timestamp None) w1))).
Proof. intros. eapply doSendMessage_ok; eassumption. Qed.

Lemma doSendMessage_accepted_witness :
  doSendMessage accepting 1000 hi 1 "alice" [1] true alice1
  = (Ok tt,
     with_log (EmitSent {| sent_addr := "alice" |})
       (push_sent {| sent_addr := "alice" |}
          (with_log (SendMessages "alice" [toAlice1] 1000 None)
             (with_log (Encrypt "alice" 1 (hi ++ x80 :: replicate 156 x00))
                alice1)))).
Proof.
  apply (doSendMessage_accepted accepting 1000 hi 0 "alice" [1] true
           (hi ++ x80 :: replicate 156 x00) [toAlice1] alice1); by vm_compute.
Defined.

(** A 404 to the transmit is terminal: it is journaled as an
    [UnregisteredUserError] (not wrapped), with no retry, whatever
    [recurse] says. *)
Theorem doSendMessage_unregistered env timestamp messageBuffer fuel addr
    (deviceIds : list Z) recurse padded messages resp w w1 :
  paddedBuf messageBuffer = Return padded ->
  encryptAll env addr deviceIds padded w = (Ok messages, w1) ->
  server_sendMessages env w1 addr messages timestamp
  = Some (ProtocolError 404 resp) ->
  doSendMessage env timestamp messageBuffer (S fuel) addr deviceIds recurse w
  = (Ok tt,
     with_log
       (EmitError {| error_addr := addr;
                     error_reason := "Failed to send message";
                     error := UnregisteredUserError addr
                                (ProtocolError 404 resp) |})
       (push_error {| error_addr := addr;
                      error_reason := "Failed to send message";
                      error := UnregisteredUserError addr
                                 (ProtocolError 404 resp) |}
          (with_log (SendMessages addr messages timestamp
                       (Some (ProtocolError 404 resp))) w1))).
Proof.
  intros Hpad Henc Hsend.
  cbn [doSendMessage]. unfold doSendMessage_with. rewrite Hpad.
  rewrite bind_unfold. unfold try_ at 1. rewrite Henc.
  rewrite bind_unfold. unfold try_ at 1, transmitMessage.
  rewrite bind_unfold. unfold try_ at 1, server_send. cbv zeta.
  by rewrite Hsend.
Qed.

Lemma doSendMessage_unregistered_witness :
  doSendMessage (scripted (fun _ => Some Scenario2.notFound)) 1000 hi 1 "alice"
    [1] true alice1
  = (Ok tt,
     with_log
       (EmitError {| error_addr := "alice";
                     error_reason := "Failed to send message";
                     error := UnregisteredUserError "alice"
                                Scenario2.notFound |})
       (push_error {| error_addr := "alice";
                      error_reason := "Failed to send message";
                      error := UnregisteredUserError "alice"
                                 Scenario2.notFound |}
          (with_log (SendMessages "alice" [toAlice1] 1000
                       (Some Scenario2.notFound))
             (with_log (Encrypt "alice" 1 (hi ++ x80 :: replicate 156 x00))
                alice1)))).
Proof.
  apply (doSendMessage_unregistered
           (scripted (fun _ => Some Scenario2.notFound)) 1000 hi 0 "alice" [1]
           true (hi ++ x80 :: replicate 156 x00) [toAlice1]
           {| extraDevices := []; missingDevices := []; staleDevices := [] |}
           alice1); by vm_compute.
Defined.

End AttemptFacts.

(** ** Stored devices *)

Section DeviceFacts.
Import OutgoingMessage OutgoingFacts Scenario.

(** The stored device ids of an address are the devices with a session
    record. *)
Lemma elem_of_deviceIdsOf (addr : string) (m : gmap (string * Z) bool) (d : Z) :
  d ∈ deviceIdsOf addr m <-> is_Some (m !! (addr, d)).
Proof.
  unfold deviceIdsOf. rewrite merge_sort_Permutation.
  rewrite list_elem_of_fmap. split.
  - intros ([a d'] & -> & H). apply elem_of_elements, elem_of_filter in H.
    destruct H as [Ha H]. cbn in Ha. subst a. by apply elem_of_dom.
  - intros H. exists (addr, d). split; [done|].
    apply elem_of_elements, elem_of_filter. split; [done|].
    by apply elem_of_dom.
Qed.

Lemma collectStale_eq addr (ids acc : list Z) w :
  collectStale addr ids acc w
  = (Ok (acc ++ List.filter
                  (fun id => negb (default false (sessions w !! (addr, id))))
                  ids), w).
Proof.
  revert acc. induction ids as [|id ids IH]; intros acc; cbn [collectStale].
  - cbn. by rewrite app_nil_r.
  - rewrite bind_unfold. unfold hasOpenSession, gets. cbn [List.filter].
    destruct (negb _); rewrite IH; [|done]. by rewrite <- app_assoc.
Qed.

(** What the stale scan answers. *)
Lemma getStaleDeviceIdsForAddr_spec (addr : string) (w : World) :
  exists updateDevices,
    getStaleDeviceIdsForAddr addr w = (Ok updateDevices, w) /\
    forall id,
      id ∈ updateDevices <->
      (id ∈ (if bool_decide (deviceIdsOf addr (sessions w) = [])
                && negb (String.eqb addr (ourAddr w))
             then [1] else deviceIdsOf addr (sessions w))) /\
      sessions w !! (addr, id) <> Some true.
Proof.
  unfold getStaleDeviceIdsForAddr. rewrite bind_unfold.
  unfold getDeviceIds, gets. rewrite bind_unfold.
  set (ids := deviceIdsOf addr (sessions w)).
  set (cands := if bool_decide (ids = []) && negb (String.eqb addr (ourAddr w))
                then [1] else ids).
  assert (E : (if bool_decide (ids = [])
               then ourAddr ← getState_addr;
                    if negb (String.eqb addr ourAddr)
                    then mret (ids ++ [1]) else mret ids
               else mret ids) w = (Ok cands, w)).
  { subst cands. destruct (bool_decide (ids = [])) eqn:Eb; [|done].
    apply bool_decide_eq_true in Eb. rewrite Eb.
    rewrite bind_unfold. unfold getState_addr, gets.
    by destruct (negb _). }
  rewrite E, collectStale_eq. eexists. split; [reflexivity|].
  intros id. cbn [app]. rewrite list_elem_of_In, List.filter_In.
  rewrite <- list_elem_of_In.
  destruct (sessions w !! (addr, id)) as [[|]|]; cbn; intuition congruence.
Qed.

(** The stale scan only reads: it returns, leaves the world as it is, and
    answers the candidates that have no open session, where the
    candidates are the stored device ids, or device 1 alone when nothing
    is stored for an address that is not our own. *)
Theorem getStaleDeviceIdsForAddr_reads (addr : string) (w : World) :
  exists updateDevices,
    getStaleDeviceIdsForAddr addr w = (Ok updateDevices, w) /\
    forall id,
      id ∈ updateDevices <->
      (id ∈ (if bool_decide (deviceIdsOf addr (sessions w) = [])
                && negb (String.eqb addr (ourAddr w))
             then [1] else deviceIdsOf addr (sessions w))) /\
      sessions w !! (addr, id) <> Some true.
Proof. apply getStaleDeviceIdsForAddr_spec. Qed.

(** What [removeDeviceIdsForAddr] does to the log and to the store. *)
Lemma removeDeviceIdsForAddr_spec (addr : string) (ids : list Z) (w : World) :
  exists w',
    removeDeviceIdsForAddr addr ids w = (Ok tt, w') /\
    removals (log w') = removals (log w) ++ (encodeAddr addr <$> ids) /\
    forall d, d ∈ deviceIdsOf addr (sessions w') <->
              d ∈ deviceIdsOf addr (sessions w) /\ d ∉ ids.
Proof.
  unfold removeDeviceIdsForAddr. revert w.
  induction ids as [|id ids IH]; intros w; cbn [forEach].
  - exists w. split; [done|]. split; [by rewrite app_nil_r|].
    intros d. rewrite elem_of_nil. tauto.
  - rewrite bind_unfold. unfold removeSession at 1. rewrite bind_unfold.
    cbn [logAction modify fst snd].
    destruct (IH (with_sessions (delete (addr, id))
                    (with_log (RemoveSession (encodeAddr addr id)) w)))
      as (w' & E & Hr & Hd).
    exists w'. split; [exact E|]. split.
    + rewrite Hr. cbn [log with_sessions with_log].
      unfold removals. rewrite omap_app. cbn. by rewrite <- app_assoc.
    + intros d. rewrite Hd, !elem_of_deviceIdsOf.
      cbn [sessions with_sessions with_log].
      rewrite not_elem_of_cons, lookup_delete.
      case_decide as Hk.
      * injection Hk as <-. split; [by intros [[? ?] _] | tauto].
      * assert (d <> id) by congruence. tauto.
Qed.

(** [removeDeviceIdsForAddr] calls [storage.removeSession] once per id, in
    order, with the encoded address; afterwards the stored device ids of
    the address are the former ones but the removed. *)
Theorem removeDeviceIdsForAddr_effect (addr : string) (ids : list Z) (w : World) :
  exists w',
    removeDeviceIdsForAddr addr ids w = (Ok tt, w') /\
    removals (log w') = removals (log w) ++ (encodeAddr addr <$> ids) /\
    forall d, d ∈ deviceIdsOf addr (sessions w') <->
              d ∈ deviceIdsOf addr (sessions w) /\ d ∉ ids.
Proof. apply removeDeviceIdsForAddr_spec. Qed.

End DeviceFacts.

(** ** Whole sends *)

Section SendFacts.
Import OutgoingMessage OutgoingFacts Scenario Scenario2.

Lemma getKeysForAddr_nil env addr reentrant w :
  getKeysForAddr env addr (Some []) reentrant w = (Ok tt, w).
Proof. reflexivity. Qed.

(** The plain send: when every stored device of the address has an open
    session, every encryption succeeds and the service answers 200,
    [sendToAddr] fetches no key, transmits once and journals one [sent]
    entry. *)
Theorem sendToAddr_plain env timestamp messageBuffer fuel (addr : string)
    padded messages (w w1 : World) :
  deviceIdsOf addr (sessions w) <> [] ->
  (forall id, id ∈ deviceIdsOf addr (sessions w) ->
              sessions w !! (addr, id) = Some true) ->
  paddedBuf messageBuffer = Return padded ->
  encryptAll env addr (deviceIdsOf addr (sessions w)) padded w
  = (Ok messages, w1) ->
  server_sendMessages env w1 addr messages timestamp = None ->
  sendToAddr env timestamp messageBuffer (S fuel) addr w
  = (Ok tt,
     with_log (EmitSent {| sent_addr := addr |})
       (push_sent {| sent_addr := addr |}
          (with_log (SendMessages addr messages timestamp None) w1))).
Proof.
  intros Hne Hopen Hpad Henc Hsend.
  destruct (getStaleDeviceIdsForAddr_spec addr w) as (l & E & Hl).
  assert (l = []) as ->.
  { destruct l as [|id l]; [done|]. exfalso.
    destruct (proj1 (Hl id) ltac:(left)) as [Hin Hno].
    rewrite bool_decide_eq_false_2 in Hin by done. cbn [andb] in Hin.
    by apply Hno, Hopen. }
  unfold sendToAddr. rewrite bind_unfold. unfold try_ at 1. rewrite E.
  rewrite bind_unfold. cbn [mret M_ret].
  rewrite bind_unfold. unfold try_ at 1. rewrite getKeysForAddr_nil.
  rewrite bind_unfold. cbn [mret M_ret].
  rewrite bind_unfold. unfold try_ at 1.
  unfold reloadDevicesAndSend, reloadDevicesAndSend_with.
  rewrite bind_unfold. unfold getDeviceIds, gets.
  rewrite bool_decide_eq_false_2 by done.
  rewrite bind_unfold. cbn [mret M_ret].
  by rewrite (doSendMessage_ok _ _ _ _ _ _ _ _ _ _ _ Hpad Henc Hsend).
Qed.

Lemma sendToAddr_plain_witness :
  sendToAddr accepting 1000 hi 1 "alice" alice1
  = (Ok tt,
     with_log (EmitSent {| sent_addr := "alice" |})
       (push_sent {| sent_addr := "alice" |}
          (with_log (SendMessages "alice" [toAlice1] 1000 None)
             (with_log (Encrypt "alice" 1 (hi ++ x80 :: replicate 156 x00))
                alice1)))).
Proof.
  apply (sendToAddr_plain accepting 1000 hi 0 "alice"
           (hi ++ x80 :: replicate 156 x00) [toAlice1] alice1).
  - by vm_compute.
  - intros id Hid.
    assert (deviceIdsOf "alice" (sessions alice1) = [1]) as E by by vm_compute.
    rewrite E in Hid. apply list_elem_of_singleton in Hid. by subst id.
  - by vm_compute.
  - by vm_compute.
  - by vm_compute.
Defined.

(** A peer without any stored device whose primary prekey fetch fails (a
    404 as well as any other failure) gets one [errors] entry that holds
    the failure, and no transmit is attempted. *)
Theorem sendToAddr_fetch_failure env timestamp messageBuffer fuel
    (addr : string) e (w : World) :
  deviceIdsOf addr (sessions w) = [] ->
  addr <> ourAddr w ->
  server_getKeysForAddr env w addr (Some 1) = Throw e ->
  sendToAddr env timestamp messageBuffer fuel addr w
  = emitError addr ("Failed to retrieve new device keys for address " +:+ addr)
      e (with_log (GetKeysForAddr addr (Some 1)) w) /\
  sends (sendToAddr env timestamp messageBuffer fuel addr w).2 = sends w.
Proof.
  intros Hnil Hother Hfetch.
  assert (E : sendToAddr env timestamp messageBuffer fuel addr w
              = emitError addr
                  ("Failed to retrieve new device keys for address " +:+ addr)
                  e (with_log (GetKeysForAddr addr (Some 1)) w)).
  { unfold sendToAddr. rewrite bind_unfold. unfold try_ at 1.
    rewrite (getStaleDeviceIdsForAddr_default addr w Hnil Hother).
    rewrite bind_unfold. cbn [mret M_ret].
    rewrite bind_unfold. unfold try_ at 1.
    unfold getKeysForAddr. cbn [getKeysForAddr_body].
    unfold getKeysForAddr_loop. cbn [forEach]. rewrite bind_unfold.
    unfold getKeysForDevice at 1. rewrite bind_unfold.
    unfold try_ at 1. rewrite bind_unfold.
    unfold server_getKeys at 1. rewrite Hfetch.
    cbn [Z.eqb Pos.eqb negb]. rewrite andb_false_r.
    unfold throw at 1. rewrite bind_unfold.
    set (reason := "Failed to retrieve new device keys for address " +:+ addr).
    set (w1 := with_log (GetKeysForAddr addr (Some 1)) w).
    destruct (emitError addr reason e w1) as [[[]|?|] w2] eqn:Ee;
      [|done..].
    assert (sessions w2 = sessions w /\ ourAddr w2 = ourAddr w) as [Hs Ho].
    { revert Ee. unfold emitError. rewrite bind_unfold. cbn.
      by intros [= <-]. }
    rewrite bind_unfold. unfold try_ at 1.
    unfold reloadDevicesAndSend, reloadDevicesAndSend_with.
    rewrite bind_unfold. unfold getDeviceIds, gets. rewrite Hs, Hnil.
    rewrite bool_decide_eq_true_2 by done.
    rewrite !bind_unfold. unfold getState_addr, gets. rewrite Ho.
    apply String.eqb_neq in Hother. by rewrite Hother. }
  split; [done|]. rewrite E.
  destruct (quiet_emitError addr
              ("Failed to retrieve new device keys for address " +:+ addr)
              e (with_log (GetKeysForAddr addr (Some 1)) w)) as [-> _].
  unfold sends. cbn [log with_log]. rewrite count_snoc. cbn [isSend]. lia.
Qed.

Lemma sendToAddr_fetch_failure_witness :
  sendToAddr bobLostDevice1 1000 hi 3 "bob" (world "me" ∅)
  = (Ok tt,
     with_log
       (EmitError
          {| error_addr := "bob";
             error_reason :=
               "Failed to retrieve new device keys for address bob";
             error := notFound |})
       (push_error
          {| error_addr := "bob";
             error_reason :=
               "Failed to retrieve new device keys for address bob";
             error := notFound |}
          (with_log (GetKeysForAddr "bob" (Some 1)) (world "me" ∅)))).
Proof.
  refine (proj1 (sendToAddr_fetch_failure bobLostDevice1 1000 hi 3 "bob"
                   notFound (world "me" ∅) _ _ _)).
  - by vm_compute.
  - discriminate.
  - reflexivity.
Defined.

End SendFacts.

(** ** Reconciliation after a 409 *)

Section MismatchFacts.
Import OutgoingMessage OutgoingFacts Scenario.

Variable env : Env.
Variable addr : string.
Variable missing : list Z.
(** The service has a prekey bundle for each missing device, made of that
    one device, and the session builder accepts every bundle. *)
Hypothesis service_knows :
  forall w d, d ∈ missing ->
    exists r dev, server_getKeysForAddr env w addr (Some d) = Return r /\
                  devices r = [dev] /\ deviceId dev = d.
Hypothesis builder_accepts :
  forall w key dev, builder_processPreKey env w addr key dev = None.

Lemma getKeysForDevice_built reentrant d w :
  d ∈ missing ->
  getKeysForDevice env (handlerOf env addr (Some missing) reentrant) addr d w
  = (Ok tt,
     with_sessions (<[(addr, d) := true]>)
       (with_log (ProcessPreKey addr d)
          (with_log (GetKeysForAddr addr (Some d)) w))).
Proof.
  intros Hd. destruct (service_knows w d Hd) as (r & dev & Hr & Hdev & Hid).
  unfold getKeysForDevice. rewrite bind_unfold. unfold try_ at 1.
  rewrite bind_unfold. unfold server_getKeys at 1. rewrite Hr.
  assert (H : forall again re w1,
             handleResult env again addr (Some missing) re r w1
             = (Ok tt, with_sessions (<[(addr, d) := true]>)
                         (with_log (ProcessPreKey addr d) w1))).
  { intros again re w1. unfold handleResult. rewrite Hdev.
    cbn [fmap list_fmap promiseAll]. rewrite bind_unfold.
    unfold handleDevice. rewrite Hid.
    rewrite bool_decide_eq_true_2 by done.
    rewrite bind_unfold. unfold try_, processPreKey.
    by rewrite builder_accepts, Hid. }
  unfold handlerOf. destruct reentrant; by rewrite H.
Qed.

Lemma getKeysForAddr_loop_built reentrant (l : list Z) w :
  l ⊆ missing ->
  exists w',
    getKeysForAddr_loop env (handlerOf env addr (Some missing) reentrant)
      addr l w = (Ok tt, w') /\
    sessions w'
    = foldl (fun m d => <[(addr, d) := true]> m) (sessions w) l /\
    keyFetches (log w')
    = keyFetches (log w) ++ ((fun d => (addr, Some d)) <$> l) /\
    removals (log w') = removals (log w) /\
    sends w' = sends w.
Proof.
  unfold getKeysForAddr_loop. revert w.
  induction l as [|d l IH]; intros w Hsub; cbn [forEach].
  - exists w. by rewrite app_nil_r.
  - rewrite bind_unfold, getKeysForDevice_built by (apply Hsub; left).
    destruct (IH (with_sessions (<[(addr, d) := true]>)
                    (with_log (ProcessPreKey addr d)
                       (with_log (GetKeysForAddr addr (Some d)) w))))
      as (w' & E & Hs & Hk & Hr & Hn).
    { intros x Hx. apply Hsub. by right. }
    exists w'. split; [exact E|].
    rewrite Hs, Hk, Hr, Hn. unfold keyFetches, removals, sends.
    cbn [sessions log with_sessions with_log foldl].
    rewrite !omap_app, !count_snoc.
    cbn. repeat split.
    + by rewrite <- !app_assoc.
    + by rewrite !app_nil_r.
    + lia.
Qed.

Lemma lookup_built (m : gmap (string * Z) bool) (l : list Z) a d :
  foldl (fun m d => <[(addr, d) := true]> m) m l !! (a, d)
  = if bool_decide (a = addr /\ d ∈ l) then Some true else m !! (a, d).
Proof.
  revert m. induction l as [|x l IH]; intros m; cbn [foldl].
  - rewrite bool_decide_eq_false_2; [done|]. intros [_ H]. by inversion H.
  - rewrite IH. destruct (decide (a = addr /\ d ∈ l)) as [H|H].
    + rewrite !bool_decide_eq_true_2; [done| |done].
      destruct H. split; [done | by right].
    + rewrite (bool_decide_eq_false_2 _ H).
      destruct (decide ((addr, x) = (a, d))) as [[= <- <-]|Hne].
      * rewrite lookup_insert_eq, bool_decide_eq_true_2; [done|].
        split; [done | left].
      * rewrite lookup_insert_ne by done.
        rewrite bool_decide_eq_false_2; [done|].
        intros [-> Hin]. apply elem_of_cons in Hin as [->|Hin]; tauto.
Qed.

(** After a 409, [doSendMessage] removes the sessions of the extra
    devices, fetches prekeys for the missing devices only, and re-runs the
    send, with recursion still allowed, on a store whose devices for the
    address are the former ones but the extra, and the missing, each
    missing device with an open session. *)
Theorem doSendMessage_409 timestamp messageBuffer fuel
    (deviceIds : list Z) padded messages resp w w1 :
  paddedBuf messageBuffer = Return padded ->
  encryptAll env addr deviceIds padded w = (Ok messages, w1) ->
  server_sendMessages env w1 addr messages timestamp
  = Some (ProtocolError 409 resp) ->
  missingDevices resp = missing ->
  let w2 :=
    with_log (SendMessages addr messages timestamp
                (Some (ProtocolError 409 resp))) w1 in
  exists w3,
    doSendMessage env timestamp messageBuffer (S fuel) addr deviceIds true w
    = (try_ (reloadDevicesAndSend env timestamp messageBuffer fuel addr true)
       ≫= fun r => match r with
                   | Throw e => emitError addr "Failed to reload device keys" e
                   | Return _ => emitSent addr
                   end) w3 /\
    (forall d, d ∈ deviceIdsOf addr (sessions w3) <->
               (d ∈ deviceIdsOf addr (sessions w2) /\ d ∉ extraDevices resp)
               \/ d ∈ missing) /\
    (forall d, d ∈ missing -> sessions w3 !! (addr, d) = Some true) /\
    removals (log w3)
    = removals (log w2) ++ (encodeAddr addr <$> extraDevices resp) /\
    keyFetches (log w3)
    = keyFetches (log w2) ++ ((fun d => (addr, Some d)) <$> missing) /\
    sends w3 = sends w2.
Proof.
  intros Hpad Henc Hsend Hmiss w2.
  destruct (removeDeviceIdsForAddr_spec addr (extraDevices resp) w2)
    as (wr & Er & Hrem & Hids).
  destruct (getKeysForAddr_loop_built false missing wr ltac:(done))
    as (w3 & Ek & Hs & Hk & Hr & Hn).
  exists w3. split; [|split; [|split; [|split; [|split]]]].
  - cbn [doSendMessage]. unfold doSendMessage_with. rewrite Hpad.
    rewrite bind_unfold. unfold try_ at 1. rewrite Henc.
    rewrite bind_unfold. unfold try_ at 1, transmitMessage.
    rewrite bind_unfold. unfold try_ at 1, server_send. cbv zeta.
    rewrite Hsend. cbn [Z.eqb Pos.eqb negb andb orb].
    unfold throw at 1. cbn [Z.eqb Pos.eqb negb andb orb].
    unfold reconcile. cbn [Z.eqb Pos.eqb]. fold w2.
    rewrite bind_unfold, Er. rewrite bind_unfold.
    unfold getKeysForAddr. cbn [getKeysForAddr_body]. rewrite Hmiss.
    by rewrite Ek.
  - intros d. rewrite elem_of_deviceIdsOf, Hs, lookup_built.
    rewrite <- Hids, elem_of_deviceIdsOf.
    case_bool_decide as Hd; [|tauto].
    destruct Hd as [_ Hd]. split; [by right | by eauto].
  - intros d Hd. rewrite Hs, lookup_built.
    by rewrite bool_decide_eq_true_2.
  - by rewrite Hr.
  - rewrite Hk. f_equal.
    assert (Hq : logs (fun a => isKeyFetch a = false)
                   (removeDeviceIdsForAddr addr (extraDevices resp))).
    { apply logs_removeDeviceIdsForAddr. by intros []. }
    destruct (Hq w2) as (l & El & Fl). rewrite Er in El. cbn [snd] in El.
    rewrite El. unfold keyFetches. rewrite omap_app.
    rewrite <- (app_nil_r (omap _ (log w2))) at 2. f_equal.
    clear El. induction Fl as [|a l Ha _ IH]; [done|].
    by destruct a.
  - rewrite Hn.
    destruct (quiet_of_logs _
                (logs_removeDeviceIdsForAddr (fun a => isSend a = false)
                   ltac:(by intros []) addr (extraDevices resp)) w2) as [H _].
    by rewrite Er in H.
Qed.

End MismatchFacts.

Section MismatchWitness.
Import OutgoingMessage OutgoingFacts Scenario.

Lemma doSendMessage_409_witness :
  exists w3,
    doSendMessage growing 1000 hi 3 "alice" [1] true alice1
    = (try_ (reloadDevicesAndSend growing 1000 hi 2 "alice" true)
       ≫= fun r => match r with
                   | Throw e =>
                       emitError "alice" "Failed to reload device keys" e
                   | Return _ => emitSent "alice"
                   end) w3 /\
    (forall d, d ∈ [2] -> sessions w3 !! ("alice", d) = Some true).
Proof.
  destruct (doSendMessage_409 growing "alice" [2]
              ltac:(intros w d _; eexists _, _; split; [reflexivity|];
                    split; reflexivity)
              ltac:(reflexivity)
              1000 hi 2 [1] (hi ++ x80 :: replicate 156 x00) [toAlice1]
              {| extraDevices := []; missingDevices := [2];
                 staleDevices := [] |}
              alice1
              (with_log (Encrypt "alice" 1 (hi ++ x80 :: replicate 156 x00))
                 alice1)
              ltac:(by vm_compute) ltac:(by vm_compute) ltac:(by vm_compute)
              eq_refl)
    as (w3 & H1 & _ & H3 & _).
  exists w3. by split.
Defined.

End MismatchWitness.

(** ** Envelopes *)

Section EnvelopeFacts.
Import MessageReceiver IncomingScenario.

Variable env : Env.
Variable addr : string.
Variable deviceId : Z.

(** An envelope from a blocked source is dropped: nothing is decrypted,
    nothing is dispatched, whatever the envelope holds. *)
Theorem handleEnvelope_blocked envelope reentrant force (w : World) :
  source envelope ∈ blockedSet w ->
  handleEnvelope env addr deviceId envelope reentrant force w = (Return tt, w).
Proof.
  intros Hb. unfold handleEnvelope, handleEnvelope_with.
  rewrite rbind_unfold. unfold isBlocked, gets.
  by rewrite bool_decide_eq_true_2.
Qed.

(** The handler chosen for an envelope does not depend on the world and
    choosing it changes nothing. *)
Lemma selectHandler_world envelope w r w' :
  selectHandler env addr deviceId envelope w = (r, w') -> w' = w.
Proof.
  unfold selectHandler.
  repeat match goal with
         | |- context [bool_decide ?Q] => destruct (bool_decide Q)
         end; by intros [= _ <-].
Qed.

Lemma handleEnvelope_with_caught again envelope reentrant force handler
    e (w w1 : World) :
  source envelope ∉ blockedSet w ->
  selectHandler env addr deviceId envelope w = (Return handler, w) ->
  handler envelope w = (Throw e, w1) ->
  handleEnvelope_with env addr deviceId again envelope reentrant force w
  = handleFault env again envelope reentrant force e w1.
Proof.
  intros Hb Hs Hh. unfold handleEnvelope_with.
  rewrite rbind_unfold. unfold isBlocked, gets.
  rewrite bool_decide_eq_false_2 by done.
  rewrite rbind_unfold, Hs, rbind_unfold. unfold try_. by rewrite Hh.
Qed.

Lemma handleEnvelope_with_done again envelope reentrant force handler
    (w w1 : World) :
  source envelope ∉ blockedSet w ->
  selectHandler env addr deviceId envelope w = (Return handler, w) ->
  handler envelope w = (Return tt, w1) ->
  handleEnvelope_with env addr deviceId again envelope reentrant force w
  = (Return tt, w1).
Proof.
  intros Hb Hs Hh. unfold handleEnvelope_with.
  rewrite rbind_unfold. unfold isBlocked, gets.
  rewrite bool_decide_eq_false_2 by done.
  rewrite rbind_unfold, Hs, rbind_unfold. unfold try_. by rewrite Hh.
Qed.

(** A receipt is passed on as one [receipt] event that carries the
    envelope; its payload, if any, is not decrypted. *)
Theorem handleEnvelope_receipt envelope reentrant force (w : World) :
  source envelope ∉ blockedSet w ->
  type envelope = RECEIPT ->
  handleEnvelope env addr deviceId envelope reentrant force w
  = (Return tt, with_log (Dispatch (ReceiptEvent envelope)) w).
Proof.
  intros Hb Ht. unfold handleEnvelope.
  apply (handleEnvelope_with_done _ _ _ _ handleDeliveryReceipt); try done.
  unfold selectHandler. by rewrite bool_decide_eq_true_2.
Qed.

(** An envelope that is no receipt and has neither [content] nor
    [legacyMessage] makes [handleEnvelope] throw: the error leaves the
    method, no event is dispatched. *)
Theorem handleEnvelope_no_payload envelope reentrant force (w : World) :
  source envelope ∉ blockedSet w ->
  type envelope <> RECEIPT ->
  content envelope = None ->
  legacyMessage envelope = None ->
  handleEnvelope env addr deviceId envelope reentrant force w
  = (Throw (Error "Received message with no content and no legacyMessage"),
     w).
Proof.
  intros Hb Ht Hc Hl. unfold handleEnvelope, handleEnvelope_with.
  rewrite rbind_unfold. unfold isBlocked, gets.
  rewrite bool_decide_eq_false_2 by done.
  rewrite rbind_unfold. unfold selectHandler.
  rewrite bool_decide_eq_false_2 by done.
  rewrite Hc, Hl.
  by rewrite !bool_decide_eq_false_2 by (by intros [? ?]).
Qed.

(** A duplicate (the cipher raises [MessageCounterError]) is absorbed:
    [handleEnvelope] returns, and the call to the cipher is all that
    happened: no event, no recovery call. *)
Theorem handleEnvelope_duplicate envelope ciphertext e reentrant force
    (w w1 : World) :
  source envelope ∉ blockedSet w ->
  type envelope <> RECEIPT ->
  ciphertextOf envelope = Some ciphertext ->
  decrypt env envelope ciphertext w = (Throw e, w1) ->
  isMessageCounterError e = true ->
  handleEnvelope env addr deviceId envelope reentrant force w = (Return tt, w1) /\
  exists kind,
    w1 = with_log (Decrypt kind (source envelope) (sourceDevice envelope)
                     ciphertext) w.
Proof.
  intros Hb Ht Hc Hd He. split.
  - unfold handleEnvelope.
    rewrite (handleEnvelope_with_fault _ _ _ _ _ _ _ _ _ _ _ Hb Ht Hc Hd).
    unfold handleFault. by rewrite He.
  - revert Hd. unfold decrypt. rewrite rbind_unfold.
    destruct (type envelope); try (intros [= <- _]; done).
    + unfold call.
      destruct (decryptWhisperMessage env w _ _ _) as [buf|e'].
      * unfold unpadR. destruct (unpad buf) as [?|[|]]; intros [= <- _];
          done.
      * intros [= _ <-]. by exists WhisperMessage.
    + unfold call.
      destruct (decryptPreKeyWhisperMessage env w _ _ _) as [buf|e'].
      * unfold unpadR. destruct (unpad buf) as [?|[|]]; intros [= <- _];
          done.
      * intros [= _ <-]. by exists PreKeyWhisperMessage.
Qed.

(** The last branch of the [catch] of [handleEnvelope]. *)
Lemma handleEnvelope_rethrows envelope handler e reentrant force
    (w w1 : World) :
  source envelope ∉ blockedSet w ->
  selectHandler env addr deviceId envelope w = (Return handler, w) ->
  handler envelope w = (Throw e, w1) ->
  isMessageCounterError e = false ->
  isUntrustedIdentityKeyError e = false ->
  isSessionError e = false ->
  handleEnvelope env addr deviceId envelope reentrant force w
  = (Return tt, with_log (Dispatch (ErrorEvent e envelope)) w1).
Proof.
  intros Hb Hs Hh H1 H2 H3. unfold handleEnvelope.
  rewrite (handleEnvelope_with_caught _ _ _ _ _ _ _ _ Hb Hs Hh).
  unfold handleFault. rewrite H1, H2, H3. cbn [andb].
  by rewrite rbind_unfold.
Qed.

(** Whatever else a handler throws (an error of none of the libsignal
    classes that [handleEnvelope] tells apart) ends as one [error] event
    that carries the error and the envelope, after which [handleEnvelope]
    returns; no recovery call is made. *)
Theorem handleEnvelope_other_error envelope handler e reentrant force
    (w w1 : World) :
  source envelope ∉ blockedSet w ->
  selectHandler env addr deviceId envelope w = (Return handler, w) ->
  handler envelope w = (Throw e, w1) ->
  isMessageCounterError e = false ->
  isUntrustedIdentityKeyError e = false ->
  isSessionError e = false ->
  handleEnvelope env addr deviceId envelope reentrant force w
  = (Return tt, with_log (Dispatch (ErrorEvent e envelope)) w1).
Proof. intros. eapply handleEnvelope_rethrows; eassumption. Qed.

(** An envelope of a type other than CIPHERTEXT and PREKEY_BUNDLE with a
    [content] is not handed to the cipher: [decrypt] throws a TypeError,
    which ends as an [error] event. *)
Theorem handleEnvelope_unknown_type envelope c reentrant force (w : World) :
  source envelope ∉ blockedSet w ->
  type envelope = OTHER ->
  content envelope = Some c ->
  handleEnvelope env addr deviceId envelope reentrant force w
  = (Return tt,
     with_log (Dispatch (ErrorEvent (TypeError "Unknown message type")
                           envelope)) w).
Proof.
  intros Hb Ht Hc.
  apply (handleEnvelope_rethrows _ (handleContentMessage env addr deviceId));
    try done.
  - unfold selectHandler. rewrite Ht, Hc.
    rewrite bool_decide_eq_false_2 by done.
    by rewrite bool_decide_eq_true_2 by eauto.
  - unfold handleContentMessage, decrypt. by rewrite !rbind_unfold, Ht.
Qed.

End EnvelopeFacts.

Section EnvelopeWitnesses.
Import MessageReceiver IncomingScenario.

Lemma handleEnvelope_blocked_witness :
  "bob" ∈ ({["bob"]} : gset string) /\
  handleEnvelope (failing untrusted true) "me" 1 fromBob false false
    {| blockedSet := {["bob"]}; deviceIds := ∅; log := [] |}
  = (Return tt, {| blockedSet := {["bob"]}; deviceIds := ∅; log := [] |}).
Proof.
  split; [by apply elem_of_singleton|].
  apply handleEnvelope_blocked.
  change ("bob" ∈ ({["bob"]} : gset string)). by apply elem_of_singleton.
Defined.

Lemma handleEnvelope_receipt_witness :
  handleEnvelope (failing untrusted true) "me" 1
    {| type := RECEIPT; source := "bob"; sourceDevice := 2;
       timestamp := 1234; content := Some [x01]; legacyMessage := None;
       keyChange := false |} false false emptyWorld
  = (Return tt,
     with_log
       (Dispatch
          (ReceiptEvent
             {| type := RECEIPT; source := "bob"; sourceDevice := 2;
                timestamp := 1234; content := Some [x01];
                legacyMessage := None; keyChange := false |}))
       emptyWorld).
Proof.
  apply handleEnvelope_receipt; [apply not_elem_of_empty | reflexivity].
Defined.

Lemma handleEnvelope_no_payload_witness :
  handleEnvelope (failing untrusted true) "me" 1
    {| type := CIPHERTEXT; source := "bob"; sourceDevice := 2;
       timestamp := 1234; content := None; legacyMessage := None;
       keyChange := false |} false false emptyWorld
  = (Throw (Error "Received message with no content and no legacyMessage"),
     emptyWorld).
Proof.
  apply handleEnvelope_no_payload;
    [apply not_elem_of_empty | discriminate | reflexivity | reflexivity].
Defined.

Lemma handleEnvelope_duplicate_witness :
  handleEnvelope (failing (MessageCounterError "dup") true) "me" 1 fromBob
    false false emptyWorld
  = (Return tt,
     with_log (Decrypt WhisperMessage "bob" 2 [x01; x02]) emptyWorld).
Proof.
  refine (proj1 (handleEnvelope_duplicate _ "me" 1 fromBob [x01; x02]
                   (MessageCounterError "dup") false false emptyWorld _
                   _ _ _ _ _)).
  - apply not_elem_of_empty.
  - discriminate.
  - reflexivity.
  - reflexivity.
  - reflexivity.
Defined.

Lemma handleEnvelope_unknown_type_witness :
  handleEnvelope (failing untrusted true) "me" 1
    {| type := OTHER; source := "bob"; sourceDevice := 2;
       timestamp := 1234; content := Some [x01]; legacyMessage := None;
       keyChange := false |} true false emptyWorld
  = (Return tt,
     with_log
       (Dispatch
          (ErrorEvent (TypeError "Unknown message type")
             {| type := OTHER; source := "bob"; sourceDevice := 2;
                timestamp := 1234; content := Some [x01];
                legacyMessage := None; keyChange := false |}))
       emptyWorld).
Proof.
  apply (handleEnvelope_unknown_type _ _ _ _ [x01]);
    [apply not_elem_of_empty | reflexivity | reflexivity].
Defined.

Lemma handleEnvelope_other_error_witness :
  handleEnvelope (failing (Error "boom") true) "me" 1 fromBob false false
    emptyWorld
  = (Return tt,
     with_log (Dispatch (ErrorEvent (Error "boom") fromBob))
       (handleContentMessage (failing (Error "boom") true) "me" 1 fromBob
          emptyWorld).2).
Proof.
  apply (handleEnvelope_other_error _ _ _ _
           (handleContentMessage (failing (Error "boom") true) "me" 1));
    [apply not_elem_of_empty | reflexivity | by vm_compute | reflexivity..].
Defined.

End EnvelopeWitnesses.

(** ** Handlers *)

Section HandlerFacts.
Import MessageReceiver IncomingScenario.

Variable env : Env.
Variable addr : string.
Variable deviceId : Z.

(** [decrypt] undoes the padding of the sender: when the cipher answers
    the buffer that [doSendMessage] built for a message, [decrypt] returns
    the message, after one call to the cipher. *)
Theorem decrypt_strips_padding envelope ciphertext msg padded (w : World) :
  (type envelope = CIPHERTEXT /\
   decryptWhisperMessage env w (source envelope) (sourceDevice envelope)
     ciphertext = Return padded) \/
  (type envelope = PREKEY_BUNDLE /\
   decryptPreKeyWhisperMessage env w (source envelope) (sourceDevice envelope)
     ciphertext = Return padded) ->
  paddedBuf msg = Return padded ->
  exists kind,
    decrypt env envelope ciphertext w
    = (Return msg,
       with_log (Decrypt kind (source envelope) (sourceDevice envelope)
                   ciphertext) w).
Proof.
  intros Hc Hp.
  assert (unpad padded = Return msg) as Hu.
  { rewrite paddedBuf_eq in Hp. injection Hp as <-.
    by rewrite unpad_last_nonzero. }
  unfold decrypt. rewrite rbind_unfold. unfold call, unpadR.
  destruct Hc as [[-> ->]|[-> ->]]; rewrite Hu; eauto.
Qed.

Lemma forEach_log {A} (l : list A) (f : A -> Action) (w : World) :
  forEach l (fun x => logAction (f x)) w
  = (Return tt,
     {| blockedSet := blockedSet w; deviceIds := deviceIds w;
        log := log w ++ (f <$> l) |}).
Proof.
  revert w. induction l as [|x l IH]; intros w; cbn [forEach].
  - cbn. rewrite app_nil_r. by destruct w.
  - rewrite rbind_unfold. unfold logAction at 1. rewrite IH.
    cbn. by rewrite <- app_assoc.
Qed.

(** [handleRead] dispatches one [read] event per entry, in the order of
    the entries, each with the timestamp, source and device of the
    envelope; an empty list dispatches nothing. *)
Theorem handleRead_events (read : list ReadEntry) envelope (w : World) :
  handleRead read envelope w
  = (Return tt,
     {| blockedSet := blockedSet w; deviceIds := deviceIds w;
        log := log w ++
               ((fun x => Dispatch
                            (ReadEvent (timestamp envelope) (read_timestamp x)
                               (read_sender x) (source envelope)
                               (sourceDevice envelope))) <$> read) |}).
Proof. unfold handleRead, dispatchEvent. apply forEach_log. Qed.

(** [handleDataMessage] first closes the sessions of all stored devices
    of the source when the END_SESSION flag is set. Then the Exchange view
    of the message is built: when that succeeds, exactly one [message]
    event is dispatched, with the timestamp, source, device and
    [keyChange] of the envelope; when it throws, the error leaves the
    method, no event is dispatched, and what END_SESSION closed stays
    closed. *)
Theorem handleDataMessage_events (message : DataMessage) envelope (w : World) :
  let closings :=
    if negb (Z.land (flags message) END_SESSION =? 0)
    then CloseOpenSession (source envelope)
           <$> default [] (deviceIds w !! source envelope)
    else [] in
  handleDataMessage env message envelope w
  = match exchangeDecode env message with
    | None =>
        (Return tt,
         {| blockedSet := blockedSet w; deviceIds := deviceIds w;
            log := log w ++ closings ++
                   [Dispatch
                      (MessageEvent
                         {| msg_timestamp := timestamp envelope;
                            msg_source := source envelope;
                            msg_sourceDevice := sourceDevice envelope;
                            msg_message := message;
                            msg_keyChange := keyChange envelope |})] |})
    | Some e =>
        (Throw e,
         {| blockedSet := blockedSet w; deviceIds := deviceIds w;
            log := log w ++ closings |})
    end.
Proof.
  intros closings. subst closings.
  unfold handleDataMessage. rewrite rbind_unfold.
  destruct (negb _).
  - unfold handleEndSession. rewrite rbind_unfold. unfold gets.
    rewrite forEach_log, rbind_unfold. unfold exchangeOf.
    destruct (exchangeDecode env message) as [e|]; cbn [ofOption]; [done|].
    unfold dispatchEvent, logAction, with_log. cbn.
    by rewrite <- app_assoc.
  - cbn [mret R_ret]. rewrite rbind_unfold. unfold exchangeOf.
    destruct (exchangeDecode env message) as [e|]; cbn [ofOption].
    + rewrite app_nil_r. by destruct w.
    + by destruct w.
Qed.

(** A sync message that does not come from another device of our own
    address is refused: the handling ends as one [error] event with a
    ReferenceError, and neither a [sent] nor a [read] event is
    dispatched. *)
Theorem handleEnvelope_foreign_sync envelope c data content m reentrant force
    (w w1 : World) :
  source envelope ∉ blockedSet w ->
  type envelope <> RECEIPT ->
  MessageReceiver.content envelope = Some c ->
  decrypt env envelope c w = (Return data, w1) ->
  decodeContent env data = Return content ->
  syncMessage content = Some m ->
  source envelope <> addr \/ sourceDevice envelope = deviceId ->
  exists reason,
    handleEnvelope env addr deviceId envelope reentrant force w
    = (Return tt,
       with_log (Dispatch (ErrorEvent (ReferenceError reason) envelope)) w1).
Proof.
  intros Hb Ht Hc Hd Hdec Hs Ho.
  assert (exists reason,
             handleContentMessage env addr deviceId envelope w
             = (Throw (ReferenceError reason), w1)) as [reason Hh].
  { unfold handleContentMessage. rewrite rbind_unfold, Hc.
    change (default [] (Some c)) with c. rewrite Hd, rbind_unfold.
    unfold decodeR. rewrite Hdec, Hs. unfold handleSyncMessage.
    destruct (String.eqb_spec (source envelope) addr) as [He|He];
      cbn [negb]; [|by eexists].
    destruct Ho as [Ho|Ho]; [done|].
    rewrite Ho, Z.eqb_refl. by eexists. }
  exists reason.
  apply (handleEnvelope_rethrows _ _ _ _ (handleContentMessage env addr deviceId));
    try done.
  unfold selectHandler. rewrite bool_decide_eq_false_2 by done.
  by rewrite Hc, bool_decide_eq_true_2 by eauto.
Qed.

(** *** When [handleEnvelope] returns *)

Hypothesis generateKeys_returns :
  forall w, exists keys, generateKeys env w = Return keys.
Hypothesis registerKeys_returns :
  forall w keys, registerKeys env w keys = None.
Hypothesis closeSession_returns :
  forall w a t, closeSession env w a t = None.

Lemma sessionRecovery_returns e envelope w :
  (sessionRecovery env e envelope w).1 = Return tt.
Proof.
  unfold sessionRecovery. rewrite rbind_unfold.
  destruct (isPreKeyError e).
  - rewrite rbind_unfold. unfold call at 1.
    destruct (generateKeys_returns w) as [keys ->].
    unfold call. by rewrite registerKeys_returns, closeSession_returns.
  - cbn [mret R_ret]. unfold call. by rewrite closeSession_returns.
Qed.

Lemma handleEnvelope_with_returns again envelope reentrant force w :
  type envelope = RECEIPT \/ is_Some (MessageReceiver.content envelope)
  \/ is_Some (legacyMessage envelope) ->
  (forall w', (again (setKeyChange envelope) w').1 = Return tt) ->
  (handleEnvelope_with env addr deviceId again envelope reentrant force w).1
  = Return tt.
Proof.
  intros Hp Hagain. unfold handleEnvelope_with.
  rewrite rbind_unfold. unfold isBlocked, gets.
  destruct (bool_decide _); [done|].
  rewrite rbind_unfold.
  destruct (selectHandler env addr deviceId envelope w) as [[h|e] w1] eqn:Es.
  2:{ exfalso. revert Es. unfold selectHandler.
      destruct Hp as [Hp|[Hp|Hp]].
      - by rewrite bool_decide_eq_true_2.
      - destruct (bool_decide (type envelope = RECEIPT)); [done|].
        by rewrite bool_decide_eq_true_2.
      - destruct (bool_decide (type envelope = RECEIPT)); [done|].
        destruct (bool_decide (is_Some (MessageReceiver.content envelope)));
          [done|].
        by rewrite bool_decide_eq_true_2. }
  rewrite rbind_unfold. unfold try_.
  destruct (h envelope w1) as [[[]|e] w2]; [done|].
  unfold handleFault.
  destruct (isMessageCounterError e); [done|].
  destruct (_ && _).
  - rewrite rbind_unfold. unfold keyChangeDecision.
    destruct force.
    + rewrite rbind_unfold. cbn. apply Hagain.
    + rewrite rbind_unfold. unfold gets. rewrite rbind_unfold.
      unfold dispatchEvent, logAction.
      destruct (listenerAccepts env w2 e envelope); [|done].
      rewrite rbind_unfold. cbn. apply Hagain.
  - rewrite rbind_unfold.
    destruct (isSessionError e); [|done].
    pose proof (sessionRecovery_returns e envelope w2) as Hr.
    by destruct (sessionRecovery env e envelope w2) as [[[]|] w3].
Qed.

(** When the envelope is a receipt or has a payload and the recovery calls
    to the service and to the sender return, [handleEnvelope] returns: no
    error of decryption, of decoding or of a handler leaves it. *)
Theorem handleEnvelope_returns envelope reentrant force w :
  type envelope = RECEIPT \/ is_Some (MessageReceiver.content envelope)
  \/ is_Some (legacyMessage envelope) ->
  (handleEnvelope env addr deviceId envelope reentrant force w).1 = Return tt.
Proof.
  intros Hp. unfold handleEnvelope.
  apply handleEnvelope_with_returns; [done|].
  intros w'. by apply handleEnvelope_with_returns.
Qed.

End HandlerFacts.

Section HandlerWitnesses.
Import MessageReceiver IncomingScenario IncomingScenario2.

Lemma decrypt_strips_padding_witness :
  exists kind,
    decrypt (delivering {| syncMessage := None; dataMessage := None |})
      fromBob [x01; x02] emptyWorld
    = (Return [x68; x69],
       with_log (Decrypt kind "bob" 2 [x01; x02]) emptyWorld).
Proof.
  apply (decrypt_strips_padding _ fromBob [x01; x02] [x68; x69] paddedHi).
  - left. split; reflexivity.
  - by vm_compute.
Defined.

Lemma handleEnvelope_foreign_sync_witness :
  exists reason,
    handleEnvelope
      (delivering {| syncMessage := Some twoReads; dataMessage := None |})
      "me" 1 fromBob false false emptyWorld
    = (Return tt,
       with_log (Dispatch (ErrorEvent (ReferenceError reason) fromBob))
         (with_log (Decrypt WhisperMessage "bob" 2 [x01; x02]) emptyWorld)).
Proof.
  apply (handleEnvelope_foreign_sync _ "me" 1 fromBob [x01; x02] [x68; x69]
           {| syncMessage := Some twoReads; dataMessage := None |} twoReads).
  - apply not_elem_of_empty.
  - discriminate.
  - reflexivity.
  - by vm_compute.
  - reflexivity.
  - reflexivity.
  - left. discriminate.
Defined.

Lemma handleEnvelope_returns_witness :
  (handleEnvelope (failing (PreKeyError "no prekey") false) "me" 1 fromBob
     false false emptyWorld).1 = Return tt.
Proof.
  apply handleEnvelope_returns.
  - intros w. by exists [x07].
  - reflexivity.
  - reflexivity.
  - right. left. by eexists.
Defined.

End HandlerWitnesses.

(** ** Requests and drain *)

Section TransportFacts.
Import MessageReceiver Transport.

Variable env : Transport.Env.
Variable addr : string.
Variable deviceId : Z.

Lemma tbind_unfold {A B} (m : T A) (f : A -> T B) (s : State) :
  (m ≫= f) s =
  match m s with
  | (Return a, s') => f a s'
  | (Throw e, s') => (Throw e, s')
  end.
Proof. reflexivity. Qed.

Lemma responsesOf_app l1 l2 :
  responsesOf (l1 ++ l2) = responsesOf l1 ++ responsesOf l2.
Proof. apply omap_app. Qed.

Lemma deletesOf_app l1 l2 :
  deletesOf (l1 ++ l2) = deletesOf l1 ++ deletesOf l2.
Proof. apply omap_app. Qed.

(** Every request is answered exactly once, whatever becomes of it, and
    the answer is 200, 400 or 500. *)
Theorem handleRequest_responds_once request (s : State) :
  exists code reason,
    responsesOf (wire (handleRequest env addr deviceId request s).2)
    = responsesOf (wire s) ++ [(code, reason)] /\
    (code = 200 \/ code = 400 \/ code = 500).
Proof.
  unfold handleRequest.
  destruct (String.eqb (path request) "/api/v1/queue/empty").
  { exists 200, "OK". cbn [respond wireAction with_wire snd wire].
    rewrite responsesOf_app. auto. }
  destruct (_ || _).
  { exists 400, "Invalid Resource". rewrite tbind_unfold.
    cbn [respond wireAction with_wire throwT snd wire].
    rewrite responsesOf_app. auto. }
  destruct (decodeBody env (body request)) as [envelope|e].
  - exists 200, "OK". rewrite tbind_unfold. unfold tryT, liftR.
    destruct (handleEnvelope _ _ _ envelope false false (world s))
      as [[[]|e] w'];
      cbn [respond wireAction with_wire throwT mret T_ret mbind T_bind
           fst snd wire]; rewrite tbind_unfold;
      cbn [respond wireAction with_wire throwT mret T_ret fst snd wire];
      rewrite responsesOf_app; auto.
  - exists 500, "Bad encrypted websocket message".
    repeat (rewrite tbind_unfold;
            cbn [respond wireAction with_wire throwT snd wire]).
    rewrite !responsesOf_app. cbn [responsesOf omap list_omap].
    rewrite app_nil_r. auto 6.
Qed.

(** A PUT of a message whose body decodes is handed to [handleEnvelope]
    as a first attempt; the request is answered 200 also when
    [handleEnvelope] throws, and what it throws is thrown on. *)
Theorem handleRequest_message request envelope (s : State) :
  path request = "/api/v1/message" ->
  verb request = "PUT" ->
  decodeBody env (body request) = Return envelope ->
  handleRequest env addr deviceId request s
  = ((handleEnvelope (receiverEnv env) addr deviceId envelope false false
        (world s)).1,
     {| world := (handleEnvelope (receiverEnv env) addr deviceId envelope
                    false false (world s)).2;
        wire := wire s ++ [Respond 200 "OK"] |}).
Proof.
  intros Hp Hv Hd. unfold handleRequest. rewrite Hp, Hv, Hd.
  change (String.eqb "/api/v1/message" "/api/v1/queue/empty") with false.
  change (String.eqb "/api/v1/message" "/api/v1/message") with true.
  change (String.eqb "PUT" "PUT") with true. cbn [negb orb].
  rewrite tbind_unfold. unfold tryT, liftR.
  by destruct (handleEnvelope _ _ _ envelope false false (world s))
    as [[[]|e] w'].
Qed.

(** A request that is refused (not a PUT of a message, or a body that
    does not decode) throws and leaves the world of the receiver as it
    was: no envelope is handled. A body that does not decode is answered
    500 and reported by one [error] event; a wrong resource is answered
    400 and reported by none. *)
Theorem handleRequest_refused request (s : State) :
  path request <> "/api/v1/queue/empty" ->
  (path request <> "/api/v1/message" \/ verb request <> "PUT" ->
   handleRequest env addr deviceId request s
   = (Throw (Error "Invalid WebSocket resource received"),
      {| world := world s;
         wire := wire s ++ [Respond 400 "Invalid Resource"] |})) /\
  (forall e,
      path request = "/api/v1/message" -> verb request = "PUT" ->
      decodeBody env (body request) = Throw e ->
      handleRequest env addr deviceId request s
      = (Throw e,
         {| world := world s;
            wire := wire s ++ [Respond 500 "Bad encrypted websocket message";
                               DispatchError e] |})).
Proof.
  intros Hq. apply String.eqb_neq in Hq. unfold handleRequest. rewrite Hq.
  split.
  - intros H.
    assert (negb (String.eqb (path request) "/api/v1/message")
            || negb (String.eqb (verb request) "PUT") = true) as ->.
    { destruct H as [H|H]; apply String.eqb_neq in H; rewrite H; cbn;
        [done | apply orb_true_r]. }
    by rewrite tbind_unfold.
  - intros e Hp Hv Hd. rewrite Hp, Hv, Hd.
    change (String.eqb "/api/v1/message" "/api/v1/message") with true.
    change (String.eqb "PUT" "PUT") with true. cbn [negb orb].
    repeat (rewrite tbind_unfold;
            cbn [respond wireAction with_wire throwT snd wire world]).
    unfold throwT, with_wire. cbn [world wire].
    by rewrite <- app_assoc.
Qed.

(** [drain] is refused while the websocket is in use: it throws before
    the service is contacted. *)
Lemma drain_websocket fuel (s : State) :
  drain env addr deviceId true fuel s
  = (Finished (Throw (TypeError "Fetch is invalid when websocket is in use")),
     s).
Proof. reflexivity. Qed.

(** Over a batch, the DELETEs are issued in the order of the batch, each
    with the source and the timestamp of its envelope, and only for
    envelopes on which [handleEnvelope] has returned: none for the
    envelope on which it throws, none after it. Unless a DELETE before the
    last is rejected, there is one DELETE for every envelope handled; and
    when the batch ends normally, every envelope of it was handled. *)
Theorem drainBatch_deletes (envelopes : list RawEnvelope) (s : State) :
  let run := drainBatch env addr deviceId envelopes s in
  let handled := handledPrefix env addr deviceId envelopes (world s) in
  exists n,
    (n <= handled)%nat /\
    deletesOf (wire run.2)
    = deletesOf (wire s) ++ (urlParametersOf <$> take n envelopes) /\
    ((forall e, run.1 <> DeleteRejected e) -> n = handled) /\
    (run.1 = Finished (Return tt) -> handled = length envelopes).
Proof.
  revert s. induction envelopes as [|raw l IH]; intros s;
    cbn [drainBatch handledPrefix].
  - exists 0%nat. cbn. rewrite app_nil_r. auto.
  - destruct (handleEnvelope _ _ _ (ofRaw env raw) false false (world s))
      as [[[]|e] w']; cbn [fst snd].
    + set (s1 := {| world := w'; wire := wire s |}).
      set (s2 := with_wire (DeleteMessage (urlParametersOf raw)) s1).
      assert (deletesOf (wire s2)
              = deletesOf (wire s) ++ [urlParametersOf raw]) as Hs2.
      { subst s2 s1. cbn [with_wire wire]. by rewrite deletesOf_app. }
      destruct (deleteMessage env s1 (urlParametersOf raw)) as [e|].
      * exists 1%nat. split; [lia|]. split.
        { destruct l; cbn [snd take fmap list_fmap]; by rewrite Hs2. }
        split; [|by destruct l].
        intros Hno. destruct l as [|raw' l]; [done|].
        by destruct (Hno e).
      * destruct (IH s2) as (n & Hn & Hd & Hall & Hret).
        change (world s2) with w' in *.
        exists (S n). split; [lia|]. split.
        { rewrite Hd, Hs2. cbn [take fmap list_fmap].
          by rewrite <- app_assoc. }
        split.
        { intros Hno. f_equal. by apply Hall. }
        intros Hr. cbn [length]. f_equal. by apply Hret.
    + exists 0%nat. cbn. rewrite app_nil_r. split; [lia|]. by split.
Qed.

End TransportFacts.

Section TransportWitnesses.
Import MessageReceiver IncomingScenario Transport TransportScenario.

Lemma handleRequest_message_witness :
  handleRequest wired "me" 1
    {| path := "/api/v1/message"; verb := "PUT"; body := [x2a] |} idle
  = ((handleEnvelope (receiverEnv wired) "me" 1 fromBob false false
        emptyWorld).1,
     {| world := (handleEnvelope (receiverEnv wired) "me" 1 fromBob false
                    false emptyWorld).2;
        wire := [Respond 200 "OK"] |}).
Proof.
  apply (handleRequest_message wired "me" 1
           {| path := "/api/v1/message"; verb := "PUT"; body := [x2a] |}
           fromBob idle); reflexivity.
Defined.

Lemma handleRequest_refused_witness :
  handleRequest wired "me" 1
    {| path := "/api/v1/message"; verb := "PUT"; body := [] |} idle
  = (Throw (Error "Invalid MAC"),
     {| world := emptyWorld;
        wire := [Respond 500 "Bad encrypted websocket message";
                 DispatchError (Error "Invalid MAC")] |}).
Proof.
  refine (proj2 (handleRequest_refused wired "me" 1
                   {| path := "/api/v1/message"; verb := "PUT"; body := [] |}
                   idle _) (Error "Invalid MAC") _ _ _);
    [discriminate | reflexivity..].
Defined.

End TransportWitnesses.

(** ** Key changes while fetching prekeys *)

Section KeychangeFacts.
Import OutgoingMessage OutgoingFacts.

Variable env : Env.

Lemma notKeychange_processPreKey addr key device :
  logs notKeychange (processPreKey env addr key device).
Proof.
  intros w. unfold processPreKey.
  exists [ProcessPreKey addr (deviceId device)].
  destruct (builder_processPreKey env w addr key device); cbn [snd];
    [|change (log (with_sessions ?f ?x)) with (log x)];
    (split; [done | by repeat constructor]).
Qed.

Lemma notKeychange_server_getKeys addr device :
  logs notKeychange (server_getKeys env addr device).
Proof.
  intros w. unfold server_getKeys. exists [GetKeysForAddr addr device].
  destruct (server_getKeysForAddr env w addr device); cbn [snd];
    (split; [done | by repeat constructor]).
Qed.

Lemma notKeychange_removeDeviceIdsForAddr addr l :
  logs notKeychange (removeDeviceIdsForAddr addr l).
Proof.
  unfold removeDeviceIdsForAddr. apply logs_forEach. intros id _.
  unfold removeSession. apply logs_bind.
  - by apply logs_logAction.
  - intros _. by apply logs_modify.
Qed.

Lemma notKeychange_handleResult addr updateDevices response :
  logs notKeychange
    (handleResult env (mret tt) addr updateDevices true response).
Proof.
  unfold handleResult. apply logs_bind; [|intros ?; apply logs_ret].
  apply logs_promiseAll, Forall_fmap, Forall_forall. intros d _. cbn.
  unfold handleDevice.
  destruct (match updateDevices with
            | None => true | Some l => bool_decide (deviceId d ∈ l)
            end); [|apply logs_ret].
  apply logs_bind; [apply logs_try, notKeychange_processPreKey|].
  intros [?|e]; [apply logs_ret|].
  destruct (String.eqb _ _); apply logs_throw.
Qed.

(** The re-entrant call of [getKeysForAddr], the one made after a
    [keychange] event, announces no key change itself: whatever the
    service and the session builder answer, it appends no [keychange]
    event to the log. So one job announces a changed identity at most
    once. *)
Theorem getKeysForAddr_reentrant_no_keychange addr updateDevices :
  logs notKeychange (getKeysForAddr env addr updateDevices true).
Proof.
  unfold getKeysForAddr, handlerOf.
  destruct updateDevices as [l|]; cbn [getKeysForAddr_body].
  - unfold getKeysForAddr_loop. apply logs_forEach. intros device _.
    unfold getKeysForDevice. apply logs_bind.
    + apply logs_try, logs_bind; [apply notKeychange_server_getKeys|].
      intros r. apply notKeychange_handleResult.
    + intros [?|e]; [apply logs_ret|].
      destruct (_ && _);
        [apply notKeychange_removeDeviceIdsForAddr | apply logs_throw].
  - apply logs_bind; [apply notKeychange_server_getKeys|].
    intros r. apply notKeychange_handleResult.
Qed.

End KeychangeFacts.
